(** * An array-backed doubly linked list: shallow embedding and properties

    The list engine of [list.c] keeps three co-indexed arrays (payload bytes,
    [nexts], [prevs]) and uses slot indices as iterators.  Slot 0 is a virtual
    element closing the active chain; free slots are threaded through [nexts]
    and marked by [prevs[i] == i].

    Conventions of the embedding:
    - [size_t] is a 64-bit unsigned integer, a [Z] with the wrap-around of
      the arithmetic written out ([wrap]);
    - the three heap blocks are lists; an access outside a block, or through
      a null pointer, is undefined behaviour and yields [Undef];
    - [assert] aborts (outcome [AssertFail]) unless the build defines
      [NDEBUG];
    - loops whose exit depends on the links run on fuel equal to the number
      of slots plus two, which a terminating walk cannot use up; running out
      of it ([Diverge]) means that the C loop cycles for ever;
    - [calloc] succeeds or fails as an oracle in the heap state says, and the
      heap state counts the blocks that are live. *)

From Stdlib Require Import ZArith Lia Bool.
From Stdlib Require Import Init.Byte Strings.Byte.
From stdpp Require Import base tactics option list sets list_numbers.

#[local] Set Warnings "-clear-no-such-hyp".

Open Scope Z_scope.

(** ** Outcomes of a run *)

Inductive outcome (A : Type) : Type :=
| Ok (a : A)
| Undef
| AssertFail
| Diverge.
Arguments Ok {A} a.
Arguments Undef {A}.
Arguments AssertFail {A}.
Arguments Diverge {A}.

Definition obind {A B : Type} (m : outcome A) (k : A -> outcome B) : outcome B :=
  match m with
  | Ok a => k a
  | Undef => Undef
  | AssertFail => AssertFail
  | Diverge => Diverge
  end.

Declare Scope run_scope.
Delimit Scope run_scope with run.
Notation "'do' x <- m ; k" := (obind m (fun x => k))
  (at level 10, x pattern, m at level 100, k at level 200) : run_scope.
Notation "'do_' m ; k" := (obind m (fun _ => k))
  (at level 10, m at level 100, k at level 200) : run_scope.
Open Scope run_scope.

(** ** Machine integers *)

Definition SIZE_MODULUS : Z := 2 ^ 64.
Definition wrap (z : Z) : Z := z mod SIZE_MODULUS.

Definition CAPACITY_COEFF : Z := 2.

Definition SIZEOF_SIZE_T : Z := 8.
(** [sizeof (struct list_t_)]: three pointers, six [size_t], a [bool] and a
    function pointer, with padding. *)
Definition SIZEOF_LIST : Z := 88.

(** ** The heap: an allocation oracle and the number of live blocks *)

Record heap : Type := mkHeap {
  supply : list bool;   (* results of the coming calls of calloc; then success *)
  live : Z              (* blocks allocated and not yet freed *)
}.

Definition M (A : Type) : Type := heap -> outcome (A * heap).

Definition mret {A : Type} (a : A) : M A := fun h => Ok (a, h).

Definition mbind {A B : Type} (m : M A) (k : A -> M B) : M B :=
  fun h => match m h with
           | Ok (a, h') => k a h'
           | Undef => Undef
           | AssertFail => AssertFail
           | Diverge => Diverge
           end.

Definition lift {A : Type} (m : outcome A) : M A :=
  fun h => match m with
           | Ok a => Ok (a, h)
           | Undef => Undef
           | AssertFail => AssertFail
           | Diverge => Diverge
           end.

Notation "'run' x <- m ; k" := (mbind m (fun x => k))
  (at level 10, x pattern, m at level 100, k at level 200) : run_scope.
Notation "'run_' m ; k" := (mbind m (fun _ => k))
  (at level 10, m at level 100, k at level 200) : run_scope.

(** [calloc(count, width)]: a zero-filled block of [count] cells of [width]
    bytes each, or NULL.  The call consumes one answer of the oracle, and
    fails whatever the oracle says when the size in bytes does not fit in
    [size_t]. *)
Definition calloc {A : Type} (zero : A) (count width : Z) : M (option (list A)) :=
  fun h =>
    let ok := match supply h with [] => true | b :: _ => b end in
    let rest := match supply h with [] => [] | _ :: s => s end in
    if ok && (count * width <? SIZE_MODULUS)
    then Ok (Some (replicate (Z.to_nat count) zero), mkHeap rest (live h + 1))
    else Ok (None, mkHeap rest (live h)).

(** [free(p)]: releases a block; [free(NULL)] does nothing. *)
Definition free {A : Type} (p : option (list A)) : M unit :=
  fun h => match p with
           | Some _ => Ok (tt, mkHeap (supply h) (live h - 1))
           | None => Ok (tt, h)
           end.

(** ** Memory blocks *)

(** Reading and updating a block at an index of type [size_t]. *)
Definition sel {A : Type} (l : list A) (i : Z) : option A :=
  if i <? 0 then None else l !! Z.to_nat i.

Definition upd {A : Type} (l : list A) (i : Z) (v : A) : list A :=
  <[Z.to_nat i := v]> l.

(** [a[i]] as an rvalue. *)
Definition rd {A : Type} (a : option (list A)) (i : Z) : outcome A :=
  match a with
  | None => Undef
  | Some l =>
      match sel l i with
      | Some v => Ok v
      | None => Undef
      end
  end.

(** [a[i] = v]. *)
Definition wr {A : Type} (a : option (list A)) (i : Z) (v : A)
  : outcome (option (list A)) :=
  match a with
  | None => Undef
  | Some l =>
      if (0 <=? i) && (i <? Z.of_nat (length l))
      then Ok (Some (upd l i v))
      else Undef
  end.

(** The [n] cells of a block from offset [off] on. *)
Definition cells {A : Type} (a : option (list A)) (off n : Z) : outcome (list A) :=
  match a with
  | None => Undef
  | Some l =>
      if (0 <=? off) && (0 <=? n) && (off + n <=? Z.of_nat (length l))
      then Ok (take (Z.to_nat n) (drop (Z.to_nat off) l))
      else Undef
  end.

(** [memcpy(dst + off, src, n)] with the source cells already read.  The only
    overlapping copies the engine can issue are copies of a region onto
    itself, which leave the block as it is. *)
Definition blit {A : Type} (dst : option (list A)) (off : Z) (src : list A)
  : outcome (option (list A)) :=
  match dst with
  | None => Undef
  | Some l =>
      if (0 <=? off) && (off + Z.of_nat (length src) <=? Z.of_nat (length l))
      then Ok (Some (take (Z.to_nat off) l ++ src
                       ++ drop (Z.to_nat off + length src) l))
      else Undef
  end.

Definition memcpy {A : Type} (dst : option (list A)) (doff : Z)
    (src : option (list A)) (soff n : Z) : outcome (option (list A)) :=
  do bytes <- cells src soff n;
  blit dst doff bytes.

(** ** The list structure *)

Inductive list_error_t : Type :=
| LIST_NO_ERR
| LIST_ALLOC_ERR
| LIST_BAD_ITERATOR
| LIST_BAD_INDEX
| LIST_EMPTY
| LIST_BAD_CAPACITY
| LIST_BAD_ELEM_SIZE
| LIST_BAD_MEMORY
| LIST_BAD_FIRST_FREE_ELEM
| LIST_BAD_HEAD_ITERATOR
| LIST_BAD_TAIL_ITERATOR
| LIST_BAD_FREE_FIELDS
| LIST_BAD_BUSY_FIELDS.

(** The enumerators' values, used where an error code is returned through
    [list_iterator_t]. *)
Definition error_code (e : list_error_t) : Z :=
  match e with
  | LIST_NO_ERR => 0
  | LIST_ALLOC_ERR => 1
  | LIST_BAD_ITERATOR => 2
  | LIST_BAD_INDEX => 3
  | LIST_EMPTY => 4
  | LIST_BAD_CAPACITY => 5
  | LIST_BAD_ELEM_SIZE => 6
  | LIST_BAD_MEMORY => 7
  | LIST_BAD_FIRST_FREE_ELEM => 8
  | LIST_BAD_HEAD_ITERATOR => 9
  | LIST_BAD_TAIL_ITERATOR => 10
  | LIST_BAD_FREE_FIELDS => 11
  | LIST_BAD_BUSY_FIELDS => 12
  end.

Definition is_no_err (e : list_error_t) : bool :=
  match e with LIST_NO_ERR => true | _ => false end.

Abbreviation list_iterator_t := Z.

(** [struct list_t_]; the printing hook, which the engine never calls, is
    left out. *)
Record list_t_ : Type := mkList {
  data : option (list byte);
  nexts : option (list Z);
  prevs : option (list Z);
  elem_size : Z;
  size : Z;
  capacity : Z;
  first_free : list_iterator_t;
  head : list_iterator_t;
  tail : list_iterator_t;
  normalized : bool
}.

(** A handle [list_t] is a pointer to the structure; [None] is NULL. *)
Definition list_t : Type := option list_t_.

Definition set_data (l : list_t_) (v : option (list byte)) : list_t_ :=
  mkList v (nexts l) (prevs l) (elem_size l) (size l) (capacity l)
         (first_free l) (head l) (tail l) (normalized l).
Definition set_nexts (l : list_t_) (v : option (list Z)) : list_t_ :=
  mkList (data l) v (prevs l) (elem_size l) (size l) (capacity l)
         (first_free l) (head l) (tail l) (normalized l).
Definition set_prevs (l : list_t_) (v : option (list Z)) : list_t_ :=
  mkList (data l) (nexts l) v (elem_size l) (size l) (capacity l)
         (first_free l) (head l) (tail l) (normalized l).
Definition set_size (l : list_t_) (v : Z) : list_t_ :=
  mkList (data l) (nexts l) (prevs l) (elem_size l) v (capacity l)
         (first_free l) (head l) (tail l) (normalized l).
Definition set_capacity (l : list_t_) (v : Z) : list_t_ :=
  mkList (data l) (nexts l) (prevs l) (elem_size l) (size l) v
         (first_free l) (head l) (tail l) (normalized l).
Definition set_first_free (l : list_t_) (v : Z) : list_t_ :=
  mkList (data l) (nexts l) (prevs l) (elem_size l) (size l) (capacity l)
         v (head l) (tail l) (normalized l).
Definition set_head (l : list_t_) (v : Z) : list_t_ :=
  mkList (data l) (nexts l) (prevs l) (elem_size l) (size l) (capacity l)
         (first_free l) v (tail l) (normalized l).
Definition set_tail (l : list_t_) (v : Z) : list_t_ :=
  mkList (data l) (nexts l) (prevs l) (elem_size l) (size l) (capacity l)
         (first_free l) (head l) v (normalized l).
Definition set_normalized (l : list_t_) (v : bool) : list_t_ :=
  mkList (data l) (nexts l) (prevs l) (elem_size l) (size l) (capacity l)
         (first_free l) (head l) (tail l) v.

(** [lst->nexts[i]], [lst->prevs[i]] and the assignments to them. *)
Definition next_at (l : list_t_) (i : Z) : outcome Z := rd (nexts l) i.
Definition prev_at (l : list_t_) (i : Z) : outcome Z := rd (prevs l) i.
Definition next_put (l : list_t_) (i v : Z) : outcome list_t_ :=
  do a <- wr (nexts l) i v; Ok (set_nexts l a).
Definition prev_put (l : list_t_) (i v : Z) : outcome list_t_ :=
  do a <- wr (prevs l) i v; Ok (set_prevs l a).

(** The payload of slot [i]: [elem_size] bytes at [data + i * elem_size]. *)
Definition elem_at (l : list_t_) (i : Z) : outcome (list byte) :=
  cells (data l) (i * elem_size l) (elem_size l).

(** [memcpy(data + i * elem_size, value, elem_size)]; [value] points to the
    bytes [v]. *)
Definition elem_put (l : list_t_) (i : Z) (v : list byte) : outcome list_t_ :=
  do bytes <- cells (Some v) 0 (elem_size l);
  do d <- blit (data l) (i * elem_size l) bytes;
  Ok (set_data l d).

(** Half-open counting loops [for (i = lo; i < hi; ++i)] whose bound the body
    does not change: [n] is the number of iterations, [hi - lo]. *)
Fixpoint for_range {S : Type} (n : nat) (i : Z) (body : Z -> S -> outcome S)
    (s : S) : outcome S :=
  match n with
  | O => Ok s
  | S n' => do s' <- body i s; for_range n' (wrap (i + 1)) body s'
  end.

Definition is_null {A : Type} (p : option A) : bool :=
  match p with None => true | Some _ => false end.

(** Fuel of the loops that follow links: two more than the number of slots.
    A walk over pairwise distinct slots takes fewer steps, and the counting
    loops of the verifier return after at most [capacity + 1] rounds. *)
Definition link_fuel (lst : list_t_) : nat := S (S (Z.to_nat (capacity lst))).

(** ** The engine *)

Section Engine.

(** Whether the build defines [NDEBUG], which compiles the asserts out. *)
Variable NDEBUG : bool.

(** [!it || (it < lst->capacity && lst->prevs[it] != it)] *)
Definition list_check_iterator (lst : list_t_) (it : list_iterator_t)
  : outcome bool :=
  if it =? 0 then Ok true
  else if it <? capacity lst
       then do p <- prev_at lst it; Ok (negb (p =? it))
       else Ok false.

Definition list_iterator_on_element (it : list_iterator_t) : bool :=
  negb (it =? 0).

(** The loop over the free chain in the verifier; [None] means that the loop
    ended without a return. *)
Fixpoint verify_free_loop (fuel : nat) (lst : list_t_)
    (free_it free_amount : Z) : outcome (option list_error_t) :=
  if free_it =? 0 then Ok None
  else match fuel with
       | O => Diverge
       | S fuel' =>
           if free_amount >? wrap (capacity lst - size lst)
           then Ok (Some LIST_BAD_FREE_FIELDS)
           else
             do p <- prev_at lst free_it;
             if negb (p =? free_it) then Ok (Some LIST_BAD_FREE_FIELDS)
             else
               do n <- next_at lst free_it;
               if n =? free_it then Ok (Some LIST_BAD_FREE_FIELDS)
               else verify_free_loop fuel' lst n (wrap (free_amount + 1))
       end.

(** The loop over the active chain in the verifier. *)
Fixpoint verify_busy_loop (fuel : nat) (lst : list_t_)
    (it elems_amount : Z) : outcome (option list_error_t) :=
  if it =? 0 then Ok None
  else match fuel with
       | O => Diverge
       | S fuel' =>
           if elems_amount >=? size lst
           then Ok (Some LIST_BAD_BUSY_FIELDS)
           else
             do p <- prev_at lst it;
             do np <- next_at lst p;
             if negb (it =? np) then Ok (Some LIST_BAD_BUSY_FIELDS)
             else
               do n <- next_at lst it;
               do pn <- prev_at lst n;
               if negb (it =? pn) then Ok (Some LIST_BAD_BUSY_FIELDS)
               else verify_busy_loop fuel' lst n (wrap (elems_amount + 1))
       end.

(** [list_verify_func_]; the diagnostic dump of a debug build writes files
    only and is not part of the embedding. *)
Definition list_verify_func_ (h : list_t) : outcome list_error_t :=
  match h with
  | None => Ok LIST_NO_ERR
  | Some lst =>
      if is_null (data lst) || is_null (nexts lst) || is_null (prevs lst)
      then Ok LIST_BAD_MEMORY
      else if (size lst =? 0) || (capacity lst <? size lst)
      then Ok LIST_BAD_CAPACITY
      else if elem_size lst =? 0
      then Ok LIST_BAD_ELEM_SIZE
      else
        do bad_ff <- (if first_free lst >=? capacity lst then Ok true
                      else do p <- prev_at lst (first_free lst);
                           Ok (negb (p =? first_free lst)));
        if bad_ff && negb (capacity lst =? 1) && negb (first_free lst =? 0)
        then Ok LIST_BAD_FIRST_FREE_ELEM
        else if (head lst >=? capacity lst)
                || ((size lst =? 1) && negb (head lst =? 0))
        then Ok LIST_BAD_HEAD_ITERATOR
        else if (tail lst >=? capacity lst)
                || ((size lst =? 1) && negb (tail lst =? 0))
        then Ok LIST_BAD_TAIL_ITERATOR
        else if capacity lst =? 1
        then Ok LIST_NO_ERR
        else
          do r <- verify_free_loop (link_fuel lst) lst (first_free lst) 0;
          match r with
          | Some e => Ok e
          | None =>
              do r <- verify_busy_loop (link_fuel lst) lst (head lst) 0;
              match r with
              | Some e => Ok e
              | None =>
                  do p0 <- prev_at lst 0;
                  if negb (p0 =? tail lst) then Ok LIST_BAD_BUSY_FIELDS
                  else Ok LIST_NO_ERR
              end
          end
  end.

Definition list_verify (lst : list_t_) : outcome list_error_t :=
  list_verify_func_ (Some lst).

(** [assert (list_verify(lst) == LIST_NO_ERR)] *)
Definition assert_verified (lst : list_t_) : outcome unit :=
  if NDEBUG then Ok tt
  else do e <- list_verify lst;
       if is_no_err e then Ok tt else AssertFail.

(** [list_swap_vals]: slot 0 serves as the temporary. *)
Definition list_swap_vals (lst : list_t_) (it1 it2 : list_iterator_t)
  : outcome list_t_ :=
  let es := elem_size lst in
  do d1 <- memcpy (data lst) 0 (data lst) (it1 * es) es;
  do d2 <- memcpy d1 (it1 * es) d1 (it2 * es) es;
  do d3 <- memcpy d2 (it2 * es) d2 0 es;
  Ok (set_data lst d3).

(** One iteration of the main loop of [list_normalize]; the state is the
    list and the iterator [it]. *)
Definition normalize_step (i : Z) (st : list_t_ * Z) : outcome (list_t_ * Z) :=
  let '(lst, it) := st in
  if i =? it then
    do it' <- next_at lst it;
    do lst <- next_put lst i (wrap (i + 1) mod size lst);
    do lst <- prev_put lst i (wrap (i - 1));
    Ok (lst, it')
  else
    do tmp_it <- next_at lst it;
    do ni <- next_at lst i;
    do lst <- next_put lst it ni;
    do lst <- list_swap_vals lst i it;
    do p <- prev_at lst i;
    do t <- next_at lst p;
    do lst <- next_put lst p (if t >? i then it else t);
    do lst <- prev_put lst i (wrap (i - 1));
    do lst <- next_put lst i (wrap (i + 1) mod size lst);
    Ok (lst, tmp_it).

(** The body of the loops that rebuild the free slots. *)
Definition free_slot_step (modulus : Z) (i : Z) (lst : list_t_)
  : outcome list_t_ :=
  do lst <- next_put lst i (wrap (i + 1) mod modulus);
  prev_put lst i i.

Definition list_normalize (lst : list_t_) : outcome list_t_ :=
  do_ assert_verified lst;
  if normalized lst then Ok lst
  else if size lst =? 1 then Ok (set_normalized lst true)
  else
    let lst := set_normalized lst true in
    do st <- for_range (Z.to_nat (size lst - 1)) 1 normalize_step
                       (lst, head lst);
    let lst := fst st in
    let lst := set_head lst 1 in
    let lst := set_tail lst (wrap (size lst - 1)) in
    do lst <- next_put lst 0 (head lst);
    do lst <- prev_put lst 0 (tail lst);
    let lst := set_first_free lst
                 (if (size lst <? capacity lst) || (size lst =? 1)
                  then size lst else 0) in
    for_range (Z.to_nat (capacity lst - size lst)) (size lst)
              (free_slot_step (capacity lst)) lst.

Definition list_is_normalized (lst : list_t_) : outcome bool :=
  do_ assert_verified lst;
  Ok (normalized lst).

(** The walk to the end of the free chain in [list_change_capacity]. *)
Fixpoint last_free_loop (fuel : nat) (lst : list_t_) (free : Z) : outcome Z :=
  do next <- next_at lst free;
  if next =? 0 then Ok free
  else match fuel with
       | O => Diverge
       | S fuel' => last_free_loop fuel' lst next
       end.

(** The body of the loop that initialises the new slots when growing; the
    state is the pair of the new link arrays. *)
Definition grow_step (new_capacity : Z) (i : Z)
    (st : option (list Z) * option (list Z))
  : outcome (option (list Z) * option (list Z)) :=
  let '(new_nexts, new_prevs) := st in
  do new_nexts <- wr new_nexts i (wrap (i + 1) mod new_capacity);
  do new_prevs <- wr new_prevs i i;
  Ok (new_nexts, new_prevs).

Definition list_change_capacity (lst : list_t_) (new_capacity : Z)
  : M (list_error_t * list_t_) :=
  run_ lift (assert_verified lst);
  let new_capacity := wrap (new_capacity + 1) in
  if new_capacity <? size lst then mret (LIST_BAD_CAPACITY, lst)
  else
    run lst <- lift (if new_capacity <? capacity lst
                     then list_normalize lst else Ok lst);
    run new_data <- calloc x00 (new_capacity * elem_size lst) 1;
    run new_nexts <- calloc 0 new_capacity SIZEOF_SIZE_T;
    run new_prevs <- calloc 0 new_capacity SIZEOF_SIZE_T;
    if is_null new_data || is_null new_nexts || is_null new_prevs
    then
      run_ free new_data;
      run_ free new_nexts;
      run_ free new_prevs;
      mret (LIST_ALLOC_ERR, lst)
    else
      run new_data <- lift (memcpy new_data 0 (data lst) 0
                                   (new_capacity * elem_size lst));
      run new_nexts <- lift (memcpy new_nexts 0 (nexts lst) 0 new_capacity);
      run new_prevs <- lift (memcpy new_prevs 0 (prevs lst) 0 new_capacity);
      run st <- lift
        (if new_capacity >? capacity lst
         then
           let lst := set_first_free lst
                        (if negb (first_free lst =? 0)
                         then first_free lst else size lst) in
           do free <- last_free_loop (link_fuel lst) lst (first_free lst);
           do new_nexts <- wr new_nexts free (size lst);
           do arrays <- for_range (Z.to_nat (new_capacity - size lst))
                                  (size lst) (grow_step new_capacity)
                                  (new_nexts, new_prevs);
           Ok (lst, arrays)
         else Ok (lst, (new_nexts, new_prevs)));
      let '(lst, (new_nexts, new_prevs)) := st in
      run_ free (data lst);
      run_ free (nexts lst);
      run_ free (prevs lst);
      let lst := set_data lst new_data in
      let lst := set_nexts lst new_nexts in
      let lst := set_prevs lst new_prevs in
      let lst := set_capacity lst new_capacity in
      mret (LIST_NO_ERR, lst).

(** [list_remove_first_free]; the third component is [*it], left at 0 when
    the function returns before assigning it. *)
Definition list_remove_first_free (lst : list_t_)
  : M (list_error_t * list_t_ * list_iterator_t) :=
  run r <- (if size lst =? capacity lst
            then list_change_capacity lst (wrap (capacity lst * CAPACITY_COEFF))
            else mret (LIST_NO_ERR, lst));
  let '(err, lst) := r in
  if negb (is_no_err err) then mret (err, lst, 0)
  else
    let lst := set_size lst (wrap (size lst + 1)) in
    let it := first_free lst in
    run ff <- lift (next_at lst (first_free lst));
    mret (LIST_NO_ERR, set_first_free lst ff, it).

(** [list_create_func_]: the initialisation after the three arrays exist. *)
Definition list_create_init (data0 : option (list byte))
    (nexts0 prevs0 : option (list Z)) (start_capacity elem_size0 : Z)
  : outcome list_t_ :=
  let lst := mkList data0 nexts0 prevs0 elem_size0 1 start_capacity 1 0 0 true in
  do lst <- next_put lst 0 0;
  do lst <- prev_put lst 0 0;
  for_range (Z.to_nat (capacity lst - 1)) 1 (free_slot_step start_capacity) lst.

Definition list_destroy (h : list_t) : M list_t :=
  match h with
  | None => mret None
  | Some lst =>
      run_ free (data lst);
      run_ free (nexts lst);
      run_ free (prevs lst);
      run_ free (Some [tt]);
      mret None
  end.

Definition list_create_func_ (start_capacity elem_size0 : Z) : M list_t :=
  if elem_size0 =? 0 then mret None
  else
    run blk <- calloc tt 1 SIZEOF_LIST;
    if is_null blk then mret None
    else
      let start_capacity := wrap (start_capacity + 1) in
      run data0 <- calloc x00 (start_capacity * elem_size0) 1;
      run nexts0 <- calloc 0 start_capacity SIZEOF_SIZE_T;
      run prevs0 <- calloc 0 start_capacity SIZEOF_SIZE_T;
      if is_null data0 || is_null nexts0 || is_null prevs0
      then list_destroy
             (Some (mkList data0 nexts0 prevs0 0 0 0 0 0 0 false))
      else
        run lst <- lift (list_create_init data0 nexts0 prevs0
                                          start_capacity elem_size0);
        mret (Some lst).

(** [list_get]: the result is the byte offset of the element in the payload
    block, [Some off] for the pointer [data + off], and [None] for NULL. *)
Definition list_get (lst : list_t_) (it : list_iterator_t)
  : outcome (option Z) :=
  do_ assert_verified lst;
  do ok <- list_check_iterator lst it;
  if negb ok then Ok None
  else Ok (Some (it * elem_size lst)).

Definition list_insert_after (lst : list_t_) (it : list_iterator_t)
    (value : list byte) : M (list_error_t * list_t_) :=
  run_ lift (assert_verified lst);
  run ok <- lift (list_check_iterator lst it);
  if negb ok then mret (LIST_BAD_ITERATOR, lst)
  else
    run r <- list_remove_first_free lst;
    let '(err, lst, place_to_insert) := r in
    if negb (is_no_err err) then mret (err, lst)
    else lift (
      do lst <- elem_put lst place_to_insert value;
      do n <- next_at lst it;
      do lst <- next_put lst place_to_insert n;
      do lst <- next_put lst it place_to_insert;
      do lst <- prev_put lst place_to_insert it;
      do n <- next_at lst place_to_insert;
      do lst <- prev_put lst n place_to_insert;
      do n <- next_at lst place_to_insert;
      let lst := if n =? 0 then set_tail lst place_to_insert
                 else set_normalized lst false in
      do p <- prev_at lst place_to_insert;
      let lst := if p =? 0 then set_head lst place_to_insert else lst in
      Ok (LIST_NO_ERR, lst)).

Definition list_insert_before (lst : list_t_) (it : list_iterator_t)
    (value : list byte) : M (list_error_t * list_t_) :=
  run_ lift (assert_verified lst);
  run p <- lift (prev_at lst it);
  list_insert_after lst p value.

Definition list_insert_to_head (lst : list_t_) (value : list byte)
  : M (list_error_t * list_t_) :=
  run_ lift (assert_verified lst);
  list_insert_before lst (head lst) value.

Definition list_insert_to_tail (lst : list_t_) (value : list byte)
  : M (list_error_t * list_t_) :=
  run_ lift (assert_verified lst);
  list_insert_after lst (tail lst) value.

(** [list_next] and [list_prev] return the code of [LIST_BAD_ITERATOR]
    through the iterator type. *)
Definition list_next (lst : list_t_) (it : list_iterator_t)
  : outcome list_iterator_t :=
  do_ assert_verified lst;
  do ok <- list_check_iterator lst it;
  if negb ok then Ok (error_code LIST_BAD_ITERATOR)
  else if negb (it =? 0) then next_at lst it else Ok 0.

Definition list_prev (lst : list_t_) (it : list_iterator_t)
  : outcome list_iterator_t :=
  do_ assert_verified lst;
  do ok <- list_check_iterator lst it;
  if negb ok then Ok (error_code LIST_BAD_ITERATOR)
  else if negb (it =? 0) then prev_at lst it else Ok 0.

Definition list_head (lst : list_t_) : outcome list_iterator_t :=
  do_ assert_verified lst;
  Ok (head lst).

Definition list_tail (lst : list_t_) : outcome list_iterator_t :=
  do_ assert_verified lst;
  Ok (tail lst).

(** [list_erase]; the third component is [*it] after the call. *)
Definition list_erase (lst : list_t_) (it : list_iterator_t)
  : outcome (list_error_t * list_t_ * list_iterator_t) :=
  do_ assert_verified lst;
  do ok <- list_check_iterator lst it;
  if negb ok then Ok (LIST_BAD_ITERATOR, lst, it)
  else if it =? 0 then Ok (LIST_NO_ERR, lst, it)
  else
    do next <- next_at lst it;
    do prev <- prev_at lst it;
    do lst <- next_put lst prev next;
    do lst <- prev_put lst next prev;
    do lst <- next_put lst it (first_free lst);
    do lst <- prev_put lst it it;
    let lst := set_first_free lst it in
    let lst := if it =? head lst then set_head lst next else lst in
    let lst := if it =? tail lst then set_tail lst prev
               else set_normalized lst false in
    let lst := set_size lst (wrap (size lst - 1)) in
    Ok (LIST_NO_ERR, lst, if negb (next =? 0) then next else prev).

(** [memcmp(a, b, n) == 0] on byte strings already read. *)
Fixpoint bytes_eqb (a b : list byte) : bool :=
  match a, b with
  | [], [] => true
  | x :: a', y :: b' => Byte.eqb x y && bytes_eqb a' b'
  | _, _ => false
  end.

(** The loop of [list_find]. *)
Fixpoint find_loop (fuel : nat) (lst : list_t_) (value : list byte)
    (it : list_iterator_t) : outcome list_iterator_t :=
  if it =? 0 then Ok 0
  else match fuel with
       | O => Diverge
       | S fuel' =>
           do e <- elem_at lst it;
           do v <- cells (Some value) 0 (elem_size lst);
           if bytes_eqb e v then Ok it
           else do n <- next_at lst it; find_loop fuel' lst value n
       end.

Definition list_find (lst : list_t_) (value : list byte)
  : outcome list_iterator_t :=
  do_ assert_verified lst;
  find_loop (link_fuel lst) lst value (head lst).

(** [list_element_at] returns the code of [LIST_BAD_INDEX] through the
    iterator type. *)
Definition list_element_at (lst : list_t_) (index : Z)
  : outcome list_iterator_t :=
  do_ assert_verified lst;
  let index := wrap (index + 1) in
  if index >=? size lst then Ok (error_code LIST_BAD_INDEX)
  else if normalized lst then Ok index
  else
    do it <- list_head lst;
    for_range (Z.to_nat (index - 1)) 1 (fun _ it => list_next lst it) it.

Definition list_erase_by_value (lst : list_t_) (val : list byte)
  : outcome (list_error_t * list_t_) :=
  do_ assert_verified lst;
  do it <- list_find lst val;
  do r <- list_erase lst it;
  Ok (fst r).

Definition list_erase_by_index (lst : list_t_) (index : Z)
  : outcome (list_error_t * list_t_) :=
  do_ assert_verified lst;
  do it <- list_element_at lst index;
  do r <- list_erase lst it;
  Ok (fst r).

Definition list_clear (lst : list_t_) : M (list_error_t * list_t_) :=
  run_ lift (assert_verified lst);
  let lst := set_normalized lst true in
  let lst := set_size lst 1 in
  run r <- list_change_capacity lst 0;
  let '(err, lst) := r in
  if negb (is_no_err err) then mret (err, lst)
  else lift (
    do lst <- next_put lst 0 0;
    do lst <- prev_put lst 0 0;
    Ok (LIST_NO_ERR, lst)).

Definition list_size (lst : list_t_) : Z := wrap (size lst - 1).

Definition list_capacity (lst : list_t_) : Z := wrap (capacity lst - 1).

(** The traversal of [list_print], collecting the bytes that the printing
    hook is handed for each element instead of writing them out. *)
Fixpoint print_loop (fuel : nat) (lst : list_t_) (it : list_iterator_t)
  : outcome (list (list byte)) :=
  if it =? 0 then Ok []
  else match fuel with
       | O => Diverge
       | S fuel' =>
           do p <- list_get lst it;
           match p with
           | None => Undef
           | Some off =>
               do e <- cells (data lst) off (elem_size lst);
               do n <- list_next lst it;
               do rest <- print_loop fuel' lst n;
               Ok (e :: rest)
           end
       end.

Definition list_print (lst : list_t_) : outcome (list (list byte)) :=
  do_ assert_verified lst;
  do h <- list_head lst;
  print_loop (link_fuel lst) lst h.

End Engine.

(** * Specification-level definitions *)

(** [linked a l]: in the link array [a] every element of [l] points to the
    one that follows it in [l]. *)
Fixpoint linked (a : list Z) (l : list Z) : Prop :=
  match l with
  | x :: ((y :: _) as l') => sel a x = Some y /\ linked a l'
  | _ => True
  end.

Definition hd0 (l : list Z) : Z := List.hd 0 l.
Definition last0 (l : list Z) : Z := default 0 (last l).

(** The representation invariant *)
Record Rep (lst : list_t_) (act fr : list Z) : Prop := mkRep {
  rep_blocks :
    exists d ns ps,
      data lst = Some d /\ nexts lst = Some ns /\ prevs lst = Some ps /\
      Z.of_nat (length d) = capacity lst * elem_size lst /\
      Z.of_nat (length ns) = capacity lst /\
      Z.of_nat (length ps) = capacity lst /\
      linked ns (0 :: act ++ [0]) /\
      linked ps (0 :: reverse act ++ [0]) /\
      linked ns (fr ++ [0]) /\
      Forall (fun f => sel ps f = Some f) fr;
  rep_elem_size : 1 <= elem_size lst;
  rep_bytes : capacity lst * SIZEOF_SIZE_T < SIZE_MODULUS;
  rep_slots : 0 :: act ++ fr ≡ₚ seqZ 0 (capacity lst);
  rep_size : size lst = 1 + Z.of_nat (length act);
  rep_head : head lst = hd0 act;
  rep_tail : tail lst = last0 act;
  rep_first_free :
    match fr with
    | [] => first_free lst = 0 \/ (capacity lst = 1 /\ first_free lst = 1)
    | f :: _ => first_free lst = f
    end
}.

(** Lists whose blocks have the right lengths and whose links all point
    inside the blocks: enough for the normalizer to run without a fault. *)
Record Bounded (lst : list_t_) (d : list byte) (ns ps : list Z) : Prop := mkBounded {
  bd_data : data lst = Some d;
  bd_nexts : nexts lst = Some ns;
  bd_prevs : prevs lst = Some ps;
  bd_data_len : Z.of_nat (length d) = capacity lst * elem_size lst;
  bd_nexts_len : Z.of_nat (length ns) = capacity lst;
  bd_prevs_len : Z.of_nat (length ps) = capacity lst;
  bd_nexts_in : Forall (fun v => 0 <= v < capacity lst) ns;
  bd_prevs_in : Forall (fun v => 0 <= v < capacity lst) ps;
  bd_elem_size : 1 <= elem_size lst;
  bd_size : 1 <= size lst <= capacity lst;
  bd_cap : capacity lst < SIZE_MODULUS
}.

Definition same_scalars (a b : list_t_) : Prop :=
  elem_size b = elem_size a /\ size b = size a /\ capacity b = capacity a /\
  first_free b = first_free a /\ head b = head a /\ tail b = tail a /\
  normalized b = normalized a.

(** The allocator refuses at least one of the next three requests. *)
Definition refuses_one_of_three (h : heap) : Prop :=
  false ∈ take 3 (supply h).

Definition granted {A : Type} (h : heap) (count width : Z) (zero : A)
  : option (list A) :=
  if List.hd true (supply h) && (count * width <? SIZE_MODULUS)
  then Some (replicate (Z.to_nat count) zero) else None.

(** The bytes of slot [x] in a payload block of [es]-byte elements. *)
Definition payload (d : list byte) (es x : Z) : list byte :=
  take (Z.to_nat es) (drop (Z.to_nat (x * es)) d).

(** The mutating operations of the public interface, as data. *)
Inductive operation : Type :=
| InsertAfter (it : Z) (value : list byte)
| InsertBefore (it : Z) (value : list byte)
| InsertToHead (value : list byte)
| InsertToTail (value : list byte)
| Erase (it : Z)
| EraseByValue (value : list byte)
| EraseByIndex (index : Z).

Definition perform (ndebug : bool) (o : operation) (lst : list_t_)
  : M (list_error_t * list_t_) :=
  match o with
  | InsertAfter it v => list_insert_after ndebug lst it v
  | InsertBefore it v => list_insert_before ndebug lst it v
  | InsertToHead v => list_insert_to_head ndebug lst v
  | InsertToTail v => list_insert_to_tail ndebug lst v
  | Erase it => lift (do r <- list_erase ndebug lst it; Ok (fst r))
  | EraseByValue v => lift (list_erase_by_value ndebug lst v)
  | EraseByIndex i => lift (list_erase_by_index ndebug lst i)
  end.

(** Lists obtained from [list_create] by operations that reported success. *)
Inductive reachable (ndebug : bool) : list_t_ -> Prop :=
| reachable_create start_capacity elem_size0 h lst h' :
    0 <= start_capacity < SIZE_MODULUS ->
    0 <= elem_size0 < SIZE_MODULUS ->
    list_create_func_ start_capacity elem_size0 h = Ok (Some lst, h') ->
    reachable ndebug lst
| reachable_step o lst h lst' h' :
    reachable ndebug lst ->
    perform ndebug o lst h = Ok ((LIST_NO_ERR, lst'), h') ->
    reachable ndebug lst'.

(** The operations that take a slot from the free chain. *)
Definition is_insertion (o : operation) : bool :=
  match o with
  | InsertAfter _ _ | InsertBefore _ _ | InsertToHead _ | InsertToTail _ => true
  | Erase _ | EraseByValue _ | EraseByIndex _ => false
  end.

(** Lists obtained from [list_create] by operations that reported success
    without growing the arrays: erasures, and insertions into a list that has
    a free slot. *)
Inductive built_in_place (ndebug : bool) : list_t_ -> Prop :=
| built_create start_capacity elem_size0 h lst h' :
    0 <= start_capacity < SIZE_MODULUS ->
    0 <= elem_size0 < SIZE_MODULUS ->
    list_create_func_ start_capacity elem_size0 h = Ok (Some lst, h') ->
    built_in_place ndebug lst
| built_step o lst h lst' h' :
    built_in_place ndebug lst ->
    (is_insertion o = true -> size lst < capacity lst) ->
    perform ndebug o lst h = Ok ((LIST_NO_ERR, lst'), h') ->
    built_in_place ndebug lst'.

(** A heap whose allocator grants every request. *)
Definition heap0 : heap := mkHeap [] 0.

(** [list_create(2, ...)] for one-byte elements. *)
Definition fresh2 : list_t_ :=
  mkList (Some [x00; x00; x00]) (Some [0; 2; 0]) (Some [0; 1; 2]) 1 1 3 1 0 0 true.

(** [fresh2] after [list_insert_to_tail] of the byte [0b]. *)
Definition single2 : list_t_ :=
  mkList (Some [x00; x0b; x00]) (Some [1; 0; 0]) (Some [1; 0; 2]) 1 2 3 2 1 1 true.

(** [single2] after [list_insert_to_head] of the byte [0a]: the logical
    order is [0a; 0b], with [0a] in slot 2 and [0b] in slot 1. *)
Definition swapped2 : list_t_ :=
  mkList (Some [x00; x0b; x0a]) (Some [2; 0; 1]) (Some [1; 2; 0]) 1 3 3 0 2 1 false.

(** What [list_normalize] makes of [swapped2]. *)
Definition swapped2_normalized : list_t_ :=
  mkList (Some [x0b; x0b; x0a]) (Some [1; 0; 0]) (Some [2; 0; 1]) 1 3 3 0 1 2 true.

(** What [list_clear] makes of [swapped2] when the asserts are compiled out. *)
Definition swapped2_cleared : list_t_ :=
  mkList (Some [x00]) (Some [0]) (Some [0]) 1 1 1 0 2 1 true.

(** [list_create(3, ...)] for one-byte elements. *)
Definition fresh3 : list_t_ :=
  mkList (Some [x00; x00; x00; x00]) (Some [0; 2; 3; 0]) (Some [0; 1; 2; 3])
         1 1 4 1 0 0 true.

(** [fresh3] after [list_insert_to_tail] of the byte [0b]. *)
Definition single3 : list_t_ :=
  mkList (Some [x00; x0b; x00; x00]) (Some [1; 0; 3; 0]) (Some [1; 0; 2; 3])
         1 2 4 2 1 1 true.

(** [single3] after [list_insert_to_head] of the byte [0a]: the order is
    [0a; 0b], slot 3 is free. *)
Definition swapped3 : list_t_ :=
  mkList (Some [x00; x0b; x0a; x00]) (Some [2; 0; 1; 0]) (Some [1; 2; 0; 3])
         1 3 4 3 2 1 false.

(** What [list_change_capacity(lst, 2)] makes of [swapped3]. *)
Definition swapped3_shrunk : list_t_ :=
  mkList (Some [x0b; x0b; x0a]) (Some [1; 0; 0]) (Some [2; 0; 1]) 1 3 3 3 1 2 true.

(** [swapped3] laid out in blocks that reach two cells beyond its four
    slots, with arbitrary contents there: the reads that growing to six slots
    makes beyond the capacity then stay inside the blocks. *)
Definition swapped3_padded (g1 g2 : byte) (n4 n5 p4 p5 : Z) : list_t_ :=
  mkList (Some [x00; x0b; x0a; x00; g1; g2]) (Some [2; 0; 1; 0; n4; n5])
         (Some [1; 2; 0; 3; p4; p5]) 1 3 4 3 2 1 false.

(** What [list_change_capacity(lst, 5)] makes of [swapped3_padded]. *)
Definition swapped3_grown (g1 g2 : byte) : list_t_ :=
  mkList (Some [x00; x0b; x0a; x00; g1; g2]) (Some [2; 0; 1; 4; 5; 0])
         (Some [1; 2; 0; 3; 4; 5]) 1 3 6 3 2 1 false.

(** [single2] after [list_insert_to_tail] of the byte [0c]: the order is
    [0b; 0c], the list is full and flagged normalized. *)
Definition pair2 : list_t_ :=
  mkList (Some [x00; x0b; x0c]) (Some [1; 2; 0]) (Some [2; 0; 1]) 1 3 3 0 1 2 true.

(** [pair2] laid out in blocks that reach four cells beyond its three slots,
    with arbitrary contents there: the reads that growing to seven slots
    makes beyond the capacity then stay inside the blocks.  The cell [n3] is
    the one behind the last link of [nexts]. *)
Definition pair2_padded (g3 g4 g5 g6 : byte) (n3 n4 n5 n6 p3 p4 p5 p6 : Z)
  : list_t_ :=
  mkList (Some [x00; x0b; x0c; g3; g4; g5; g6]) (Some [1; 2; 0; n3; n4; n5; n6])
         (Some [2; 0; 1; p3; p4; p5; p6]) 1 3 3 0 1 2 true.

(** What [list_insert_to_tail] of the byte [0d] makes of [pair2_padded] when
    the cell [n3] holds 0. *)
Definition pair2_grown (g4 g5 g6 : byte) : list_t_ :=
  mkList (Some [x00; x0b; x0c; x0d; g4; g5; g6]) (Some [1; 2; 3; 0; 5; 6; 0])
         (Some [3; 0; 1; 2; 4; 5; 6]) 1 4 7 4 1 3 true.

(** What it makes of [pair2_padded] when the cell [n3] holds 1, the slot of
    an element. *)
Definition pair2_tangled (g4 g5 g6 : byte) : list_t_ :=
  mkList (Some [x00; x0b; x0c; x0d; g4; g5; g6]) (Some [1; 2; 3; 3; 5; 6; 0])
         (Some [2; 0; 1; 3; 4; 5; 6]) 1 4 7 4 1 2 false.

(** ** Further lists and definitions used by the properties below *)

(** [fresh3] after [list_insert_to_tail] of the bytes [0a], [0b] and [0c]:
    the list is full. *)
Definition triple3 : list_t_ :=
  mkList (Some [x00; x0a; x0b; x0c]) (Some [1; 2; 3; 0]) (Some [3; 0; 1; 2])
         1 4 4 0 1 3 true.

(** The state of the main loop of [list_normalize] before the round for slot
    [i], on a list that began with the elements [act], the payload bytes
    [d0] and the back links [ps0]: the slots below [i] are final, the
    elements from position [i] on are where they were, the back links from
    slot [i] on are untouched, and [it] is the slot of the element of
    position [i]. *)
Record NormInv (d0 : list byte) (ps0 act : list Z) (i : Z)
    (lst : list_t_) (it : Z) : Prop := mkNormInv {
  ni_blocks :
    exists d ns ps,
      data lst = Some d /\ nexts lst = Some ns /\ prevs lst = Some ps /\
      length d = length d0 /\ length ns = length ps0 /\ length ps = length ps0 /\
      (forall j, 1 <= j < i ->
         sel ns j = Some ((j + 1) mod size lst) /\ sel ps j = Some (j - 1) /\
         exists x, act !! Z.to_nat (j - 1) = Some x /\
                   payload d (elem_size lst) j = payload d0 (elem_size lst) x) /\
      (forall j x, i <= j -> act !! Z.to_nat (j - 1) = Some x ->
         payload d (elem_size lst) x = payload d0 (elem_size lst) x /\
         sel ns x = Some (hd0 (drop (Z.to_nat j) act))) /\
      (forall x, i <= x -> sel ps x = sel ps0 x);
  ni_it : it = hd0 (drop (Z.to_nat (i - 1)) act)
}.

(** [triple3] after [list_erase] of slot 1: the elements [0b; 0c] sit in the
    slots 2 and 3, and slot 1 is free. *)
Definition gapped3 : list_t_ :=
  mkList (Some [x00; x0a; x0b; x0c]) (Some [2; 0; 3; 0]) (Some [3; 1; 0; 2])
         1 3 4 1 2 3 false.

(** What [list_normalize] makes of [gapped3]: the elements [0b; 0c] have
    moved to the slots 1 and 2. *)
Definition gapped3_normalized : list_t_ :=
  mkList (Some [x0a; x0b; x0c; x0a]) (Some [1; 2; 0; 0]) (Some [2; 0; 1; 3])
         1 3 4 3 1 2 true.

(** [fresh3] after [list_insert_to_tail] of [0a] and of [0b] and
    [list_erase] of slot 1 and then of slot 2: no element is left, and the
    free chain runs 2, 1, 3. *)
Definition drained3 : list_t_ :=
  mkList (Some [x00; x0a; x0b; x00]) (Some [0; 3; 1; 0]) (Some [0; 1; 2; 3])
         1 1 4 2 0 0 false.

(** ** The example program *)




(** * Reasoning support *)

#[global] Arguments rd : simpl never.
#[global] Arguments wr : simpl never.
#[global] Arguments sel : simpl never.
#[global] Arguments upd : simpl never.
#[global] Arguments cells : simpl never.
#[global] Arguments blit : simpl never.
#[global] Arguments wrap : simpl never.
#[global] Arguments link_fuel : simpl never.
#[global] Arguments SIZE_MODULUS : simpl never.
#[global] Arguments set_data _ _ /.
#[global] Arguments set_nexts _ _ /.
#[global] Arguments set_prevs _ _ /.
#[global] Arguments set_size _ _ /.
#[global] Arguments set_capacity _ _ /.
#[global] Arguments set_first_free _ _ /.
#[global] Arguments set_head _ _ /.
#[global] Arguments set_tail _ _ /.
#[global] Arguments set_normalized _ _ /.

(** Opening the invariant into its fields. *)
Ltac open_rep R :=
  destruct R as [(d & ns & ps & Hd & Hns & Hps & Hld & Hlns & Hlps
                  & Hact & Hrev & Hfree & Hself)
                   Hes Hbytes Hslots Hsize Hhead Htail Hff].

(** The invariant of a concrete list is settled by evaluation. *)
Ltac rep_by_evaluation :=
  constructor; cbn;
  [ eexists _, _, _; repeat split; try reflexivity; by repeat constructor
  | lia
  | reflexivity
  | by apply (bool_decide_unpack _)
  | reflexivity
  | reflexivity
  | reflexivity
  | first [reflexivity | by left | by right] ].

Lemma wrap_small z : 0 <= z < SIZE_MODULUS -> wrap z = z.
Proof. intros Hz. unfold wrap. by apply Z.mod_small. Qed.

Section Blocks.
Context {A : Type}.
Implicit Types (l : list A) (i j : Z) (v : A).

Lemma sel_Some l i v : sel l i = Some v <-> 0 <= i /\ l !! Z.to_nat i = Some v.
Proof.
  unfold sel. destruct (Z.ltb_spec i 0).
  - split; [done | intros [? _]; lia].
  - split; [intros; split; [lia|done] | by intros [_ ?]].
Qed.

Lemma sel_bound l i v : sel l i = Some v -> 0 <= i < Z.of_nat (length l).
Proof.
  intros [Hi Hl%lookup_lt_Some]%sel_Some. lia.
Qed.

Lemma sel_is_Some l i : 0 <= i < Z.of_nat (length l) -> is_Some (sel l i).
Proof.
  intros Hi. unfold sel. destruct (Z.ltb_spec i 0); [lia|].
  apply lookup_lt_is_Some. lia.
Qed.

Lemma sel_None l i : Z.of_nat (length l) <= i -> sel l i = None.
Proof.
  intros Hi. unfold sel. destruct (Z.ltb_spec i 0); [done|].
  apply lookup_ge_None. lia.
Qed.

Lemma length_upd l i v : length (upd l i v) = length l.
Proof. apply length_insert. Qed.

Lemma sel_upd_eq l i v : 0 <= i < Z.of_nat (length l) -> sel (upd l i v) i = Some v.
Proof.
  intros Hi. apply sel_Some. split; [lia|].
  apply list_lookup_insert_eq. lia.
Qed.

Lemma sel_upd_ne l i j v : i <> j -> 0 <= i -> sel (upd l i v) j = sel l j.
Proof.
  intros Hne Hi. unfold sel, upd. destruct (Z.ltb_spec j 0); [done|].
  apply list_lookup_insert_ne. lia.
Qed.

Lemma rd_Ok l i v : rd (Some l) i = Ok v <-> sel l i = Some v.
Proof.
  unfold rd. destruct (sel l i); split; congruence.
Qed.

Lemma wr_Ok l i v : 0 <= i < Z.of_nat (length l) -> wr (Some l) i v = Ok (Some (upd l i v)).
Proof.
  intros Hi. unfold wr.
  destruct (Z.leb_spec 0 i); [|lia]. destruct (Z.ltb_spec i (Z.of_nat (length l))); [done|lia].
Qed.

End Blocks.

Lemma linked_app a l1 x l2 :
  linked a (l1 ++ x :: l2) <-> linked a (l1 ++ [x]) /\ linked a (x :: l2).
Proof.
  induction l1 as [|y l1 IH]; simpl.
  - tauto.
  - destruct l1 as [|z l1]; simpl in *; tauto.
Qed.

Lemma linked_upd_other a l e i v :
  0 <= i -> i ∉ l -> linked a (l ++ [e]) -> linked (upd a i v) (l ++ [e]).
Proof.
  intros Hi. induction l as [|x l IH]; simpl; [done|].
  intros Hnotin. apply not_elem_of_cons in Hnotin as [Hne Hnotin].
  destruct (l ++ [e]) as [|y t] eqn:E; [done|].
  intros [Hx Ht]. split; [|by apply IH].
  rewrite sel_upd_ne; done.
Qed.

Lemma snoc_last0 (u : list Z) : exists U, 0 :: u = U ++ [last0 u].
Proof.
  destruct u as [|x u _] using rev_ind.
  - by exists [].
  - exists (0 :: u). unfold last0. by rewrite last_snoc.
Qed.

Lemma cons_hd0 (v : list Z) : exists V, v ++ [0] = hd0 v :: V.
Proof.
  destruct v as [|x v]; [by exists []|]. by exists (v ++ [0]).
Qed.

Lemma linked_insert a u v p :
  0 <= p < Z.of_nat (length a) ->
  NoDup (0 :: u ++ v) -> p ∉ 0 :: u ++ v ->
  linked a (0 :: u ++ v ++ [0]) ->
  linked (upd (upd a p (hd0 v)) (last0 u) p) (0 :: u ++ p :: v ++ [0]).
Proof.
  intros Hrange Hnd Hfresh Hl.
  destruct (snoc_last0 u) as [U HU]. destruct (cons_hd0 v) as [V HV].
  set (it := last0 u) in *. set (nx := hd0 v) in *.
  change (0 :: u ++ v) with ((0 :: u) ++ v) in Hnd, Hfresh.
  change (0 :: u ++ v ++ [0]) with ((0 :: u) ++ v ++ [0]) in Hl.
  change (0 :: u ++ p :: v ++ [0]) with ((0 :: u) ++ p :: v ++ [0]).
  rewrite HU in Hnd, Hfresh, Hl |- *. clear HU.
  apply NoDup_app in Hnd as (HndU & Hdisj & _).
  apply NoDup_app in HndU as (_ & HdU & _).
  assert (HitU : it ∉ U) by (intros Hin; apply (HdU _ Hin); set_solver).
  assert (Hitv : it ∉ v) by (apply Hdisj; set_solver).
  assert (HpU : p ∉ U) by set_solver.
  assert (Hpv : p ∉ v) by set_solver.
  assert (Hpit : p <> it) by set_solver.
  rewrite <- app_assoc in Hl |- *. simpl in Hl |- *.
  apply linked_app in Hl as [Hl1 Hl2].
  rewrite HV in Hl2. destruct Hl2 as [Hs Hl2]. rewrite <- HV in Hl2.
  apply sel_bound in Hs as Hit.
  apply linked_app. split.
  - by do 2 (apply linked_upd_other; [lia|done|]).
  - rewrite HV. split; [|split].
    + apply sel_upd_eq. rewrite length_upd. lia.
    + rewrite sel_upd_ne by lia. apply sel_upd_eq. lia.
    + rewrite <- HV. by do 2 (apply linked_upd_other; [lia|done|]).
Qed.

Lemma linked_remove a u v x w :
  NoDup (0 :: u ++ x :: v) ->
  linked a (0 :: u ++ x :: v ++ [0]) ->
  linked (upd (upd a (last0 u) (hd0 v)) x w) (0 :: u ++ v ++ [0]).
Proof.
  intros Hnd Hl.
  destruct (snoc_last0 u) as [U HU]. destruct (cons_hd0 v) as [V HV].
  set (pr := last0 u) in *. set (nx := hd0 v) in *.
  change (0 :: u ++ x :: v) with ((0 :: u) ++ x :: v) in Hnd.
  change (0 :: u ++ x :: v ++ [0]) with ((0 :: u) ++ x :: v ++ [0]) in Hl.
  change (0 :: u ++ v ++ [0]) with ((0 :: u) ++ v ++ [0]).
  rewrite HU in Hnd, Hl |- *. clear HU.
  apply NoDup_app in Hnd as (HndU & Hdisj & Hndv).
  apply NoDup_app in HndU as (_ & HdU & _).
  apply NoDup_cons in Hndv as [Hxv _].
  assert (HprU : pr ∉ U) by (intros Hin; apply (HdU _ Hin); set_solver).
  assert (Hprv : pr ∉ v) by (intros Hin; apply (Hdisj pr); set_solver).
  assert (HxU : x ∉ U) by (intros Hin; apply (Hdisj x); set_solver).
  assert (Hxpr : x <> pr) by (intros ->; apply (Hdisj pr); set_solver).
  rewrite <- app_assoc in Hl |- *. simpl in Hl |- *.
  apply linked_app in Hl as [Hl1 [Hs Hl2]].
  apply sel_bound in Hs as Hpr.
  rewrite HV in Hl2. destruct Hl2 as [Hs2 Hl2]. rewrite <- HV in Hl2.
  apply sel_bound in Hs2 as Hx.
  apply linked_app. split.
  - by do 2 (apply linked_upd_other; [lia|done|]).
  - rewrite HV. split.
    + rewrite sel_upd_ne by lia. apply sel_upd_eq. lia.
    + rewrite <- HV. by do 2 (apply linked_upd_other; [lia|done|]).
Qed.

Lemma hd0_reverse l : hd0 (reverse l) = last0 l.
Proof.
  destruct l as [|x l _] using rev_ind; [done|].
  rewrite reverse_snoc. unfold last0. by rewrite last_snoc.
Qed.

Lemma last0_reverse l : last0 (reverse l) = hd0 l.
Proof. by rewrite <- hd0_reverse, reverse_involutive. Qed.

Lemma hd0_app_cons u x v : hd0 (u ++ x :: v) = hd0 (u ++ [x]).
Proof. by destruct u. Qed.

Lemma last0_snoc u x : last0 (u ++ [x]) = x.
Proof. unfold last0. by rewrite last_snoc. Qed.

Lemma last0_app_cons u x v : last0 (u ++ x :: v) = last0 (x :: v).
Proof.
  unfold last0. by rewrite last_app_cons.
Qed.

Lemma linked_at a u x v :
  linked a (0 :: u ++ x :: v ++ [0]) ->
  sel a (last0 u) = Some x /\ sel a x = Some (hd0 v).
Proof.
  intros Hl. destruct (snoc_last0 u) as [U HU]. destruct (cons_hd0 v) as [V HV].
  change (0 :: u ++ x :: v ++ [0]) with ((0 :: u) ++ x :: v ++ [0]) in Hl.
  rewrite HU, HV, <- app_assoc in Hl. simpl in Hl.
  apply linked_app in Hl as [_ [H1 [H2 _]]]. done.
Qed.

Lemma linked_first a l :
  linked a (0 :: l ++ [0]) -> sel a 0 = Some (hd0 l).
Proof.
  destruct l; simpl; tauto.
Qed.

Lemma linked_tail a x l : linked a (x :: l) -> linked a l.
Proof. destruct l; simpl; tauto. Qed.

Lemma hd0_cases l : hd0 l = 0 \/ hd0 l ∈ l.
Proof. destruct l; simpl; [by left|right; set_solver]. Qed.

Lemma last0_cases l : last0 l = 0 \/ last0 l ∈ l.
Proof.
  destruct l as [|x l _] using rev_ind; [by left|right].
  rewrite last0_snoc. set_solver.
Qed.

Section RepFacts.
Context (lst : list_t_) (act fr : list Z) (R : Rep lst act fr).

Lemma rep_NoDup : NoDup (0 :: act ++ fr).
Proof. rewrite (rep_slots _ _ _ R). apply NoDup_seqZ. Qed.

Lemma rep_elem_of x : x ∈ 0 :: act ++ fr <-> 0 <= x < capacity lst.
Proof. rewrite (rep_slots _ _ _ R), elem_of_seqZ. lia. Qed.

Lemma rep_capacity :
  capacity lst = 1 + Z.of_nat (length act) + Z.of_nat (length fr).
Proof.
  pose proof (Permutation_length (rep_slots _ _ _ R)) as Hlen.
  rewrite length_seqZ in Hlen. simpl in Hlen. rewrite length_app in Hlen. lia.
Qed.

Lemma rep_capacity_size :
  capacity lst = size lst + Z.of_nat (length fr).
Proof. rewrite rep_capacity, (rep_size _ _ _ R). lia. Qed.

Lemma rep_cap_bound : capacity lst < SIZE_MODULUS.
Proof. pose proof (rep_bytes _ _ _ R). unfold SIZEOF_SIZE_T, SIZE_MODULUS in *. 
  pose proof rep_capacity. lia. Qed.

Lemma rep_act_range x : x ∈ act -> 0 < x < capacity lst.
Proof.
  intros Hx. assert (x ∈ 0 :: act ++ fr) as Hin by set_solver.
  apply rep_elem_of in Hin. pose proof rep_NoDup as Hnd.
  apply NoDup_cons in Hnd as [H0 _]. assert (x <> 0) by set_solver. lia.
Qed.

Lemma rep_free_range x : x ∈ fr -> 0 < x < capacity lst.
Proof.
  intros Hx. assert (x ∈ 0 :: act ++ fr) as Hin by set_solver.
  apply rep_elem_of in Hin. pose proof rep_NoDup as Hnd.
  apply NoDup_cons in Hnd as [H0 _]. assert (x <> 0) by set_solver. lia.
Qed.

Lemma rep_hd0_range : 0 <= hd0 act < capacity lst.
Proof.
  destruct (hd0_cases act) as [->|Hx]; [pose proof rep_capacity; lia|].
  apply rep_act_range in Hx. lia.
Qed.

Lemma rep_last0_range : 0 <= last0 act < capacity lst.
Proof.
  destruct (last0_cases act) as [->|Hx]; [pose proof rep_capacity; lia|].
  apply rep_act_range in Hx. lia.
Qed.

End RepFacts.

Lemma verify_free_loop_ok lst ns ps fr k fuel :
  nexts lst = Some ns -> prevs lst = Some ps ->
  linked ns (fr ++ [0]) ->
  Forall (fun f => sel ps f = Some f) fr ->
  NoDup (0 :: fr) ->
  0 <= k ->
  k + Z.of_nat (length fr) <= capacity lst - size lst ->
  0 <= capacity lst - size lst < SIZE_MODULUS - 1 ->
  (length fr <= fuel)%nat ->
  verify_free_loop fuel lst (hd0 fr) k = Ok None.
Proof.
  intros Hns Hps. revert k fuel.
  induction fr as [|f fr IH]; intros k fuel Hl Hself Hnd Hk Hcount Hcap Hfuel.
  - by destruct fuel.
  - apply NoDup_cons in Hnd as [H0 Hnd].
    apply NoDup_cons in Hnd as Hnd'. destruct Hnd' as [Hf Hnd'].
    assert (f <> 0) by set_solver.
    destruct fuel as [|fuel]; [simpl in Hfuel; lia|].
    simpl. simpl in Hcount.
    destruct (Z.eqb_spec f 0); [done|].
    rewrite wrap_small by lia.
    destruct (Z.gtb_spec k (capacity lst - size lst)); [lia|].
    apply Forall_cons in Hself as [Hsf Hself].
    unfold prev_at, next_at. rewrite Hps, Hns.
    apply rd_Ok in Hsf. rewrite Hsf. simpl.
    rewrite Z.eqb_refl. simpl.
    destruct (cons_hd0 fr) as [V HV].
    simpl in Hl. rewrite HV in Hl. destruct Hl as [Hn Hl].
    apply rd_Ok in Hn. rewrite Hn. simpl.
    assert (hd0 fr <> f).
    { destruct (hd0_cases fr) as [->|?]; [done|]. by intros <-. }
    destruct (Z.eqb_spec (hd0 fr) f); [done|].
    rewrite wrap_small by lia.
    apply IH; try done; try lia.
    + by rewrite HV.
    + apply NoDup_cons. split; [set_solver|done].
    + simpl in Hfuel. lia.
Qed.

Lemma verify_busy_loop_ok lst ns ps seen rest fuel :
  nexts lst = Some ns -> prevs lst = Some ps ->
  linked ns (0 :: (seen ++ rest) ++ [0]) ->
  linked ps (0 :: reverse (seen ++ rest) ++ [0]) ->
  NoDup (0 :: seen ++ rest) ->
  size lst = 1 + Z.of_nat (length (seen ++ rest)) ->
  size lst < SIZE_MODULUS ->
  (length rest <= fuel)%nat ->
  verify_busy_loop fuel lst (hd0 rest) (Z.of_nat (length seen)) = Ok None.
Proof.
  intros Hns Hps. revert seen fuel.
  induction rest as [|x rest IH]; intros seen fuel Hl Hr Hnd Hsize Hbound Hfuel.
  - by destruct fuel.
  - assert (x <> 0).
    { apply NoDup_cons in Hnd as [H0 _]. set_solver. }
    destruct fuel as [|fuel]; [simpl in Hfuel; lia|].
    simpl. destruct (Z.eqb_spec x 0); [done|].
    rewrite length_app in Hsize. simpl in Hsize.
    destruct (Z.geb_spec (Z.of_nat (length seen)) (size lst)); [lia|].
    rewrite <- app_assoc in Hl. simpl in Hl.
    apply linked_at in Hl as Hat. destruct Hat as [Hpx Hxn].
    rewrite reverse_app, reverse_cons, <- !app_assoc in Hr. simpl in Hr.
    apply linked_at in Hr as Hat. destruct Hat as [Hnx Hxp].
    rewrite last0_reverse in Hnx. rewrite hd0_reverse in Hxp.
    unfold prev_at, next_at. rewrite Hps, Hns.
    apply rd_Ok in Hpx, Hxn, Hnx, Hxp.
    rewrite Hxp. simpl. rewrite Hpx. simpl. rewrite Z.eqb_refl. simpl.
    rewrite Hxn. simpl. rewrite Hnx. simpl. rewrite Z.eqb_refl. simpl.
    rewrite wrap_small by lia.
    replace (Z.of_nat (length seen) + 1) with (Z.of_nat (length (seen ++ [x])))
      by (rewrite length_app; simpl; lia).
    apply IH.
    + by rewrite <- !app_assoc.
    + rewrite <- !app_assoc. simpl. by rewrite reverse_app, reverse_cons, <- !app_assoc.
    + by rewrite <- app_assoc.
    + rewrite <- app_assoc. simpl. rewrite length_app. simpl. lia.
    + done.
    + simpl in Hfuel. lia.
Qed.

Lemma list_verify_ok lst act fr :
  Rep lst act fr -> list_verify lst = Ok LIST_NO_ERR.
Proof.
  intros R.
  pose proof (rep_capacity _ _ _ R) as Hcap.
  pose proof (rep_capacity_size _ _ _ R) as Hcs.
  pose proof (rep_cap_bound _ _ _ R) as Hcb.
  pose proof (rep_hd0_range _ _ _ R) as Hhd.
  pose proof (rep_last0_range _ _ _ R) as Hlast.
  pose proof (rep_NoDup _ _ _ R) as Hnd.
  open_rep R.
  unfold list_verify, list_verify_func_.
  rewrite Hd, Hns, Hps. cbn.
  destruct (Z.eqb_spec (size lst) 0); [lia|].
  destruct (Z.ltb_spec (capacity lst) (size lst)); [lia|]. cbn.
  destruct (Z.eqb_spec (elem_size lst) 0); [lia|].
  assert (Hbad : (do bad_ff <- (if first_free lst >=? capacity lst then Ok true
                      else do p <- prev_at lst (first_free lst);
                           Ok (negb (p =? first_free lst)));
                 Ok (bad_ff && negb (capacity lst =? 1) && negb (first_free lst =? 0)))
                 = Ok false).
  { destruct fr as [|f fr'].
    - destruct Hff as [Hff|[Hc Hff]].
      + rewrite Hff. destruct (Z.geb_spec 0 (capacity lst)); [lia|].
        unfold prev_at. rewrite Hps.
        destruct (sel_is_Some ps 0) as [p Hp]; [lia|].
        apply rd_Ok in Hp. rewrite Hp. simpl. by rewrite andb_false_r.
      + rewrite Hff, Hc. simpl. done.
    - rewrite Hff. apply Forall_cons in Hself as [Hsf _].
      apply sel_bound in Hsf as Hb.
      destruct (Z.geb_spec f (capacity lst)); [lia|].
      unfold prev_at. rewrite Hps. apply rd_Ok in Hsf. rewrite Hsf. simpl.
      by rewrite Z.eqb_refl. }
  destruct (if first_free lst >=? capacity lst then Ok true
            else do p <- prev_at lst (first_free lst);
                 Ok (negb (p =? first_free lst))) as [b| | |]; cbn in Hbad |- *;
    try discriminate.
  injection Hbad as Hbad. rewrite Hbad.
  rewrite Hhead, Htail.
  destruct (Z.geb_spec (hd0 act) (capacity lst)); [lia|].
  destruct (Z.geb_spec (last0 act) (capacity lst)); [lia|]. cbn.
  assert (Hempty : size lst = 1 -> act = []).
  { intros Hs. destruct act; [done|]. simpl in Hsize. lia. }
  assert (Hh : (size lst =? 1) && negb (hd0 act =? 0) = false).
  { destruct (Z.eqb_spec (size lst) 1) as [Hs|Hs]; [|done].
    by rewrite (Hempty Hs). }
  assert (Ht : (size lst =? 1) && negb (last0 act =? 0) = false).
  { destruct (Z.eqb_spec (size lst) 1) as [Hs|Hs]; [|done].
    by rewrite (Hempty Hs). }
  rewrite Hh, Ht. cbn.
  destruct (Z.eqb_spec (capacity lst) 1) as [Hc1|Hc1]; [done|].
  assert (Hffhd : first_free lst = hd0 fr).
  { destruct fr; [|done]. destruct Hff as [?|[? ?]]; [done|lia]. }
  rewrite Hffhd.
  rewrite (verify_free_loop_ok lst ns ps fr 0 (link_fuel lst)); try done; try lia.
  - cbn.
    assert (Hbusy : verify_busy_loop (link_fuel lst) lst (hd0 act) 0 = Ok None).
    { apply (verify_busy_loop_ok lst ns ps [] act (link_fuel lst)); try done.
      + change (0 :: act ++ fr) with ((0 :: act) ++ fr) in Hnd.
        by apply NoDup_app in Hnd as [? _].
      + simpl. lia.
      + unfold link_fuel. lia. }
    rewrite Hbusy. cbn. unfold prev_at. rewrite Hps.
    apply linked_first in Hrev. rewrite hd0_reverse in Hrev.
    apply rd_Ok in Hrev. rewrite Hrev. cbn. by rewrite Z.eqb_refl.
  - change (0 :: act ++ fr) with ((0 :: act) ++ fr) in Hnd.
    rewrite Permutation_app_comm in Hnd. simpl in Hnd.
    rewrite <- Permutation_middle in Hnd. 
    change (0 :: fr ++ act) with ((0 :: fr) ++ act) in Hnd.
    by apply NoDup_app in Hnd as [? _].
  - unfold link_fuel. lia.
Qed.

Lemma assert_verified_ok ndebug lst act fr :
  Rep lst act fr -> assert_verified ndebug lst = Ok tt.
Proof.
  intros R. unfold assert_verified. destruct ndebug; [done|].
  by rewrite (list_verify_ok _ _ _ R).
Qed.

Lemma hd0_app_nonempty (l1 l2 : list Z) : l1 <> [] -> hd0 (l1 ++ l2) = hd0 l1.
Proof. by destruct l1. Qed.

Lemma last0_app_nonempty (l1 l2 : list Z) : l2 <> [] -> last0 (l1 ++ l2) = last0 l2.
Proof.
  destruct l2 as [|x l2]; [done|]. intros _. by rewrite last0_app_cons.
Qed.

Lemma last0_cons_nonempty x (l : list Z) : l <> [] -> last0 (x :: l) = last0 l.
Proof. intros Hl. by apply (last0_app_nonempty [x]). Qed.

Lemma reverse_middle (l1 : list Z) x l2 :
  reverse (l1 ++ x :: l2) = reverse l2 ++ x :: reverse l1.
Proof. by rewrite reverse_app, reverse_cons, <- app_assoc. Qed.

Lemma hd0_in_nonempty (l : list Z) : l <> [] -> hd0 l ∈ l.
Proof. destruct l; [done|]. intros _. simpl. set_solver. Qed.

Lemma last0_in_nonempty (l : list Z) : l <> [] -> last0 l ∈ l.
Proof.
  destruct l as [|x l _] using rev_ind; [done|]. intros _.
  rewrite last0_snoc. set_solver.
Qed.

Lemma check_iterator_active lst act fr l1 x l2 :
  Rep lst act fr -> act = l1 ++ x :: l2 ->
  list_check_iterator lst x = Ok true /\
  prev_at lst x = Ok (last0 l1) /\ next_at lst x = Ok (hd0 l2) /\
  x <> 0 /\ last0 l1 <> x /\ hd0 l2 <> x.
Proof.
  intros R ->.
  pose proof (rep_NoDup _ _ _ R) as Hnd.
  assert (Hx : 0 < x < capacity lst) by (apply (rep_act_range _ _ _ R); set_solver).
  open_rep R.
  rewrite <- app_assoc in Hact. simpl in Hact.
  apply linked_at in Hact as [_ Hn].
  rewrite reverse_app, reverse_cons, <- !app_assoc in Hrev. simpl in Hrev.
  apply linked_at in Hrev as [_ Hp]. rewrite hd0_reverse in Hp.
  change (0 :: (l1 ++ x :: l2) ++ fr) with ((0 :: l1 ++ x :: l2) ++ fr) in Hnd.
  apply NoDup_app in Hnd as [Hnd _].
  apply NoDup_cons in Hnd as [H0 Hnd].
  apply NoDup_app in Hnd as (_ & Hdisj & Hndx).
  apply NoDup_cons in Hndx as [Hxl2 _].
  assert (Hpx : last0 l1 <> x).
  { destruct (last0_cases l1) as [->|Hin]; [lia|]. intros E. rewrite E in Hin.
    apply (Hdisj _ Hin). set_solver. }
  assert (Hnx : hd0 l2 <> x).
  { destruct (hd0_cases l2) as [->|Hin]; [lia|]. intros E. by rewrite E in Hin. }
  unfold list_check_iterator, prev_at, next_at. rewrite Hps, Hns.
  apply rd_Ok in Hp, Hn. rewrite Hp, Hn.
  destruct (Z.eqb_spec x 0); [lia|]. destruct (Z.ltb_spec x (capacity lst)); [|lia].
  cbn. destruct (Z.eqb_spec (last0 l1) x); [done|]. repeat split; (done || lia).
Qed.

Lemma eqb_hd0_split (l1 : list Z) x l2 :
  NoDup (l1 ++ x :: l2) -> (x =? hd0 (l1 ++ x :: l2)) = bool_decide (l1 = []).
Proof.
  intros Hnd. case_bool_decide as E.
  - subst l1. apply Z.eqb_refl.
  - apply Z.eqb_neq. intros Heq. destruct l1 as [|y l1]; [done|].
    simpl in Heq. subst y. simpl in Hnd.
    apply NoDup_cons in Hnd as [Hy _]. set_solver.
Qed.

Lemma eqb_last0_split (l1 : list Z) x l2 :
  NoDup (l1 ++ x :: l2) -> (x =? last0 (l1 ++ x :: l2)) = bool_decide (l2 = []).
Proof.
  intros Hnd. rewrite last0_app_cons. case_bool_decide as E.
  - subst l2. apply Z.eqb_refl.
  - apply Z.eqb_neq. intros Heq.
    destruct l2 as [|y l2 _] using rev_ind; [done|].
    rewrite app_comm_cons, last0_snoc in Heq. subst y.
    apply NoDup_app in Hnd as (_ & _ & Hnd).
    apply NoDup_cons in Hnd as [Hy _]. set_solver.
Qed.

Lemma hd0_eqb_0 (l : list Z) : 0 ∉ l -> (hd0 l =? 0) = bool_decide (l = []).
Proof.
  intros H0. case_bool_decide as E.
  - by subst l.
  - apply Z.eqb_neq. intros Heq. destruct l as [|y l]; [done|].
    simpl in Heq. subst y. set_solver.
Qed.

Lemma list_erase_active ndebug lst l1 x l2 fr :
  Rep lst (l1 ++ x :: l2) fr ->
  exists lst',
    list_erase ndebug lst x
    = Ok (LIST_NO_ERR, lst', if bool_decide (l2 = []) then last0 l1 else hd0 l2) /\
    Rep lst' (l1 ++ l2) (x :: fr) /\
    normalized lst' = normalized lst && bool_decide (l2 = []) /\
    data lst' = data lst /\
    elem_size lst' = elem_size lst /\
    capacity lst' = capacity lst.
Proof.
  intros R.
  pose proof (assert_verified_ok ndebug _ _ _ R) as Hassert.
  pose proof (check_iterator_active _ _ _ l1 x l2 R eq_refl)
    as (Hcheck & Hprev & Hnext & Hx0 & Hpx & Hnx).
  pose proof (rep_NoDup _ _ _ R) as Hnd.
  pose proof (rep_capacity _ _ _ R) as Hcap.
  pose proof (rep_cap_bound _ _ _ R) as Hcb.
  assert (Hx : 0 < x < capacity lst) by (apply (rep_act_range _ _ _ R); set_solver).
  assert (Hpr : 0 <= last0 l1 < capacity lst).
  { destruct (last0_cases l1) as [->|Hin]; [lia|].
    assert (0 < last0 l1 < capacity lst); [|lia].
    apply (rep_act_range _ _ _ R). set_solver. }
  assert (Hnr : 0 <= hd0 l2 < capacity lst).
  { destruct (hd0_cases l2) as [->|Hin]; [lia|].
    assert (0 < hd0 l2 < capacity lst); [|lia].
    apply (rep_act_range _ _ _ R). set_solver. }
  open_rep R.
  destruct lst as [d0 ns0 ps0 es sz cap ff hd tl nm]. simpl in *. subst d0 ns0 ps0.
  assert (Hffhd : ff = hd0 fr).
  { destruct fr; [|done]. destruct Hff as [?|[? ?]]; [done|lia]. }
  apply NoDup_cons in Hnd as [H0 Hnd]. apply NoDup_app in Hnd as (Hnda & Hdisj & _).
  assert (Hnd0 : NoDup (0 :: l1 ++ x :: l2)) by (apply NoDup_cons; set_solver).
  assert (Hhd : (x =? hd) = bool_decide (l1 = []))
    by (rewrite Hhead; by apply eqb_hd0_split).
  assert (Htl : (x =? tl) = bool_decide (l2 = []))
    by (rewrite Htail; by apply eqb_last0_split).
  assert (Hn0 : (hd0 l2 =? 0) = bool_decide (l2 = []))
    by (apply hd0_eqb_0; set_solver).
  exists (mkList (Some d) (Some (upd (upd ns (last0 l1) (hd0 l2)) x ff))
                 (Some (upd (upd ps (hd0 l2) (last0 l1)) x x))
                 es (sz - 1) cap x (hd0 (l1 ++ l2)) (last0 (l1 ++ l2))
                 (nm && bool_decide (l2 = []))).
  split; [|split; [|split; [|split; [|split]]]]; try done.
  - unfold list_erase. rewrite Hassert, Hcheck. cbn.
    destruct (Z.eqb_spec x 0); [done|].
    rewrite Hnext, Hprev. cbn.
    unfold next_put, prev_put. cbn.
    rewrite wr_Ok by lia. cbn. rewrite wr_Ok by lia. cbn.
    rewrite wr_Ok by (rewrite length_upd; lia). cbn.
    rewrite wr_Ok by (rewrite length_upd; lia). cbn.
    assert (Hsz : wrap (sz - 1) = sz - 1) by (apply wrap_small; lia).
    assert (Hhd' : (if bool_decide (l1 = []) then hd0 l2 else hd) = hd0 (l1 ++ l2)).
    { destruct (decide (l1 = [])) as [E|E].
      - rewrite bool_decide_eq_true_2 by done. by subst l1.
      - rewrite bool_decide_eq_false_2 by done.
        by rewrite Hhead, !hd0_app_nonempty. }
    assert (Htl' : (if bool_decide (l2 = []) then last0 l1 else tl) = last0 (l1 ++ l2)).
    { destruct (decide (l2 = [])) as [E|E].
      - rewrite bool_decide_eq_true_2 by done. subst l2. by rewrite app_nil_r.
      - rewrite bool_decide_eq_false_2 by done.
        rewrite Htail, last0_app_cons, last0_cons_nonempty, last0_app_nonempty; done. }
    rewrite Hhd. destruct (bool_decide (l1 = [])) eqn:E1; cbn;
      rewrite Htl, Hn0; destruct (bool_decide (l2 = [])) eqn:E2; cbn;
      rewrite <- Hhd', <- Htl', Hsz, ?andb_true_r, ?andb_false_r; reflexivity.
  - assert (Hperm : 0 :: (l1 ++ l2) ++ x :: fr ≡ₚ 0 :: (l1 ++ x :: l2) ++ fr).
    { f_equiv. rewrite <- !app_assoc. f_equiv. simpl.
      by rewrite <- Permutation_middle. }
    assert (Hprfr : (last0 l1 ∉ fr) /\ (hd0 l2 ∉ fr) /\ (x ∉ fr)).
    { split; [|split].
      - destruct (last0_cases l1) as [->|?]; [set_solver|]. apply Hdisj. set_solver.
      - destruct (hd0_cases l2) as [->|?]; [set_solver|]. apply Hdisj. set_solver.
      - apply Hdisj. set_solver. }
    destruct Hprfr as (Hprfr & Hnxfr & Hxfr).
    constructor; cbn; try done.
    + exists d, (upd (upd ns (last0 l1) (hd0 l2)) x ff),
        (upd (upd ps (hd0 l2) (last0 l1)) x x).
      rewrite !length_upd. repeat split; try done.
      * rewrite <- app_assoc. apply linked_remove.
        -- done.
        -- by rewrite <- app_assoc in Hact.
      * rewrite reverse_app, <- app_assoc.
        rewrite <- (last0_reverse l2), <- (hd0_reverse l1).
        apply linked_remove.
        -- apply NoDup_cons in Hnd0 as [Hz Hnd0]. apply NoDup_cons. split.
           ++ by rewrite <- reverse_middle, elem_of_reverse.
           ++ by rewrite <- reverse_middle, reverse_Permutation.
        -- by rewrite reverse_middle, <- app_assoc in Hrev.
      * destruct (cons_hd0 fr) as [V HV]. simpl. rewrite HV. split.
        -- rewrite Hffhd. apply sel_upd_eq. rewrite length_upd. lia.
        -- rewrite <- HV. by do 2 (apply linked_upd_other; [lia|done|]).
      * apply Forall_cons. split.
        -- apply sel_upd_eq. rewrite length_upd. lia.
        -- rewrite Forall_forall in Hself. apply Forall_forall. intros f Hf.
           rewrite !sel_upd_ne; [by apply Hself| |lia| |lia].
           ++ by intros <-.
           ++ by intros <-.
    + by rewrite Hperm.
    + rewrite length_app in *. simpl in Hsize. lia.
Qed.

Lemma linked_junction a u v :
  linked a (0 :: u ++ v ++ [0]) -> sel a (last0 u) = Some (hd0 v).
Proof.
  intros Hl. destruct (snoc_last0 u) as [U HU]. destruct (cons_hd0 v) as [V HV].
  change (0 :: u ++ v ++ [0]) with ((0 :: u) ++ v ++ [0]) in Hl.
  rewrite HU, HV, <- app_assoc in Hl. simpl in Hl.
  by apply linked_app in Hl as [_ [H1 _]].
Qed.

Lemma check_iterator_last0 lst l1 l2 fr :
  Rep lst (l1 ++ l2) fr -> list_check_iterator lst (last0 l1) = Ok true.
Proof.
  intros R. destruct l1 as [|y l1 _] using rev_ind; [done|].
  rewrite last0_snoc. rewrite <- app_assoc in R. simpl in R.
  by destruct (check_iterator_active _ _ _ l1 y l2 R eq_refl) as [? _].
Qed.

Section Bytes.
Context {A : Type}.
Implicit Types (l src : list A).

Lemma cells_Ok l off n :
  0 <= off -> 0 <= n -> off + n <= Z.of_nat (length l) ->
  cells (Some l) off n = Ok (take (Z.to_nat n) (drop (Z.to_nat off) l)).
Proof.
  intros H1 H2 H3. unfold cells.
  destruct (Z.leb_spec 0 off); [|lia]. destruct (Z.leb_spec 0 n); [|lia].
  destruct (Z.leb_spec (off + n) (Z.of_nat (length l))); [done|lia].
Qed.

Lemma cells_length a off n l : cells a off n = Ok l -> Z.of_nat (length l) = n.
Proof.
  unfold cells. destruct a as [l0|]; [|done].
  destruct (Z.leb_spec 0 off); [|done]. destruct (Z.leb_spec 0 n); [|done].
  destruct (Z.leb_spec (off + n) (Z.of_nat (length l0))); [|done].
  cbn. intros [= <-]. rewrite length_take, length_drop. lia.
Qed.

Lemma blit_Ok l off src :
  0 <= off -> off + Z.of_nat (length src) <= Z.of_nat (length l) ->
  blit (Some l) off src
  = Ok (Some (take (Z.to_nat off) l ++ src ++ drop (Z.to_nat off + length src) l)).
Proof.
  intros H1 H2. unfold blit.
  destruct (Z.leb_spec 0 off); [|lia].
  destruct (Z.leb_spec (off + Z.of_nat (length src)) (Z.of_nat (length l))); [done|lia].
Qed.

Lemma blit_length l off src l' :
  blit (Some l) off src = Ok (Some l') -> length l' = length l.
Proof.
  unfold blit.
  destruct (Z.leb_spec 0 off); [|done].
  destruct (Z.leb_spec (off + Z.of_nat (length src)) (Z.of_nat (length l))); [|done].
  cbn. intros [= <-]. rewrite !length_app, length_take, length_drop. lia.
Qed.

End Bytes.

Lemma list_insert_after_room ndebug lst l1 l2 p fr v h :
  Rep lst (l1 ++ l2) (p :: fr) ->
  elem_size lst <= Z.of_nat (length v) ->
  exists lst',
    list_insert_after ndebug lst (last0 l1) v h = Ok ((LIST_NO_ERR, lst'), h) /\
    Rep lst' (l1 ++ p :: l2) fr /\
    normalized lst' = normalized lst && bool_decide (l2 = []) /\
    elem_size lst' = elem_size lst /\
    capacity lst' = capacity lst /\
    blit (data lst) (p * elem_size lst) (take (Z.to_nat (elem_size lst)) v)
    = Ok (data lst').
Proof.
  intros R Hv.
  pose proof (assert_verified_ok ndebug _ _ _ R) as Hassert.
  pose proof (check_iterator_last0 _ _ _ _ R) as Hcheck.
  pose proof (rep_NoDup _ _ _ R) as Hnd.
  pose proof (rep_capacity _ _ _ R) as Hcap.
  pose proof (rep_cap_bound _ _ _ R) as Hcb.
  assert (Hp : 0 < p < capacity lst) by (apply (rep_free_range _ _ _ R); set_solver).
  assert (Hit : 0 <= last0 l1 < capacity lst).
  { destruct (last0_cases l1) as [->|Hin]; [lia|].
    assert (0 < last0 l1 < capacity lst); [|lia].
    apply (rep_act_range _ _ _ R). set_solver. }
  assert (Hnx : 0 <= hd0 l2 < capacity lst).
  { destruct (hd0_cases l2) as [->|Hin]; [lia|].
    assert (0 < hd0 l2 < capacity lst); [|lia].
    apply (rep_act_range _ _ _ R). set_solver. }
  open_rep R.
  destruct lst as [d0 ns0 ps0 es sz cap ff hd tl nm]. cbn in *. subst d0 ns0 ps0 ff.
  apply NoDup_cons in Hnd as [H0 Hnd]. apply NoDup_app in Hnd as (Hnda & Hdisj & Hndf).
  assert (Hnd0 : NoDup (0 :: l1 ++ l2)) by (apply NoDup_cons; set_solver).
  assert (Hpfresh : p ∉ 0 :: l1 ++ l2).
  { intros [->|Hin]%elem_of_cons; [lia|]. apply (Hdisj _ Hin). set_solver. }
  rewrite <- app_assoc in Hact.
  apply linked_junction in Hact as Hjn.
  rewrite reverse_app, <- app_assoc in Hrev.
  apply linked_junction in Hrev as Hjp. rewrite last0_reverse, hd0_reverse in Hjp.
  apply Forall_cons in Hself as [Hsp Hself].
  destruct (cons_hd0 fr) as [V HV].
  simpl in Hfree. rewrite HV in Hfree. destruct Hfree as [Hpn Hfree]. rewrite <- HV in Hfree.
  set (it := last0 l1) in *. set (nx := hd0 l2) in *.
  assert (Hpit : p <> it) by (intros ->; apply Hpfresh; destruct (last0_cases l1); set_solver).
  assert (Hpnx : p <> nx) by (intros ->; apply Hpfresh; destruct (hd0_cases l2); set_solver).
  assert (Hsz : wrap (sz + 1) = sz + 1) by (apply wrap_small; simpl in Hcap; lia).
  assert (Hn0 : (nx =? 0) = bool_decide (l2 = [])) by (apply hd0_eqb_0; set_solver).
  assert (Hi0 : (it =? 0) = bool_decide (l1 = [])).
  { unfold it. rewrite <- hd0_reverse.
    rewrite (hd0_eqb_0 (reverse l1)) by (rewrite elem_of_reverse; set_solver).
    apply bool_decide_ext. split; [|by intros ->].
    intros E. by rewrite <- (reverse_involutive l1), E. }
  set (d' := take (Z.to_nat (p * es)) d ++ take (Z.to_nat es) v
               ++ drop (Z.to_nat (p * es) + length (take (Z.to_nat es) v)) d).
  exists (mkList (Some d') (Some (upd (upd ns p nx) it p))
                 (Some (upd (upd ps p it) nx p))
                 es (sz + 1) cap (hd0 fr) (hd0 (l1 ++ p :: l2)) (last0 (l1 ++ p :: l2))
                 (nm && bool_decide (l2 = []))).
  assert (Hlv : Z.of_nat (length (take (Z.to_nat es) v)) = es)
    by (rewrite length_take; lia).
  split; [|split; [|split; [|split; [|split]]]]; try done.
  3:{ cbn. rewrite blit_Ok by nia. done. }
  - unfold list_insert_after, list_remove_first_free, mbind, lift, mret.
    rewrite Hassert, Hcheck. cbn.
    destruct (Z.eqb_spec sz cap) as [E|_]; [simpl in Hcap; lia|]. cbn.
    unfold next_at at 1. cbn. apply rd_Ok in Hpn. rewrite Hpn. cbn.
    unfold elem_put. cbn. rewrite cells_Ok by lia. cbn. rewrite drop_0.
    rewrite blit_Ok by nia. fold d'. cbn.
    unfold next_at at 1. cbn. apply rd_Ok in Hjn. rewrite Hjn. cbn.
    unfold next_put at 1. cbn. rewrite wr_Ok by lia. cbn.
    unfold next_put at 1. cbn. rewrite wr_Ok by (rewrite length_upd; lia). cbn.
    unfold prev_put at 1. cbn. rewrite wr_Ok by lia. cbn.
    assert (Hrp : rd (Some (upd (upd ns p nx) it p)) p = Ok nx).
    { apply rd_Ok. rewrite sel_upd_ne by lia. apply sel_upd_eq. lia. }
    unfold next_at at 1. cbn. rewrite Hrp. cbn.
    unfold prev_put at 1. cbn. rewrite wr_Ok by (rewrite length_upd; lia). cbn.
    unfold next_at at 1. cbn. rewrite Hrp. cbn.
    rewrite Hn0.
    assert (Hpp : rd (Some (upd (upd ps p it) nx p)) p = Ok it).
    { apply rd_Ok. rewrite sel_upd_ne by lia. apply sel_upd_eq. lia. }
    assert (Hhd' : (if bool_decide (l1 = []) then p else hd) = hd0 (l1 ++ p :: l2)).
    { destruct (decide (l1 = [])) as [E|E].
      - rewrite bool_decide_eq_true_2 by done. by subst l1.
      - rewrite bool_decide_eq_false_2 by done.
        by rewrite Hhead, !hd0_app_nonempty. }
    assert (Htl' : (if bool_decide (l2 = []) then p else tl) = last0 (l1 ++ p :: l2)).
    { rewrite last0_app_cons. destruct (decide (l2 = [])) as [E|E].
      - rewrite bool_decide_eq_true_2 by done. by subst l2.
      - rewrite bool_decide_eq_false_2 by done.
        rewrite Htail, last0_cons_nonempty, last0_app_nonempty; done. }
    rewrite <- Hhd', <- Htl'.
    destruct (bool_decide (l2 = [])); cbn; unfold prev_at; cbn; rewrite Hpp; cbn;
      rewrite Hi0; destruct (bool_decide (l1 = [])); cbn;
      rewrite Hsz, ?andb_true_r, ?andb_false_r; reflexivity.
  - assert (Hitfr : it ∉ fr).
    { unfold it. destruct (last0_cases l1) as [->|?]; [set_solver|].
      intros Hin. eapply Hdisj; [|by apply elem_of_cons; right]. set_solver. }
    assert (Hnxfr : nx ∉ fr).
    { unfold nx. destruct (hd0_cases l2) as [->|?]; [set_solver|].
      intros Hin. eapply Hdisj; [|by apply elem_of_cons; right]. set_solver. }
    apply NoDup_cons in Hndf as [Hpfr Hndf].
    constructor; cbn; try done.
    + exists d', (upd (upd ns p nx) it p), (upd (upd ps p it) nx p).
      rewrite !length_upd. repeat split; try done.
      * unfold d'. rewrite !length_app, length_take, length_drop, length_take. nia.
      * rewrite <- app_assoc. apply linked_insert; (done || lia).
      * rewrite reverse_middle, <- app_assoc.
        unfold it, nx. rewrite <- (last0_reverse l2), <- (hd0_reverse l1).
        apply NoDup_cons in Hnd0 as [Hz Hnd0].
        apply linked_insert; try (done || lia).
        -- apply NoDup_cons. split.
           ++ by rewrite <- reverse_app, elem_of_reverse.
           ++ by rewrite <- reverse_app, reverse_Permutation.
        -- intros [?|Hin]%elem_of_cons; [lia|].
           rewrite <- reverse_app, elem_of_reverse in Hin. set_solver.
      * by do 2 (apply linked_upd_other; [lia|done|]).
      * rewrite Forall_forall in Hself. apply Forall_forall. intros f Hf.
        rewrite !sel_upd_ne; [by apply Hself| |lia| |lia].
        -- by intros <-.
        -- by intros <-.
    + rewrite <- Hslots. f_equiv. rewrite <- !app_assoc. f_equiv. simpl.
      by rewrite <- Permutation_middle.
    + rewrite length_app in *. simpl. lia.
    + destruct fr as [|f fr']; [by left|done].
Qed.

(** The loops that thread fresh slots into a free chain *)

Lemma free_slots_loop m n lo lst ns ps :
  nexts lst = Some ns -> prevs lst = Some ps ->
  0 <= lo -> lo + Z.of_nat n <= Z.of_nat (length ns) ->
  Z.of_nat (length ns) = Z.of_nat (length ps) ->
  Z.of_nat (length ns) < SIZE_MODULUS ->
  exists ns' ps',
    for_range n lo (free_slot_step m) lst
    = Ok (set_prevs (set_nexts lst (Some ns')) (Some ps')) /\
    length ns' = length ns /\ length ps' = length ps /\
    (forall i, lo <= i < lo + Z.of_nat n ->
               sel ns' i = Some ((i + 1) mod m) /\ sel ps' i = Some i) /\
    (forall i, ~ lo <= i < lo + Z.of_nat n ->
               sel ns' i = sel ns i /\ sel ps' i = sel ps i).
Proof.
  revert lo lst ns ps. induction n as [|n IH]; intros lo lst ns ps Hns Hps Hlo Hhi Hlen Hbound.
  - exists ns, ps. cbn. repeat split; try done; try lia.
    destruct lst; cbn in *. by subst.
  - cbn. unfold free_slot_step at 1. unfold next_put, prev_put. rewrite Hns.
    rewrite wr_Ok by lia. cbn. rewrite Hps. rewrite wr_Ok by lia. cbn.
    rewrite (wrap_small (lo + 1)) by lia.
    edestruct (IH (lo + 1)
                 {| data := data lst; nexts := Some (upd ns lo ((lo + 1) mod m));
                    prevs := Some (upd ps lo lo); elem_size := elem_size lst;
                    size := size lst; capacity := capacity lst;
                    first_free := first_free lst; head := head lst;
                    tail := tail lst; normalized := normalized lst |})
      as (ns' & ps' & Hrun & Hl1 & Hl2 & Hin & Hout); try reflexivity.
    + lia.
    + rewrite length_upd. lia.
    + rewrite !length_upd. lia.
    + rewrite length_upd. lia.
    + exists ns', ps'. rewrite Hrun. cbn. rewrite length_upd in Hl1, Hl2.
      repeat split; try done.
      * destruct (decide (i = lo)) as [->|Hne].
        -- destruct (Hout lo) as [-> _]; [lia|]. apply sel_upd_eq. lia.
        -- apply Hin. lia.
      * destruct (decide (i = lo)) as [->|Hne].
        -- destruct (Hout lo) as [_ ->]; [lia|]. apply sel_upd_eq. lia.
        -- apply Hin. lia.
      * destruct (Hout i) as [-> _]; [lia|]. apply sel_upd_ne; lia.
      * destruct (Hout i) as [_ ->]; [lia|]. apply sel_upd_ne; lia.
Qed.

Lemma linked_seqZ a m lo n :
  0 <= lo -> lo + Z.of_nat n = m -> 
  (forall i, lo <= i < m -> sel a i = Some ((i + 1) mod m)) ->
  linked a (seqZ lo (Z.of_nat n) ++ [0]).
Proof.
  revert lo. induction n as [|n IH]; intros lo Hlo Hm Hsel; [done|].
  rewrite Nat2Z.inj_succ, seqZ_cons by lia. simpl.
  replace (Z.pred (Z.succ (Z.of_nat n))) with (Z.of_nat n) by lia.
  specialize (IH (Z.succ lo)).
  destruct n as [|n'].
  - simpl. split; [|done]. rewrite Hsel by lia.
    replace (lo + 1) with m by lia. by rewrite Z.mod_same by lia.
  - rewrite Nat2Z.inj_succ, seqZ_cons in IH |- * by lia. simpl in *. split.
    + rewrite Hsel by lia. f_equal. apply Z.mod_small. lia.
    + apply IH; [lia|lia|]. intros i Hi. apply Hsel. lia.
Qed.

Lemma calloc_inv {A : Type} (zero : A) count width h r h' :
  calloc zero count width h = Ok (r, h') ->
  (r = None /\ live h' = live h) \/
  (r = Some (replicate (Z.to_nat count) zero) /\ count * width < SIZE_MODULUS
   /\ live h' = live h + 1).
Proof.
  unfold calloc.
  destruct (match supply h with [] => true | b :: _ => b end); cbn.
  - destruct (Z.ltb_spec (count * width) SIZE_MODULUS); intros [= <- <-]; cbn; auto.
  - intros [= <- <-]; cbn; auto.
Qed.

Lemma calloc_total {A : Type} (zero : A) count width h :
  exists r h', calloc zero count width h = Ok (r, h').
Proof.
  unfold calloc.
  destruct (_ && _); eauto.
Qed.

Lemma list_create_rep sc es h lst h' :
  0 <= sc < SIZE_MODULUS -> 0 <= es < SIZE_MODULUS ->
  list_create_func_ sc es h = Ok (Some lst, h') ->
  Rep lst [] (seqZ 1 (capacity lst - 1)) /\
  capacity lst = wrap (sc + 1) /\ elem_size lst = es /\
  size lst = 1 /\ normalized lst = true.
Proof.
  intros Hsc Hes. unfold list_create_func_.
  destruct (Z.eqb_spec es 0) as [|Hes0]; [done|].
  unfold mbind at 1.
  destruct (calloc_total () 1 SIZEOF_LIST h) as (blk & h1 & E1). rewrite E1.
  destruct blk as [blk|]; [|done]. cbn [is_null].
  set (cap := wrap (sc + 1)).
  unfold mbind at 1.
  destruct (calloc_total x00 (cap * es) 1 h1) as (d & h2 & E2). rewrite E2.
  unfold mbind at 1.
  destruct (calloc_total 0 cap SIZEOF_SIZE_T h2) as (ns & h3 & E3). rewrite E3.
  unfold mbind at 1.
  destruct (calloc_total 0 cap SIZEOF_SIZE_T h3) as (ps & h4 & E4). rewrite E4.
  destruct d as [d|], ns as [ns|], ps as [ps|]; cbn [is_null orb];
    try (unfold list_destroy, mbind, free, mret; cbn; congruence).
  apply calloc_inv in E2 as [[? _]|([= ->] & Hb2 & _)]; [done|].
  apply calloc_inv in E3 as [[? _]|([= ->] & Hb3 & _)]; [done|].
  apply calloc_inv in E4 as [[? _]|([= ->] & Hb4 & _)]; [done|].
  assert (Hcap0 : 0 <= cap < SIZE_MODULUS) by (apply Z.mod_pos_bound; done).
  unfold mbind, lift, mret.
  destruct (list_create_init _ _ _ _ _) as [l| | |] eqn:Einit; try done.
  intros [= -> ->].
  unfold list_create_init in Einit.
  unfold next_put at 1 in Einit. cbn in Einit.
  destruct (decide (cap = 0)) as [Hz|Hnz].
  { rewrite Hz in Einit. done. }
  rewrite wr_Ok in Einit by (rewrite length_replicate; lia). cbn in Einit.
  unfold prev_put at 1 in Einit. cbn in Einit.
  rewrite wr_Ok in Einit by (rewrite length_replicate; lia). cbn in Einit.
  edestruct (free_slots_loop cap (Z.to_nat (cap - 1)) 1) as
      (ns' & ps' & Hrun & Hl1 & Hl2 & Hin & Hout);
    [| | | | | | rewrite Hrun in Einit]; try reflexivity; cbn.
  - lia.
  - rewrite length_upd, length_replicate. lia.
  - rewrite length_upd, length_replicate. lia.
  - cbn in Einit. injection Einit as <-. cbn.
    rewrite length_upd, length_replicate in Hl1, Hl2.
    refine (conj _ (conj eq_refl (conj eq_refl (conj eq_refl eq_refl)))).
    constructor; cbn; try done; try lia.
    + assert (Hn0 : sel ns' 0 = Some 0).
      { destruct (Hout 0) as [-> _]; [lia|].
        apply sel_upd_eq. rewrite length_replicate. lia. }
      assert (Hp0 : sel ps' 0 = Some 0).
      { destruct (Hout 0) as [_ ->]; [lia|].
        apply sel_upd_eq. rewrite length_replicate. lia. }
      eexists _, ns', ps'. split; [done|]. split; [done|]. split; [done|].
      rewrite length_replicate, Hl1, Hl2.
      split; [lia|]. split; [lia|]. split; [lia|].
      split; [by simpl|]. split; [by simpl|]. split.
      * replace (cap - 1) with (Z.of_nat (Z.to_nat (cap - 1))) by lia.
        apply (linked_seqZ _ cap); [lia|lia|].
        intros i Hi. apply Hin. lia.
      * apply Forall_forall. intros f Hf%elem_of_seqZ. apply Hin. lia.
    + replace (0 :: seqZ 1 (cap - 1)) with (seqZ 0 cap); [done|].
      rewrite (seqZ_cons 0 cap) by lia. do 2 f_equal; lia.
    + destruct (seqZ 1 (cap - 1)) as [|f l] eqn:E.
      * right. split; [|done]. apply (f_equal length) in E.
        rewrite length_seqZ in E. simpl in E. lia.
      * rewrite seqZ_cons in E by (destruct (decide (0 < cap - 1)); [done|]; rewrite seqZ_nil in E by lia; done). by injection E as <- _.
Qed.

Lemma cells_beyond {A : Type} (l : list A) off n :
  Z.of_nat (length l) < off + n -> cells (Some l) off n = Undef.
Proof.
  intros H. unfold cells.
  destruct (Z.leb_spec (off + n) (Z.of_nat (length l))); [lia|].
  by rewrite andb_false_r.
Qed.

Lemma mbind_lift_Ok {A B : Type} (a : A) (k : A -> M B) h :
  mbind (lift (Ok a)) k h = k a h.
Proof. reflexivity. Qed.

Lemma mbind_mret {A B : Type} (a : A) (k : A -> M B) h :
  mbind (mret a) k h = k a h.
Proof. reflexivity. Qed.

Lemma mbind_Ok {A B : Type} (m : M A) (k : A -> M B) h a h' :
  m h = Ok (a, h') -> mbind m k h = k a h'.
Proof. intros E. unfold mbind. by rewrite E. Qed.

Lemma mbind_lift_Undef {A B : Type} (k : A -> M B) h :
  mbind (lift Undef) k h = Undef.
Proof. reflexivity. Qed.

(** Growing a valid list: either an allocation is refused and the list is
    left as it was, or the first [memcpy] reads [new_capacity * elem_size]
    bytes out of the old payload block, which holds only
    [capacity * elem_size]. *)
Lemma list_change_capacity_grow ndebug lst act fr n h :
  Rep lst act fr -> capacity lst < wrap (n + 1) ->
  list_change_capacity ndebug lst n h = Undef \/
  exists h', list_change_capacity ndebug lst n h = Ok ((LIST_ALLOC_ERR, lst), h')
             /\ live h' = live h.
Proof.
  intros R Hgrow.
  pose proof (assert_verified_ok ndebug _ _ _ R) as Hassert.
  pose proof (rep_capacity_size _ _ _ R) as Hcs.
  destruct R as [(d & ns & ps & Hd & Hns & Hps & Hld & Hlns & Hlps & _) Hes _ _ _ _ _ _].
  unfold list_change_capacity.
  rewrite Hassert, mbind_lift_Ok. cbv zeta.
  set (new_capacity := wrap (n + 1)) in *.
  destruct (Z.ltb_spec new_capacity (size lst)); [lia|].
  destruct (Z.ltb_spec new_capacity (capacity lst)); [lia|].
  rewrite mbind_lift_Ok.
  destruct (calloc_total x00 (new_capacity * elem_size lst) 1 h) as (nd & h1 & E1).
  destruct (calloc_total 0 new_capacity SIZEOF_SIZE_T h1) as (nn & h2 & E2).
  destruct (calloc_total 0 new_capacity SIZEOF_SIZE_T h2) as (np & h3 & E3).
  rewrite (mbind_Ok _ _ _ _ _ E1), (mbind_Ok _ _ _ _ _ E2), (mbind_Ok _ _ _ _ _ E3).
  apply calloc_inv in E1, E2, E3.
  destruct (is_null nd || is_null nn || is_null np) eqn:Enull.
  - right. unfold mbind, free, mret.
    destruct E1 as [[-> L1]|(-> & _ & L1)], E2 as [[-> L2]|(-> & _ & L2)],
             E3 as [[-> L3]|(-> & _ & L3)]; try done;
      eexists; (split; [reflexivity|]); cbn; lia.
  - left. destruct nd as [nd|]; [|done].
    unfold memcpy at 1.
    rewrite Hd, cells_beyond; [done|]. nia.
Qed.

(** Taking a slot from a full valid list goes through that growth, so it
    never reports success. *)
Lemma list_remove_first_free_full ndebug lst act fr h r h' :
  Rep lst act fr -> size lst = capacity lst ->
  list_remove_first_free ndebug lst h = Ok (r, h') ->
  fst (fst r) <> LIST_NO_ERR.
Proof.
  intros R Hfull. unfold list_remove_first_free.
  rewrite Hfull, Z.eqb_refl. unfold mbind at 1.
  pose proof (rep_cap_bound _ _ _ R) as Hcb.
  pose proof (rep_bytes _ _ _ R) as Hbytes.
  pose proof (rep_capacity _ _ _ R) as Hcap.
  assert (Hgrow : capacity lst < wrap (wrap (capacity lst * CAPACITY_COEFF) + 1)).
  { unfold CAPACITY_COEFF, SIZEOF_SIZE_T in *.
    rewrite (wrap_small (capacity lst * 2)) by lia.
    rewrite wrap_small by lia. lia. }
  destruct (list_change_capacity_grow ndebug _ _ _ _ h R Hgrow) as [->|(h1 & -> & _)];
    [done|].
  cbn. by intros [= <- <-].
Qed.

Lemma check_iterator_free lst act fr f :
  Rep lst act fr -> f ∈ fr -> list_check_iterator lst f = Ok false.
Proof.
  intros R Hf.
  pose proof (rep_free_range _ _ _ R f Hf) as Hr.
  destruct R as [(d & ns & ps & Hd & Hns & Hps & Hld & Hlns & Hlps & _ & _ & _ & Hself) _ _ _ _ _ _ _].
  rewrite Forall_forall in Hself. specialize (Hself f Hf). apply rd_Ok in Hself.
  unfold list_check_iterator, prev_at.
  destruct (Z.eqb_spec f 0); [lia|]. destruct (Z.ltb_spec f (capacity lst)); [|lia].
  rewrite Hps, Hself. cbn. by rewrite Z.eqb_refl.
Qed.

Lemma check_iterator_beyond lst it :
  capacity lst <= it -> it <> 0 -> list_check_iterator lst it = Ok false.
Proof.
  intros Hit Hnz. unfold list_check_iterator.
  destruct (Z.eqb_spec it 0); [lia|]. by destruct (Z.ltb_spec it (capacity lst)); [lia|].
Qed.

Lemma check_iterator_true_inv lst act fr it :
  Rep lst act fr -> list_check_iterator lst it = Ok true -> it = 0 \/ it ∈ act.
Proof.
  intros R Hc. destruct (decide (it = 0)) as [|Hnz]; [by left|right].
  destruct (decide (capacity lst <= it)) as [Hge|Hlt].
  { by rewrite check_iterator_beyond in Hc. }
  destruct (decide (it < 0)) as [Hneg|Hpos].
  { unfold list_check_iterator, prev_at in Hc.
    destruct (Z.eqb_spec it 0); [lia|]. destruct (Z.ltb_spec it (capacity lst)); [|lia].
    destruct R as [(d & ns & ps & Hd & Hns & Hps & _) _ _ _ _ _ _ _].
    rewrite Hps in Hc. unfold rd, sel in Hc.
    destruct (Z.ltb_spec it 0); [done|lia]. }
  assert (Hin : it ∈ 0 :: act ++ fr) by (apply (rep_elem_of _ _ _ R); lia).
  apply elem_of_cons in Hin as [?|Hin]; [done|].
  apply elem_of_app in Hin as [?|Hin]; [done|].
  by rewrite (check_iterator_free _ _ _ _ R Hin) in Hc.
Qed.

Lemma last0_split_of (act : list Z) it :
  it = 0 \/ it ∈ act -> 0 ∉ act ->
  exists l1 l2, act = l1 ++ l2 /\ it = last0 l1.
Proof.
  intros [->|Hin] H0.
  - by exists [], act.
  - apply list_elem_of_split in Hin as (l1 & l2 & ->).
    exists (l1 ++ [it]), l2. rewrite <- app_assoc. split; [done|].
    by rewrite last0_snoc.
Qed.

Lemma list_insert_after_short ndebug lst l1 l2 p fr v h :
  Rep lst (l1 ++ l2) (p :: fr) ->
  Z.of_nat (length v) < elem_size lst ->
  list_insert_after ndebug lst (last0 l1) v h = Undef.
Proof.
  intros R Hv.
  pose proof (assert_verified_ok ndebug _ _ _ R) as Hassert.
  pose proof (check_iterator_last0 _ _ _ _ R) as Hcheck.
  pose proof (rep_capacity_size _ _ _ R) as Hcs.
  open_rep R.
  destruct (cons_hd0 fr) as [V HV].
  simpl in Hfree. rewrite HV in Hfree. destruct Hfree as [Hpn _].
  unfold list_insert_after, list_remove_first_free, mbind, lift, mret.
  rewrite Hassert, Hcheck. cbn.
  destruct (Z.eqb_spec (size lst) (capacity lst)) as [E|_]; [simpl in Hcs; lia|]. cbn.
  unfold next_at at 1. cbn. rewrite Hns, Hff. apply rd_Ok in Hpn. rewrite Hpn. cbn.
  unfold elem_put. cbn. rewrite cells_beyond; [done|lia].
Qed.

Lemma list_insert_after_inv ndebug lst act fr it v h lst' h' :
  Rep lst act fr ->
  list_insert_after ndebug lst it v h = Ok ((LIST_NO_ERR, lst'), h') ->
  exists l1 l2 p fr',
    act = l1 ++ l2 /\ it = last0 l1 /\ fr = p :: fr' /\ h' = h /\
    elem_size lst <= Z.of_nat (length v) /\
    Rep lst' (l1 ++ p :: l2) fr' /\
    normalized lst' = normalized lst && bool_decide (l2 = []) /\
    elem_size lst' = elem_size lst /\
    capacity lst' = capacity lst.
Proof.
  intros R Hrun.
  pose proof (assert_verified_ok ndebug _ _ _ R) as Hassert.
  pose proof (rep_NoDup _ _ _ R) as Hnd.
  pose proof (rep_capacity_size _ _ _ R) as Hcs.
  assert (Hcheck : list_check_iterator lst it = Ok true).
  { unfold list_insert_after in Hrun. rewrite Hassert, mbind_lift_Ok in Hrun.
    unfold mbind at 1 in Hrun. unfold lift at 1 in Hrun.
    destruct (list_check_iterator lst it) as [[|]| | |]; try done. }
  apply (check_iterator_true_inv _ _ _ _ R) in Hcheck as Hit.
  apply last0_split_of in Hit as (l1 & l2 & -> & ->);
    [|apply NoDup_cons in Hnd as [H0 _]; set_solver].
  destruct fr as [|p fr'].
  { exfalso. simpl in Hcs.
    unfold list_insert_after in Hrun. rewrite Hassert, mbind_lift_Ok in Hrun.
    rewrite Hcheck, mbind_lift_Ok in Hrun. cbn [negb] in Hrun.
    unfold mbind at 1 in Hrun.
    destruct (list_remove_first_free ndebug lst h) as [[r h1]| | |] eqn:E; try done.
    eapply (list_remove_first_free_full ndebug) in E; [|done|lia].
    destruct r as [[err l] i]. cbn in E.
    destruct err; try done; cbn in Hrun; by injection Hrun. }
  destruct (decide (elem_size lst <= Z.of_nat (length v))) as [Hv|Hv].
  2:{ rewrite (list_insert_after_short ndebug _ _ _ _ _ v h R) in Hrun by lia. done. }
  destruct (list_insert_after_room ndebug _ _ _ _ _ v h R Hv)
    as (lst2 & Hrun2 & R2 & Hnorm & Hes & Hcap & _).
  rewrite Hrun2 in Hrun. injection Hrun as -> ->.
  by exists l1, l2, p, fr'.
Qed.

Lemma list_erase_inv ndebug lst act fr it lst' it' :
  Rep lst act fr ->
  list_erase ndebug lst it = Ok (LIST_NO_ERR, lst', it') ->
  (it = 0 /\ lst' = lst /\ it' = 0) \/
  exists l1 l2,
    act = l1 ++ it :: l2 /\
    Rep lst' (l1 ++ l2) (it :: fr) /\
    it' = (if bool_decide (l2 = []) then last0 l1 else hd0 l2) /\
    normalized lst' = normalized lst && bool_decide (l2 = []).
Proof.
  intros R Hrun.
  pose proof (assert_verified_ok ndebug _ _ _ R) as Hassert.
  assert (Hcheck : list_check_iterator lst it = Ok true).
  { unfold list_erase in Hrun. rewrite Hassert in Hrun. cbn in Hrun.
    destruct (list_check_iterator lst it) as [[|]| | |]; try done. }
  destruct (decide (it = 0)) as [->|Hnz].
  { left. unfold list_erase in Hrun. rewrite Hassert, Hcheck in Hrun. cbn in Hrun.
    by injection Hrun as <- <-. }
  right. apply (check_iterator_true_inv _ _ _ _ R) in Hcheck as [?|Hin]; [done|].
  apply list_elem_of_split in Hin as (l1 & l2 & ->).
  destruct (list_erase_active ndebug _ _ _ _ _ R) as (lst2 & Hrun2 & R2 & Hnorm & _).
  rewrite Hrun2 in Hrun. injection Hrun as -> <-.
  by exists l1, l2.
Qed.

Lemma sel_Forall (P : Z -> Prop) (l : list Z) i v :
  Forall P l -> sel l i = Some v -> P v.
Proof.
  intros HF [_ Hl]%sel_Some. rewrite Forall_lookup in HF. eauto.
Qed.

Lemma upd_Forall (P : Z -> Prop) (l : list Z) i v :
  Forall P l -> P v -> Forall P (upd l i v).
Proof. intros. by apply Forall_insert. Qed.

Lemma linked_succ_in a l e x :
  linked a (l ++ [e]) -> x ∈ l -> exists y, sel a x = Some y /\ y ∈ l ++ [e].
Proof.
  induction l as [|z l IH]; [set_solver|].
  intros Hl Hx. simpl in Hl.
  destruct (l ++ [e]) as [|y t] eqn:E; [by destruct l|].
  destruct Hl as [Hz Hl].
  apply elem_of_cons in Hx as [->|Hx].
  - exists y. split; [done|]. simpl. rewrite E. set_solver.
  - destruct (IH Hl Hx) as (y' & Hy' & Hin). exists y'. split; [done|].
    simpl. rewrite E. set_solver.
Qed.

Lemma rep_bounded lst act fr :
  Rep lst act fr -> exists d ns ps, Bounded lst d ns ps.
Proof.
  intros R.
  pose proof (rep_capacity_size _ _ _ R) as Hcs.
  pose proof (rep_cap_bound _ _ _ R) as Hcb.
  pose proof (rep_elem_of _ _ _ R) as Hel.
  pose proof (rep_act_range _ _ _ R) as Har.
  pose proof (rep_free_range _ _ _ R) as Hfr.
  open_rep R.
  assert (Hrange : forall y, y ∈ (0 :: act) ++ [0] \/ y ∈ fr ++ [0] -> 0 <= y < capacity lst).
  { intros y. rewrite !elem_of_app, elem_of_cons, !list_elem_of_singleton.
    intros [[[->|?]| ->]|[?| ->]]; try lia.
    - apply Har in H. lia.
    - apply Hfr in H. lia. }
  exists d, ns, ps. constructor; try done; try lia.
  - apply Forall_lookup. intros i v Hi.
    apply lookup_lt_Some in Hi as Hlt.
    assert (Hin : Z.of_nat i ∈ 0 :: act ++ fr) by (apply Hel; lia).
    assert (Hs : sel ns (Z.of_nat i) = Some v) by (apply sel_Some; rewrite Nat2Z.id; split; [lia|done]).
    change (0 :: act ++ fr) with ((0 :: act) ++ fr) in Hin.
    apply elem_of_app in Hin as [Hin|Hin].
    + destruct (linked_succ_in ns (0 :: act) 0 _ Hact Hin) as (y & Hy & Hyin).
      rewrite Hs in Hy. injection Hy as ->. apply Hrange. by left.
    + destruct (linked_succ_in ns fr 0 _ Hfree Hin) as (y & Hy & Hyin).
      rewrite Hs in Hy. injection Hy as ->. apply Hrange. by right.
  - apply Forall_lookup. intros i v Hi.
    apply lookup_lt_Some in Hi as Hlt.
    assert (Hin : Z.of_nat i ∈ 0 :: act ++ fr) by (apply Hel; lia).
    assert (Hs : sel ps (Z.of_nat i) = Some v) by (apply sel_Some; rewrite Nat2Z.id; split; [lia|done]).
    change (0 :: act ++ fr) with ((0 :: act) ++ fr) in Hin.
    apply elem_of_app in Hin as [Hin|Hin].
    + assert (Hin' : Z.of_nat i ∈ 0 :: reverse act).
      { apply elem_of_cons in Hin as [?|?]; [set_solver|].
        apply elem_of_cons. right. by apply elem_of_reverse. }
      destruct (linked_succ_in ps (0 :: reverse act) 0 _ Hrev Hin') as (y & Hy & Hyin).
      rewrite Hs in Hy. injection Hy as ->. apply Hrange. left.
      simpl in Hyin. rewrite elem_of_cons, elem_of_app, elem_of_reverse in Hyin.
      set_solver.
    + rewrite Forall_forall in Hself. rewrite (Hself _ Hin) in Hs.
      injection Hs as <-. lia.
Qed.

Lemma same_scalars_refl a : same_scalars a a.
Proof. by repeat split. Qed.

Lemma same_scalars_trans a b c :
  same_scalars a b -> same_scalars b c -> same_scalars a c.
Proof.
  unfold same_scalars. intros (?&?&?&?&?&?&?) (?&?&?&?&?&?&?).
  repeat split; congruence.
Qed.

Lemma memcpy_within {A : Type} (d : list A) doff soff n :
  0 <= doff -> 0 <= soff -> 0 <= n ->
  doff + n <= Z.of_nat (length d) -> soff + n <= Z.of_nat (length d) ->
  exists d', memcpy (Some d) doff (Some d) soff n = Ok (Some d')
             /\ length d' = length d.
Proof.
  intros H1 H2 H3 H4 H5. unfold memcpy. rewrite cells_Ok by lia. cbn.
  assert (Hl : Z.of_nat (length (take (Z.to_nat n) (drop (Z.to_nat soff) d))) = n)
    by (rewrite length_take, length_drop; lia).
  rewrite blit_Ok by lia. eexists. split; [done|].
  rewrite !length_app, length_take, length_drop. lia.
Qed.

Lemma list_swap_vals_ok lst d ns ps i j :
  Bounded lst d ns ps ->
  0 <= i < capacity lst -> 0 <= j < capacity lst ->
  exists d', list_swap_vals lst i j = Ok (set_data lst (Some d'))
             /\ length d' = length d.
Proof.
  intros B Hi Hj. destruct B as [Hd _ _ Hld _ _ _ _ Hes _ _].
  unfold list_swap_vals. rewrite Hd.
  destruct (memcpy_within d 0 (i * elem_size lst) (elem_size lst))
    as (d1 & -> & L1); try nia. cbn.
  destruct (memcpy_within d1 (i * elem_size lst) (j * elem_size lst) (elem_size lst))
    as (d2 & -> & L2); try nia. cbn.
  destruct (memcpy_within d2 (j * elem_size lst) 0 (elem_size lst))
    as (d3 & -> & L3); try nia. cbn.
  exists d3. split; [done|]. congruence.
Qed.

Lemma normalize_step_ok lst d ns ps i it :
  Bounded lst d ns ps ->
  1 <= i < size lst -> 0 <= it < capacity lst ->
  exists lst' d' ns' ps' it',
    normalize_step i (lst, it) = Ok (lst', it') /\
    Bounded lst' d' ns' ps' /\ 0 <= it' < capacity lst /\
    same_scalars lst lst'.
Proof.
  intros B Hi Hit. pose proof B as [Hd Hns Hps Hld Hln Hlp Hnin Hpin Hes Hsz Hcb].
  assert (Hw1 : wrap (i + 1) = i + 1) by (apply wrap_small; lia).
  assert (Hw2 : wrap (i - 1) = i - 1) by (apply wrap_small; lia).
  assert (Hmod : 0 <= (i + 1) mod size lst < capacity lst).
  { pose proof (Z.mod_pos_bound (i + 1) (size lst)). lia. }
  destruct (sel_is_Some ns it) as [nit Hnit]; [lia|].
  destruct (sel_is_Some ns i) as [ni Hni]; [lia|].
  destruct (sel_is_Some ps i) as [pi Hpi]; [lia|].
  pose proof (sel_Forall _ _ _ _ Hnin Hnit) as Hnit_r.
  pose proof (sel_Forall _ _ _ _ Hnin Hni) as Hni_r.
  pose proof (sel_Forall _ _ _ _ Hpin Hpi) as Hpi_r.
  destruct lst as [d0 ns0 ps0 es sz cap ff hd tl nm]. cbn in *. subst d0 ns0 ps0.
  unfold normalize_step. destruct (Z.eqb_spec i it) as [->|Hne].
  - unfold next_at, next_put, prev_put. cbn.
    apply rd_Ok in Hnit. rewrite Hnit. cbn.
    rewrite wr_Ok by lia. cbn. rewrite wr_Ok by lia. cbn.
    rewrite Hw1, Hw2.
    eexists _, d, _, _, nit. split; [reflexivity|]. split; [|split; [done|]].
    + constructor; cbn; try done; try lia.
      * by rewrite length_upd.
      * by rewrite length_upd.
      * by apply upd_Forall.
      * apply upd_Forall; [done|lia].
    + by repeat split.
  - unfold next_at, next_put, prev_put, prev_at. cbn.
    apply rd_Ok in Hnit as Hnit'. rewrite Hnit'. cbn.
    apply rd_Ok in Hni as Hni'. rewrite Hni'. cbn.
    rewrite wr_Ok by lia. cbn.
    edestruct (list_swap_vals_ok
                 {| data := Some d; nexts := Some (upd ns it ni); prevs := Some ps;
                    elem_size := es; size := sz; capacity := cap; first_free := ff;
                    head := hd; tail := tl; normalized := nm |} d (upd ns it ni) ps i it)
      as (d' & Hswap & Ld'); [|cbn; lia|cbn; lia|].
    { constructor; cbn; try done; try lia.
      - by rewrite length_upd.
      - by apply upd_Forall. }
    rewrite Hswap. cbn.
    apply rd_Ok in Hpi as Hpi'. rewrite Hpi'. cbn.
    destruct (sel_is_Some (upd ns it ni) pi) as [t Ht]; [rewrite length_upd; lia|].
    assert (Ht_r : 0 <= t < cap).
    { eapply (sel_Forall (fun v => 0 <= v < cap)); [|exact Ht]. by apply upd_Forall. }
    apply rd_Ok in Ht as Ht'. rewrite Ht'. cbn.
    rewrite wr_Ok by (rewrite length_upd; lia). cbn.
    rewrite wr_Ok by lia. cbn.
    rewrite wr_Ok by (rewrite !length_upd; lia). cbn.
    rewrite Hw1, Hw2.
    eexists _, d', _, _, nit. split; [reflexivity|]. split; [|split; [done|]].
    + constructor; cbn; try done; try lia.
      * by rewrite !length_upd.
      * by rewrite length_upd.
      * apply upd_Forall; [|done]. apply upd_Forall; [by apply upd_Forall|].
        destruct (t >? i); lia.
      * apply upd_Forall; [done|lia].
    + by repeat split.
Qed.

Lemma normalize_loop_ok n : forall lst d ns ps i it,
  Bounded lst d ns ps ->
  1 <= i -> i + Z.of_nat n <= size lst -> 0 <= it < capacity lst ->
  exists lst' d' ns' ps' it',
    for_range n i normalize_step (lst, it) = Ok (lst', it') /\
    Bounded lst' d' ns' ps' /\ same_scalars lst lst'.
Proof.
  induction n as [|n IH]; intros lst d ns ps i it B Hi Hn Hit.
  - exists lst, d, ns, ps, it. cbn. split; [done|]. split; [done|].
    apply same_scalars_refl.
  - cbn [for_range].
    destruct (normalize_step_ok lst d ns ps i it B) as
      (lst1 & d1 & ns1 & ps1 & it1 & -> & B1 & Hit1 & S1); [lia|done|].
    cbn [obind]. pose proof S1 as (_ & Hsz1 & Hcap1 & _).
    pose proof (bd_size _ _ _ _ B). pose proof (bd_cap _ _ _ _ B).
    rewrite wrap_small by lia.
    destruct (IH lst1 d1 ns1 ps1 (i + 1) it1 B1) as
      (lst2 & d2 & ns2 & ps2 & it2 & -> & B2 & S2); [lia|lia|lia|].
    exists lst2, d2, ns2, ps2, it2. split; [done|]. split; [done|].
    by eapply same_scalars_trans.
Qed.

Lemma list_normalize_ok ndebug lst act fr :
  Rep lst act fr ->
  exists lst', list_normalize ndebug lst = Ok lst' /\
    capacity lst' = capacity lst /\ size lst' = size lst /\
    elem_size lst' = elem_size lst /\ normalized lst' = true.
Proof.
  intros R.
  pose proof (assert_verified_ok ndebug _ _ _ R) as Hassert.
  pose proof (rep_hd0_range _ _ _ R) as Hhd. rewrite <- (rep_head _ _ _ R) in Hhd.
  destruct (rep_bounded _ _ _ R) as (d & ns & ps & B).
  unfold list_normalize. rewrite Hassert. cbn [obind].
  destruct (normalized lst) eqn:En; [by exists lst|].
  destruct (Z.eqb_spec (size lst) 1); [by eexists|].
  pose proof (bd_size _ _ _ _ B) as Hsz. pose proof (bd_cap _ _ _ _ B) as Hcb.
  cbv zeta.
  destruct (normalize_loop_ok (Z.to_nat (size lst - 1))
              (set_normalized lst true) d ns ps 1 (head lst)) as
    (lst1 & d1 & ns1 & ps1 & it1 & Hloop & B1 & S1); try (cbn; lia).
  { destruct B. by constructor. }
  cbn [set_normalized size head] in *. rewrite Hloop. cbn [obind fst].
  destruct S1 as (Hes1 & Hsz1 & Hcap1 & Hff1 & Hhd1 & Htl1 & Hnm1). cbn in *.
  destruct B1 as [Hd1 Hns1 Hps1 Hld1 Hln1 Hlp1 Hnin1 Hpin1 Hes1' Hsz1' Hcb1].
  unfold next_put, prev_put. cbn. rewrite Hns1.
  rewrite wr_Ok by lia. cbn. rewrite Hps1. rewrite wr_Ok by lia. cbn.
  rewrite Hsz1, Hcap1.
  edestruct (free_slots_loop (capacity lst) (Z.to_nat (capacity lst - size lst))
               (size lst)) as (ns' & ps' & -> & _); try reflexivity; cbn.
  - lia.
  - rewrite length_upd. lia.
  - rewrite !length_upd. lia.
  - rewrite length_upd. lia.
  - eexists. split; [reflexivity|]. cbn. repeat split; congruence.
Qed.

Lemma calloc_eq {A : Type} (zero : A) count width h :
  calloc zero count width h
  = Ok (granted h count width zero,
        mkHeap (List.tl (supply h))
               (live h + (if is_null (granted h count width zero) then 0 else 1))).
Proof.
  unfold calloc, granted. destruct h as [[|b s] n]; cbn.
  - destruct (_ <? _); cbn; [done|]. by rewrite Z.add_0_r.
  - destruct b; cbn; [|by rewrite Z.add_0_r].
    destruct (_ <? _); cbn; [done|]. by rewrite Z.add_0_r.
Qed.

Lemma free_eq {A : Type} (p : option (list A)) h :
  free p h = Ok (tt, mkHeap (supply h) (live h - (if is_null p then 0 else 1))).
Proof.
  destruct p, h; cbn; [done|]. by rewrite Z.sub_0_r.
Qed.

Lemma lift_Ok_inv {A : Type} (m : outcome A) h a h' :
  lift m h = Ok (a, h') -> m = Ok a /\ h' = h.
Proof. unfold lift. destruct m; intros [=]; by subst. Qed.

Lemma mbind_lift_inv {A B : Type} (m : outcome A) (k : A -> M B) h r :
  mbind (lift m) k h = Ok r -> exists a, m = Ok a /\ k a h = Ok r.
Proof. unfold mbind, lift. destruct m; intros E; try done. eauto. Qed.

Lemma obind_Ok_inv {A B : Type} (m : outcome A) (k : A -> outcome B) r :
  obind m k = Ok r -> exists a, m = Ok a /\ k a = Ok r.
Proof. destruct m; intros E; try done. eauto. Qed.

Lemma perform_preserves ndebug o lst act fr h lst' h' :
  Rep lst act fr ->
  perform ndebug o lst h = Ok ((LIST_NO_ERR, lst'), h') ->
  exists act' fr', Rep lst' act' fr'.
Proof.
  intros R Hrun.
  pose proof (assert_verified_ok ndebug _ _ _ R) as Hassert.
  assert (Hins : forall it v, list_insert_after ndebug lst it v h = Ok ((LIST_NO_ERR, lst'), h') ->
                         exists act' fr', Rep lst' act' fr').
  { intros it v E.
    destruct (list_insert_after_inv _ _ _ _ _ _ _ _ _ R E)
      as (l1 & l2 & p & fr' & _ & _ & _ & _ & _ & R' & _). eauto. }
  assert (Hers : forall it r, list_erase ndebug lst it = Ok r -> fst r = (LIST_NO_ERR, lst') ->
                         exists act' fr', Rep lst' act' fr').
  { intros it [[e l] i] E [= -> ->].
    destruct (list_erase_inv _ _ _ _ _ _ _ R E) as [(_ & -> & _)|(l1 & l2 & _ & R' & _)]; eauto. }
  destruct o as [it v|it v|v|v|it|v|i]; cbn in Hrun.
  - eauto.
  - unfold list_insert_before in Hrun. rewrite Hassert, mbind_lift_Ok in Hrun.
    apply mbind_lift_inv in Hrun as (p & _ & Hrun). eauto.
  - unfold list_insert_to_head, list_insert_before in Hrun.
    rewrite Hassert, !mbind_lift_Ok in Hrun.
    apply mbind_lift_inv in Hrun as (p & _ & Hrun). eauto.
  - unfold list_insert_to_tail in Hrun. rewrite Hassert, mbind_lift_Ok in Hrun. eauto.
  - apply lift_Ok_inv in Hrun as [Hrun _].
    apply obind_Ok_inv in Hrun as (r & E & [= Hr]). eauto.
  - apply lift_Ok_inv in Hrun as [Hrun _]. unfold list_erase_by_value in Hrun.
    rewrite Hassert in Hrun. cbn [obind] in Hrun.
    apply obind_Ok_inv in Hrun as (it & _ & Hrun).
    apply obind_Ok_inv in Hrun as (r & E & [= Hr]). eauto.
  - apply lift_Ok_inv in Hrun as [Hrun _]. unfold list_erase_by_index in Hrun.
    rewrite Hassert in Hrun. cbn [obind] in Hrun.
    apply obind_Ok_inv in Hrun as (it & _ & Hrun).
    apply obind_Ok_inv in Hrun as (r & E & [= Hr]). eauto.
Qed.

Lemma reachable_rep ndebug lst :
  reachable ndebug lst -> exists act fr, Rep lst act fr.
Proof.
  induction 1 as [sc es h lst h' Hsc Hes Hc|o lst h lst' h' _ (act & fr & R) Hrun].
  - destruct (list_create_rep _ _ _ _ _ Hsc Hes Hc) as [R _]. eauto.
  - by eapply perform_preserves.
Qed.

Lemma last0_eqb_split (l1 l2 : list Z) :
  NoDup (0 :: l1 ++ l2) ->
  (last0 l1 =? last0 (l1 ++ l2)) = bool_decide (l2 = []).
Proof.
  intros Hnd. destruct (decide (l2 = [])) as [->|Hne].
  - rewrite app_nil_r, Z.eqb_refl. by rewrite bool_decide_eq_true_2.
  - rewrite bool_decide_eq_false_2 by done. apply Z.eqb_neq.
    rewrite last0_app_nonempty by done.
    pose proof (last0_in_nonempty l2 Hne) as Hin2.
    apply NoDup_cons in Hnd as [H0 Hnd]. apply NoDup_app in Hnd as (_ & Hdisj & _).
    destruct (last0_cases l1) as [E|Hin1].
    + rewrite E. intros E2. rewrite <- E2 in Hin2. set_solver.
    + intros E. rewrite E in Hin1. by apply (Hdisj _ Hin1).
Qed.

Lemma list_insert_before_beyond ndebug lst act fr it v h :
  Rep lst act fr -> capacity lst <= it ->
  list_insert_before ndebug lst it v h = Undef.
Proof.
  intros R Hit.
  pose proof (assert_verified_ok ndebug _ _ _ R) as Hassert.
  destruct R as [(d & ns & ps & Hd & Hns & Hps & Hld & Hlns & Hlps & _) _ _ _ _ _ _ _].
  unfold list_insert_before. rewrite Hassert, mbind_lift_Ok.
  unfold prev_at, rd. rewrite Hps, sel_None by lia. done.
Qed.

Lemma rep_prev_sentinel lst act fr :
  Rep lst act fr -> prev_at lst 0 = Ok (tail lst).
Proof.
  intros R.
  destruct R as [(d & ns & ps & _ & _ & Hps & _ & _ & _ & _ & Hrev & _) _ _ _ _ _ Htail _].
  apply linked_first in Hrev. rewrite hd0_reverse in Hrev.
  unfold prev_at. rewrite Hps, Htail. by apply rd_Ok.
Qed.

Lemma rep_prev_head lst act fr :
  Rep lst act fr -> act <> [] -> prev_at lst (head lst) = Ok 0.
Proof.
  intros R Hne. destruct act as [|x l2]; [done|].
  destruct (check_iterator_active _ _ _ [] x l2 R eq_refl) as (_ & Hp & _).
  by rewrite (rep_head _ _ _ R).
Qed.

Lemma list_insert_after_flag ndebug lst act fr it v h lst' h' :
  Rep lst act fr ->
  list_insert_after ndebug lst it v h = Ok ((LIST_NO_ERR, lst'), h') ->
  normalized lst' = normalized lst && (it =? tail lst) /\
  exists l1 l2 p fr',
    act = l1 ++ l2 /\ fr = p :: fr' /\ Rep lst' (l1 ++ p :: l2) fr' /\
    (it =? tail lst) = bool_decide (l2 = []).
Proof.
  intros R Hrun.
  pose proof (rep_NoDup _ _ _ R) as Hnd.
  pose proof (rep_tail _ _ _ R) as Htail.
  destruct (list_insert_after_inv _ _ _ _ _ _ _ _ _ R Hrun)
    as (l1 & l2 & p & fr' & -> & -> & -> & _ & _ & R' & Hflag & _).
  assert (Heq : (last0 l1 =? tail lst) = bool_decide (l2 = [])).
  { rewrite Htail. apply last0_eqb_split.
    change (0 :: (l1 ++ l2) ++ p :: fr') with ((0 :: l1 ++ l2) ++ p :: fr') in Hnd.
    by apply NoDup_app in Hnd as [? _]. }
  split; [by rewrite Heq|]. by exists l1, l2, p, fr'.
Qed.

(** ** Contents *)

Lemma elem_at_payload lst d x :
  data lst = Some d -> 0 <= x -> 0 <= elem_size lst ->
  (x + 1) * elem_size lst <= Z.of_nat (length d) ->
  elem_at lst x = Ok (payload d (elem_size lst) x).
Proof.
  intros Hd Hx Hes Hlen. unfold elem_at. rewrite Hd, cells_Ok by nia. done.
Qed.

Lemma payload_blit_same d es p src d' :
  0 <= p -> 0 <= es -> Z.of_nat (length src) = es ->
  blit (Some d) (p * es) src = Ok (Some d') ->
  payload d' es p = src.
Proof.
  intros Hp Hes Hsrc Hb. unfold blit in Hb.
  destruct (Z.leb_spec 0 (p * es)); [|done].
  destruct (Z.leb_spec (p * es + Z.of_nat (length src)) (Z.of_nat (length d))); [|done].
  cbn in Hb. injection Hb as <-. unfold payload.
  rewrite drop_app_length' by (rewrite length_take; lia).
  rewrite take_app_length' by lia. done.
Qed.

Lemma payload_blit_other d es p src d' x :
  0 <= p -> 0 <= x -> x <> p -> 0 <= es -> Z.of_nat (length src) = es ->
  blit (Some d) (p * es) src = Ok (Some d') ->
  payload d' es x = payload d es x.
Proof.
  intros Hp Hx Hne Hes Hsrc Hb. unfold blit in Hb.
  destruct (Z.leb_spec 0 (p * es)); [|done].
  destruct (Z.leb_spec (p * es + Z.of_nat (length src)) (Z.of_nat (length d))); [|done].
  cbn in Hb. injection Hb as <-. unfold payload.
  apply list_eq. intros i.
  destruct (decide (i < Z.to_nat es)%nat) as [Hi|Hi].
  2:{ by rewrite !lookup_take_ge by lia. }
  rewrite !lookup_take_lt, !lookup_drop by lia.
  destruct (decide (x < p)) as [Hlt|Hgt].
  - rewrite lookup_app_l by (rewrite length_take; nia).
    apply lookup_take_lt. nia.
  - rewrite lookup_app_r by (rewrite length_take; nia).
    rewrite lookup_app_r by (rewrite length_take; nia).
    rewrite lookup_drop, length_take. f_equal. nia.
Qed.

Lemma print_loop_rep ndebug lst act fr d seen rest fuel :
  Rep lst act fr -> data lst = Some d -> act = seen ++ rest ->
  (length rest <= fuel)%nat ->
  print_loop ndebug fuel lst (hd0 rest) = Ok (payload d (elem_size lst) <$> rest).
Proof.
  intros R Hd. revert seen fuel.
  pose proof (assert_verified_ok ndebug _ _ _ R) as Hassert.
  induction rest as [|x rest IH]; intros seen fuel Hact Hfuel.
  - by destruct fuel.
  - destruct fuel as [|fuel]; [simpl in Hfuel; lia|].
    destruct (check_iterator_active _ _ _ seen x rest R Hact)
      as (Hcheck & _ & Hnext & Hx0 & _).
    assert (Hxr : 0 < x < capacity lst).
    { apply (rep_act_range _ _ _ R). rewrite Hact. set_solver. }
    pose proof (rep_elem_size _ _ _ R) as Hes.
    assert (Hlen : Z.of_nat (length d) = capacity lst * elem_size lst).
    { destruct R as [(d0 & ns & ps & Hd0 & _ & _ & Hld & _) _ _ _ _ _ _ _]. congruence. }
    cbn [print_loop hd0 List.hd]. destruct (Z.eqb_spec x 0); [done|].
    unfold list_get, list_next. rewrite Hassert, Hcheck. cbn [obind negb].
    rewrite Hd, cells_Ok by nia. cbn [obind].
    destruct (Z.eqb_spec x 0); [done|]. cbn [negb]. rewrite Hnext. cbn [obind].
    rewrite (IH (seen ++ [x]) fuel); [done| |simpl in Hfuel; lia].
    by rewrite <- app_assoc.
Qed.

(** The traversal of a valid list yields the payloads of its active slots in
    logical order. *)
Lemma list_print_rep ndebug lst act fr d :
  Rep lst act fr -> data lst = Some d ->
  list_print ndebug lst = Ok (payload d (elem_size lst) <$> act).
Proof.
  intros R Hd.
  pose proof (assert_verified_ok ndebug _ _ _ R) as Hassert.
  unfold list_print, list_head. rewrite Hassert. cbn [obind].
  rewrite (rep_head _ _ _ R).
  apply (print_loop_rep ndebug lst act fr d [] act); try done.
  pose proof (rep_capacity _ _ _ R). unfold link_fuel. lia.
Qed.

(** Insertion after the end of the prefix [l1] of the logical sequence: the
    traversal afterwards yields the old contents with the bytes of the value
    between those of [l1] and of [l2]. *)
Lemma list_insert_after_contents ndebug lst l1 l2 p fr v h d :
  Rep lst (l1 ++ l2) (p :: fr) -> data lst = Some d ->
  elem_size lst <= Z.of_nat (length v) ->
  exists lst',
    list_insert_after ndebug lst (last0 l1) v h = Ok ((LIST_NO_ERR, lst'), h) /\
    list_print ndebug lst = Ok ((payload d (elem_size lst) <$> l1)
                                ++ (payload d (elem_size lst) <$> l2)) /\
    list_print ndebug lst' = Ok ((payload d (elem_size lst) <$> l1)
                                 ++ take (Z.to_nat (elem_size lst)) v
                                 :: (payload d (elem_size lst) <$> l2)).
Proof.
  intros R Hd Hv.
  destruct (list_insert_after_room ndebug _ _ _ _ _ v h R Hv)
    as (lst' & Hrun & R' & _ & Hes' & Hcap' & Hblit).
  exists lst'. split; [done|]. split.
  { rewrite (list_print_rep _ _ _ _ _ R Hd). by rewrite fmap_app. }
  pose proof (rep_elem_size _ _ _ R) as Hes.
  pose proof (rep_NoDup _ _ _ R) as Hnd.
  assert (Hact : forall x, x ∈ l1 ++ l2 -> 0 < x < capacity lst /\ x <> p).
  { intros x Hx. split; [by apply (rep_act_range _ _ _ R)|].
    apply NoDup_cons in Hnd as [_ Hnd]. apply NoDup_app in Hnd as (_ & Hdisj & _).
    intros ->. apply (Hdisj _ Hx). set_solver. }
  assert (Hp : 0 < p < capacity lst) by (apply (rep_free_range _ _ _ R); set_solver).
  rewrite Hd in Hblit.
  destruct (data lst') as [d'|] eqn:Hd'.
  2:{ unfold blit in Hblit. by destruct (_ && _). }
  assert (Hlv : Z.of_nat (length (take (Z.to_nat (elem_size lst)) v)) = elem_size lst)
    by (rewrite length_take; lia).
  rewrite (list_print_rep _ _ _ _ _ R' Hd'), Hes'.
  rewrite fmap_app, fmap_cons.
  rewrite (payload_blit_same d (elem_size lst) p _ d') by (done || lia).
  f_equal. f_equal; [|f_equal]; apply list_fmap_ext; intros i x Hx%list_elem_of_lookup_2.
  - destruct (Hact x) as [? ?]; [set_solver|].
    apply (payload_blit_other d _ p (take (Z.to_nat (elem_size lst)) v) d'); try done; lia.
  - destruct (Hact x) as [? ?]; [set_solver|].
    apply (payload_blit_other d _ p (take (Z.to_nat (elem_size lst)) v) d'); try done; lia.
Qed.

(** ** Positions and free slots *)

Lemma rep_room lst act fr :
  Rep lst act fr -> size lst < capacity lst ->
  exists fr', fr = first_free lst :: fr'.
Proof.
  intros R Hroom.
  pose proof (rep_capacity_size _ _ _ R) as Hcs.
  pose proof (rep_first_free _ _ _ R) as Hff.
  destruct fr as [|f fr']; [cbn in Hcs; lia|].
  exists fr'. by rewrite Hff.
Qed.

(** In a valid list the position after which nothing follows is the tail. *)
Lemma tail_position lst l1 l2 fr :
  Rep lst (l1 ++ l2) fr -> (last0 l1 =? tail lst) = bool_decide (l2 = []).
Proof.
  intros R. rewrite (rep_tail _ _ _ R).
  pose proof (rep_NoDup _ _ _ R) as Hnd.
  apply NoDup_cons in Hnd as [H0 Hnd]. apply NoDup_app in Hnd as [Hnd _].
  destruct l1 as [|a l1] using rev_ind.
  - cbn [app] in *. change (last0 []) with 0.
    destruct (decide (l2 = [])) as [->|Hne].
    + by rewrite bool_decide_eq_true_2.
    + rewrite bool_decide_eq_false_2 by done. apply Z.eqb_neq.
      pose proof (last0_in_nonempty l2 Hne) as Hin.
      intros E. rewrite <- E in Hin. set_solver.
  - clear IHl1. rewrite last0_snoc. rewrite <- app_assoc in *. cbn [app] in *.
    by apply eqb_last0_split.
Qed.

Lemma drop_hd0_lookup (l : list Z) j x :
  l !! j = Some x -> l = take j l ++ x :: drop (S j) l /\ hd0 (drop j l) = x.
Proof.
  intros Hl. split.
  - by rewrite <- (take_drop_middle l j x Hl) at 1.
  - by rewrite (drop_S l x j Hl).
Qed.

(** ** Normalization of a list with no element below its position *)

Lemma memcpy_slot (d : list byte) es a b :
  0 <= es -> 0 <= a -> 0 <= b ->
  (a + 1) * es <= Z.of_nat (length d) -> (b + 1) * es <= Z.of_nat (length d) ->
  exists d',
    memcpy (Some d) (a * es) (Some d) (b * es) es = Ok (Some d') /\
    length d' = length d /\
    payload d' es a = payload d es b /\
    (forall x, 0 <= x -> x <> a -> payload d' es x = payload d es x).
Proof.
  intros Hes Ha Hb Hla Hlb. unfold memcpy. rewrite cells_Ok by nia. cbn [obind].
  fold (payload d es b).
  assert (Hlen : Z.of_nat (length (payload d es b)) = es).
  { unfold payload. rewrite length_take, length_drop. nia. }
  pose proof (blit_Ok d (a * es) (payload d es b) ltac:(nia) ltac:(nia)) as E.
  rewrite E. eexists. split; [reflexivity|]. split; [|split].
  - rewrite !length_app, length_take, length_drop. nia.
  - by apply (payload_blit_same d es a _ _ Ha Hes Hlen E).
  - intros x Hx Hne. by apply (payload_blit_other d es a _ _ x Ha Hx Hne Hes Hlen E).
Qed.

Lemma list_swap_vals_payloads lst d i j :
  data lst = Some d ->
  Z.of_nat (length d) = capacity lst * elem_size lst ->
  0 <= elem_size lst ->
  0 < i < capacity lst -> 0 < j < capacity lst -> i <> j ->
  exists d',
    list_swap_vals lst i j = Ok (set_data lst (Some d')) /\
    length d' = length d /\
    payload d' (elem_size lst) i = payload d (elem_size lst) j /\
    payload d' (elem_size lst) j = payload d (elem_size lst) i /\
    payload d' (elem_size lst) 0 = payload d (elem_size lst) i /\
    (forall x, 0 < x -> x <> i -> x <> j ->
       payload d' (elem_size lst) x = payload d (elem_size lst) x).
Proof.
  intros Hd Hld Hes Hi Hj Hne.
  unfold list_swap_vals. rewrite Hd. cbv zeta.
  set (es := elem_size lst) in *.
  change 0 with (0 * es) at 1.
  destruct (memcpy_slot d es 0 i) as (d1 & -> & L1 & P1 & O1); try nia.
  cbn [obind].
  destruct (memcpy_slot d1 es i j) as (d2 & -> & L2 & P2 & O2); try nia.
  cbn [obind].
  change (memcpy (Some d2) (j * es) (Some d2) 0 es)
    with (memcpy (Some d2) (j * es) (Some d2) (0 * es) es).
  destruct (memcpy_slot d2 es j 0) as (d3 & -> & L3 & P3 & O3); try nia.
  cbn [obind].
  exists d3. split; [done|]. split; [congruence|].
  split; [|split; [|split]].
  - rewrite O3, P2, O1 by lia. done.
  - rewrite P3, O2, P1 by lia. done.
  - rewrite O3, O2, P1 by lia. done.
  - intros x Hx Hxi Hxj. rewrite O3, O2, O1 by lia. done.
Qed.

Lemma last0_take_S (l : list Z) k x :
  l !! k = Some x -> last0 (take (S k) l) = x.
Proof.
  intros Hx. rewrite (take_S_r l k x Hx). apply last0_snoc.
Qed.

Section NormalizeUpward.
Context (lst0 : list_t_) (act fr : list Z) (R : Rep lst0 act fr).
Context (d0 : list byte) (ns0 ps0 : list Z).
Context (Hd0 : data lst0 = Some d0) (Hns0 : nexts lst0 = Some ns0)
        (Hps0 : prevs lst0 = Some ps0).
Context (Hup : forall k x, act !! k = Some x -> Z.of_nat k + 1 <= x).

Lemma nu_lengths :
  Z.of_nat (length d0) = capacity lst0 * elem_size lst0 /\
  Z.of_nat (length ns0) = capacity lst0 /\ Z.of_nat (length ps0) = capacity lst0.
Proof.
  pose proof (rep_blocks _ _ _ R) as (d & ns & ps & Hd & Hns & Hps & Hld & Hlns & Hlps & _).
  rewrite Hd0 in Hd. rewrite Hns0 in Hns. rewrite Hps0 in Hps.
  by injection Hd as <-; injection Hns as <-; injection Hps as <-.
Qed.

Lemma nu_range k x : act !! k = Some x -> 0 < x < capacity lst0.
Proof.
  intros Hx. apply (rep_act_range _ _ _ R). by eapply list_elem_of_lookup_2.
Qed.

Lemma nu_inj k1 k2 x : act !! k1 = Some x -> act !! k2 = Some x -> k1 = k2.
Proof.
  intros H1 H2. pose proof (rep_NoDup _ _ _ R) as Hnd.
  apply NoDup_cons in Hnd as [_ Hnd]. apply NoDup_app in Hnd as [Hnd _].
  by eapply NoDup_lookup.
Qed.

Lemma nu_next k x :
  act !! k = Some x -> sel ns0 x = Some (hd0 (drop (S k) act)).
Proof.
  intros Hx. destruct (drop_hd0_lookup act k x Hx) as [Hsplit _].
  destruct (check_iterator_active _ _ _ _ _ _ R Hsplit) as (_ & _ & Hn & _).
  unfold next_at in Hn. rewrite Hns0 in Hn. by apply rd_Ok.
Qed.

Lemma nu_pred i :
  1 <= i < capacity lst0 -> act !! Z.to_nat (i - 1) <> Some i ->
  exists p, sel ps0 i = Some p /\ 0 <= p < capacity lst0 /\
            (p = i \/ p = 0 \/ exists k, act !! k = Some p /\ Z.of_nat k + 1 < i).
Proof.
  intros Hi Hnot.
  assert (Hin : i ∈ 0 :: act ++ fr) by (apply (rep_elem_of _ _ _ R); lia).
  apply elem_of_cons in Hin as [?|Hin]; [lia|].
  apply elem_of_app in Hin as [Ha|Hf].
  - apply list_elem_of_lookup_1 in Ha as [k Hk].
    pose proof (Hup _ _ Hk) as Hle.
    assert (Hlt : Z.of_nat k + 1 < i).
    { destruct (decide (Z.of_nat k + 1 = i)) as [E|]; [|lia].
      exfalso. apply Hnot. subst i.
      replace (Z.to_nat (Z.of_nat k + 1 - 1)) with k by lia. done. }
    destruct (drop_hd0_lookup act k i Hk) as [Hsplit _].
    destruct (check_iterator_active _ _ _ _ _ _ R Hsplit) as (_ & Hp & _).
    unfold prev_at in Hp. rewrite Hps0 in Hp. apply rd_Ok in Hp.
    exists (last0 (take k act)). split; [done|].
    destruct k as [|k].
    + change (last0 (take 0 act)) with 0. split; [lia|]. right. by left.
    + destruct (lookup_lt_is_Some_2 act k) as [y Hy].
      { apply lookup_lt_Some in Hk. lia. }
      rewrite (last0_take_S act k y Hy).
      pose proof (nu_range _ _ Hy). split; [lia|].
      right. right. exists k. split; [done|lia].
  - pose proof (rep_blocks _ _ _ R)
      as (d & ns & ps & _ & _ & Hps & _ & _ & _ & _ & _ & _ & Hself).
    rewrite Hps0 in Hps. injection Hps as <-.
    rewrite Forall_forall in Hself.
    exists i. split; [by apply Hself|]. split; [lia|by left].
Qed.

Lemma normalize_step_inv i lst it :
  NormInv d0 ps0 act i lst it ->
  elem_size lst = elem_size lst0 -> size lst = size lst0 ->
  capacity lst = capacity lst0 ->
  1 <= i <= Z.of_nat (length act) ->
  exists lst' it',
    normalize_step i (lst, it) = Ok (lst', it') /\
    NormInv d0 ps0 act (i + 1) lst' it' /\ same_scalars lst lst'.
Proof.
  intros [(d & ns & ps & Hd & Hns & Hps & Ld & Lns & Lps & Hplaced & Hpend & Hprev) Hit]
         Hes Hsz Hcap Hi.
  destruct nu_lengths as (Hld0 & Hlns0 & Hlps0).
  pose proof (rep_size _ _ _ R) as Hsize0.
  pose proof (rep_elem_size _ _ _ R) as Hes0.
  pose proof (rep_capacity _ _ _ R) as Hcap0.
  pose proof (rep_cap_bound _ _ _ R) as Hcb.
  assert (Hmod : SIZE_MODULUS = 18446744073709551616) by reflexivity.
  destruct (lookup_lt_is_Some_2 act (Z.to_nat (i - 1))) as [x Hx]; [lia|].
  destruct (drop_hd0_lookup act _ x Hx) as [_ Hhd]. rewrite Hhd in Hit. subst it.
  pose proof (nu_range _ _ Hx) as Hxr.
  pose proof (Hup _ _ Hx) as Hxi.
  destruct (Hpend i x ltac:(lia) Hx) as [Hpx Hnx].
  assert (Hw1 : wrap (i + 1) = i + 1) by (apply wrap_small; lia).
  assert (Hw2 : wrap (i - 1) = i - 1) by (apply wrap_small; lia).
  destruct lst as [dl nl pl es sz cap ff hd tl nm]. cbn in *. subst dl nl pl es sz cap.
  unfold normalize_step. destruct (Z.eqb_spec i x) as [<-|Hne].
  - (* the element is in place *)
    unfold next_at, next_put, prev_put. cbn.
    apply rd_Ok in Hnx as Hnx'. rewrite Hnx'. cbn.
    rewrite wr_Ok by lia. cbn. rewrite wr_Ok by lia. cbn.
    rewrite Hw1, Hw2.
    eexists _, _. split; [reflexivity|]. split; [|by repeat split].
    constructor; cbn; [|do 2 f_equal; lia].
    exists d, (upd ns i ((i + 1) mod size lst0)), (upd ps i (i - 1)).
    split; [done|]. split; [done|]. split; [done|]. split; [done|].
    split; [by rewrite length_upd|]. split; [by rewrite length_upd|].
    split; [|split].
    + intros j Hj. destruct (decide (j = i)) as [->|Hji].
      * rewrite !sel_upd_eq by lia. split; [done|]. split; [done|]. by exists i.
      * rewrite !sel_upd_ne by lia. apply Hplaced. lia.
    + intros j y Hj Hy. destruct (Hpend j y ltac:(lia) Hy) as [Hpy Hny].
      split; [done|]. pose proof (Hup _ _ Hy). rewrite sel_upd_ne by lia. done.
    + intros y Hy. rewrite sel_upd_ne by lia. apply Hprev. lia.
  - (* the element is moved down into slot [i] *)
    destruct (nu_pred i ltac:(lia)) as (p & Hp & Hpr & Hpc).
    { rewrite Hx. congruence. }
    destruct (sel_is_Some ns i) as [ni Hni]; [lia|].
    unfold next_at, next_put, prev_put, prev_at. cbn.
    apply rd_Ok in Hnx as Hnx'. rewrite Hnx'. cbn.
    apply rd_Ok in Hni as Hni'. rewrite Hni'. cbn.
    rewrite wr_Ok by lia. cbn.
    destruct (list_swap_vals_payloads
                (mkList (Some d) (Some (upd ns x ni)) (Some ps) (elem_size lst0)
                        (size lst0) (capacity lst0) ff hd tl nm) d i x)
      as (d' & Hswap & Ld' & Pi & Px & _ & Po); cbn; try done; try lia.
    cbn [elem_size] in Pi, Px, Po.
    rewrite Hswap. cbn.
    assert (Hpi : sel ps i = Some p) by (rewrite Hprev by lia; done).
    apply rd_Ok in Hpi as Hpi'. rewrite Hpi'. cbn.
    assert (Hpx' : p <> x).
    { destruct Hpc as [->|[->|(k & Hk & Hlt)]]; [lia|lia|].
      intros ->. pose proof (nu_inj _ _ _ Hk Hx). lia. }
    destruct (sel_is_Some ns p) as [t Ht]; [lia|].
    assert (Ht1 : sel (upd ns x ni) p = Some t) by (rewrite sel_upd_ne by lia; done).
    apply rd_Ok in Ht1 as Ht1'. rewrite Ht1'. cbn.
    rewrite wr_Ok by (rewrite length_upd; lia). cbn.
    rewrite wr_Ok by lia. cbn.
    rewrite wr_Ok by (rewrite !length_upd; lia). cbn.
    rewrite Hw1, Hw2.
    eexists _, _. split; [reflexivity|]. split; [|by repeat split].
    constructor; cbn; [|do 2 f_equal; lia].
    eexists d', _, _.
    split; [done|]. split; [done|]. split; [done|]. split; [congruence|].
    split; [by rewrite !length_upd|]. split; [by rewrite length_upd|].
    split; [|split].
    + intros j Hj. destruct (decide (j = i)) as [->|Hji].
      * rewrite !sel_upd_eq by (rewrite ?length_upd; lia).
        split; [done|]. split; [done|]. exists x. split; [done|]. congruence.
      * destruct (Hplaced j ltac:(lia)) as (Hnj & Hpj & y & Hy & Hpay).
        rewrite (sel_upd_ne _ i j) by lia. rewrite (sel_upd_ne ps i j) by lia.
        split; [|split; [done|]].
        -- destruct (decide (j = p)) as [->|Hjp].
           ++ rewrite sel_upd_eq by (rewrite length_upd; lia).
              rewrite Ht in Hnj. injection Hnj as ->.
              rewrite Z.mod_small by lia.
              destruct (Z.gtb_spec (p + 1) i); [lia|done].
           ++ rewrite sel_upd_ne by lia. rewrite sel_upd_ne by lia. done.
        -- exists y. split; [done|]. rewrite Po by lia. done.
    + intros j y Hj Hy. destruct (Hpend j y ltac:(lia) Hy) as [Hpy Hny].
      pose proof (Hup _ _ Hy) as Hyj.
      assert (Hyx : y <> x).
      { intros ->. pose proof (nu_inj _ _ _ Hy Hx). lia. }
      assert (Hyp : y <> p).
      { destruct Hpc as [->|[->|(k & Hk & Hlt)]]; [lia| |].
        - pose proof (nu_range _ _ Hy). lia.
        - intros ->. pose proof (nu_inj _ _ _ Hk Hy). lia. }
      split; [rewrite Po by lia; done|].
      rewrite sel_upd_ne by lia. rewrite sel_upd_ne by lia.
      rewrite sel_upd_ne by lia. done.
    + intros y Hy. rewrite sel_upd_ne by lia. apply Hprev. lia.
Qed.

Lemma normalize_loop_inv n : forall i lst it,
  NormInv d0 ps0 act i lst it ->
  elem_size lst = elem_size lst0 -> size lst = size lst0 ->
  capacity lst = capacity lst0 ->
  1 <= i -> i + Z.of_nat n <= Z.of_nat (length act) + 1 ->
  exists lst' it',
    for_range n i normalize_step (lst, it) = Ok (lst', it') /\
    NormInv d0 ps0 act (i + Z.of_nat n) lst' it' /\ same_scalars lst lst'.
Proof.
  induction n as [|n IH]; intros i lst it I Hes Hsz Hcap Hi Hn.
  - exists lst, it. cbn. split; [done|]. rewrite Z.add_0_r.
    split; [done|apply same_scalars_refl].
  - cbn [for_range].
    destruct (normalize_step_inv i lst it I Hes Hsz Hcap)
      as (lst1 & it1 & -> & I1 & S1); [lia|].
    cbn [obind]. pose proof S1 as (Hes1 & Hsz1 & Hcap1 & _).
    pose proof (rep_capacity _ _ _ R). pose proof (rep_cap_bound _ _ _ R).
    rewrite wrap_small by lia.
    destruct (IH (i + 1) lst1 it1 I1) as (lst2 & it2 & -> & I2 & S2);
      [congruence|congruence|congruence|lia|lia|].
    exists lst2, it2. split; [done|].
    replace (i + Z.of_nat (S n)) with (i + 1 + Z.of_nat n) by lia.
    split; [done|]. by eapply same_scalars_trans.
Qed.

End NormalizeUpward.

Lemma linked_down a (n : nat) :
  (forall j, 1 <= j <= Z.of_nat n -> sel a j = Some (j - 1)) ->
  linked a (reverse (seqZ 1 (Z.of_nat n)) ++ [0]) /\
  hd0 (reverse (seqZ 1 (Z.of_nat n)) ++ [0]) = Z.of_nat n.
Proof.
  induction n as [|n IH]; intros Hsel; [done|].
  destruct IH as [IH Hhd]; [intros j Hj; apply Hsel; lia|].
  replace (Z.of_nat (S n)) with (Z.of_nat n + 1) by lia.
  rewrite seqZ_app by lia. change (seqZ (1 + Z.of_nat n) 1) with [1 + Z.of_nat n].
  rewrite reverse_app. change (reverse [1 + Z.of_nat n]) with [1 + Z.of_nat n].
  cbn [app]. split; [|cbn; lia].
  destruct (cons_hd0 (reverse (seqZ 1 (Z.of_nat n)))) as [V HV].
  destruct (reverse (seqZ 1 (Z.of_nat n)) ++ [0]) as [|y l] eqn:E.
  { by destruct (reverse (seqZ 1 (Z.of_nat n))). }
  cbn in Hhd. subst y. cbn. split; [|done].
  rewrite Hsel by lia. f_equal. lia.
Qed.

Lemma fmap_seqZ_positions {B : Type} (f g : Z -> B) (act : list Z) :
  (forall j, 1 <= j <= Z.of_nat (length act) ->
     exists x, act !! Z.to_nat (j - 1) = Some x /\ f j = g x) ->
  f <$> seqZ 1 (Z.of_nat (length act)) = g <$> act.
Proof.
  intros H. apply list_eq. intros k. rewrite !list_lookup_fmap.
  destruct (decide (k < length act)%nat) as [Hk|Hk].
  - rewrite lookup_seqZ_lt by lia.
    destruct (H (1 + Z.of_nat k)) as (x & Hx & E); [lia|].
    replace (Z.to_nat (1 + Z.of_nat k - 1)) with k in Hx by lia.
    rewrite Hx. cbn. by rewrite E.
  - rewrite lookup_seqZ_ge by lia. by rewrite lookup_ge_None_2 by lia.
Qed.

Lemma rep_set_normalized lst act fr b :
  Rep lst act fr -> Rep (set_normalized lst b) act fr.
Proof. intros [? ? ? ? ? ? ? ?]. by constructor. Qed.

(** [list_normalize] on a list in which no element sits in a slot below
    its position: the loop invariant [NormInv] holds to the end, and the
    links then written make the list valid. *)
Lemma list_normalize_upward_ok ndebug lst act fr :
  Rep lst act fr -> normalized lst = false -> act <> [] ->
  (forall k x, act !! k = Some x -> Z.of_nat k + 1 <= x) ->
  exists lst',
    list_normalize ndebug lst = Ok lst' /\
    Rep lst' (seqZ 1 (size lst - 1)) (seqZ (size lst) (capacity lst - size lst)) /\
    normalized lst' = true /\
    size lst' = size lst /\ capacity lst' = capacity lst /\
    elem_size lst' = elem_size lst /\
    list_verify lst' = Ok LIST_NO_ERR /\
    list_print ndebug lst' = list_print ndebug lst.
Proof.
  intros R Hflag Hne Hup.
  pose proof (assert_verified_ok ndebug _ _ _ R) as Hassert.
  pose proof (rep_size _ _ _ R) as Hsize.
  pose proof (rep_capacity _ _ _ R) as Hcap.
  pose proof (rep_capacity_size _ _ _ R) as Hcs.
  pose proof (rep_cap_bound _ _ _ R) as Hcb.
  pose proof (rep_elem_size _ _ _ R) as Hes.
  pose proof (rep_bytes _ _ _ R) as Hbytes.
  pose proof (rep_blocks _ _ _ R)
    as (d0 & ns0 & ps0 & Hd0 & Hns0 & Hps0 & Hld0 & Hlns0 & Hlps0 & _).
  assert (Hn : 1 <= Z.of_nat (length act)) by (destruct act; [done|cbn; lia]).
  assert (Hmod : SIZE_MODULUS = 18446744073709551616) by reflexivity.
  (* the main loop *)
  assert (I0 : NormInv d0 ps0 act 1 (set_normalized lst true) (head lst)).
  { constructor; cbn.
    - exists d0, ns0, ps0. split; [done|]. split; [done|]. split; [done|].
      split; [done|]. split; [lia|]. split; [done|]. split; [intros j Hj; lia|].
      split; [|done]. intros j x Hj Hx. split; [done|].
      rewrite (nu_next lst act fr R ns0 Hns0 _ _ Hx). do 3 f_equal. lia.
    - by rewrite (rep_head _ _ _ R). }
  destruct (normalize_loop_inv lst act fr R d0 ns0 ps0 Hd0 Hns0 Hps0 Hup
              (length act) 1 (set_normalized lst true) (head lst) I0)
    as (lst1 & it1 & Hloop & I1 & S1); try done; try lia.
  destruct I1 as [(d1 & ns1 & ps1 & Hd1 & Hns1 & Hps1 & Ld1 & Lns1 & Lps1
                   & Hplaced & _ & _) _].
  destruct S1 as (Hes1 & Hsz1 & Hcap1 & Hff1 & Hhd1 & Htl1 & Hnm1). cbn in *.
  unfold list_normalize. rewrite Hassert. cbn [obind]. rewrite Hflag.
  destruct (Z.eqb_spec (size lst) 1); [lia|]. cbv zeta.
  cbn [set_normalized size head].
  replace (Z.to_nat (size lst - 1)) with (length act) by lia.
  rewrite Hloop. cbn [obind fst].
  unfold next_put, prev_put. cbn. rewrite Hns1.
  rewrite wr_Ok by lia. cbn. rewrite Hps1. rewrite wr_Ok by lia. cbn.
  rewrite Hsz1, Hcap1.
  edestruct (free_slots_loop (capacity lst) (Z.to_nat (capacity lst - size lst))
               (size lst)) as (ns' & ps' & Hfl & Lns' & Lps' & Hin & Hout);
    [| | | | | |rewrite Hfl]; try reflexivity; cbn.
  { lia. }
  { rewrite length_upd. lia. }
  { rewrite !length_upd. lia. }
  { rewrite length_upd. lia. }
  rewrite !length_upd in Lns', Lps'.
  rewrite (wrap_small (size lst - 1)) in * by lia.
  (* the links of the list returned *)
  assert (Hn0 : sel ns' 0 = Some 1).
  { destruct (Hout 0) as [-> _]; [lia|]. apply sel_upd_eq. lia. }
  assert (Hp0 : sel ps' 0 = Some (size lst - 1)).
  { destruct (Hout 0) as [_ ->]; [lia|]. apply sel_upd_eq. lia. }
  assert (Hact : forall j, 1 <= j < size lst ->
             sel ns' j = Some ((j + 1) mod size lst) /\ sel ps' j = Some (j - 1) /\
             exists x, act !! Z.to_nat (j - 1) = Some x /\
                       payload d1 (elem_size lst1) j = payload d0 (elem_size lst1) x).
  { intros j Hj. destruct (Hplaced j ltac:(lia)) as (Hnj & Hpj & Hx).
    destruct (Hout j) as [-> ->]; [lia|].
    rewrite !sel_upd_ne by lia. rewrite Hsz1 in Hnj. done. }
  eexists. split; [reflexivity|].
  match goal with |- Rep ?l _ _ /\ _ => set (lst' := l) end.
  assert (R' : Rep lst' (seqZ 1 (size lst - 1))
                 (seqZ (size lst) (capacity lst - size lst))).
  { constructor; unfold lst';
      cbn [data nexts prevs elem_size size capacity first_free head tail
           set_first_free set_head set_tail set_nexts set_prevs];
      rewrite ?Hes1, ?Hsz1, ?Hcap1; try done.
    - exists d1, ns', ps'. split; [done|]. split; [done|]. split; [done|].
      split; [lia|]. split; [lia|]. split; [lia|]. split; [|split; [|split]].
      + change (0 :: seqZ 1 (size lst - 1) ++ [0])
          with ((0 :: seqZ 1 (size lst - 1)) ++ [0]).
        replace (0 :: seqZ 1 (size lst - 1)) with (seqZ 0 (Z.of_nat (length act + 1))).
        2:{ rewrite seqZ_cons by lia. do 2 f_equal. lia. }
        apply (linked_seqZ _ (size lst)); [lia|lia|].
        intros j Hj. destruct (decide (j = 0)) as [->|Hj0].
        * rewrite Hn0. f_equal. rewrite Z.mod_small by lia. done.
        * by destruct (Hact j) as [? _]; [lia|].
      + replace (size lst - 1) with (Z.of_nat (length act)) by lia.
        destruct (linked_down ps' (length act)) as [Hl Hh].
        { intros j Hj. by destruct (Hact j) as (_ & ? & _); [lia|]. }
        destruct (reverse (seqZ 1 (Z.of_nat (length act))) ++ [0]) as [|y l] eqn:E.
        { by destruct (reverse (seqZ 1 (Z.of_nat (length act)))). }
        cbn in Hh. subst y. cbn. split; [|done].
        rewrite Hp0. f_equal. lia.
      + replace (capacity lst - size lst)
          with (Z.of_nat (Z.to_nat (capacity lst - size lst))) by lia.
        apply (linked_seqZ _ (capacity lst)); [lia|lia|].
        intros j Hj. apply Hin. lia.
      + apply Forall_forall. intros f Hf%elem_of_seqZ. apply Hin. lia.
    - replace (0 :: seqZ 1 (size lst - 1) ++ seqZ (size lst) (capacity lst - size lst))
        with (seqZ 0 (capacity lst)); [done|].
      replace (capacity lst) with (size lst + (capacity lst - size lst)) at 1 by lia.
      rewrite seqZ_app by lia. rewrite (seqZ_cons 0) by lia.
      cbn. do 3 f_equal; lia.
    - rewrite length_seqZ. lia.
    - rewrite seqZ_cons by lia. done.
    - replace (size lst - 1) with ((size lst - 2) + 1) by lia.
      rewrite seqZ_app by lia.
      change (seqZ (1 + (size lst - 2)) 1) with [1 + (size lst - 2)].
      rewrite last0_snoc. lia.
    - destruct (Z.ltb_spec (size lst) (capacity lst)).
      + cbn. rewrite seqZ_cons by lia. done.
      + destruct (Z.eqb_spec (size lst) 1); [lia|]. cbn.
        rewrite seqZ_nil by lia. by left. }
  split; [exact R'|].
  split; [unfold lst'; cbn; congruence|].
  split; [unfold lst'; cbn; congruence|].
  split; [unfold lst'; cbn; congruence|].
  split; [unfold lst'; cbn; congruence|].
  split; [by eapply list_verify_ok|].
  rewrite (list_print_rep ndebug lst' _ _ d1 R') by done.
  rewrite (list_print_rep ndebug lst _ _ d0 R) by done.
  f_equal. unfold lst'. cbn [elem_size].
  replace (size lst - 1) with (Z.of_nat (length act)) by lia.
  rewrite <- Hes1.
  apply fmap_seqZ_positions. intros j Hj.
  destruct (Hact j) as (_ & _ & x & Hx & Hpay); [lia|]. by exists x.
Qed.

(** ** Concrete lists *)

Lemma fresh2_created :
  list_create_func_ 2 1 heap0 = Ok (Some fresh2, mkHeap [] 4).
Proof. reflexivity. Qed.

Lemma fresh2_reachable ndebug : reachable ndebug fresh2.
Proof.
  apply (reachable_create ndebug 2 1 heap0 _ (mkHeap [] 4));
    [| |apply fresh2_created]; split; (lia || reflexivity).
Qed.

Lemma swapped2_reachable ndebug : reachable ndebug swapped2.
Proof.
  apply (reachable_step ndebug (InsertToHead [x0a]) single2 heap0 _ heap0);
    [|destruct ndebug; reflexivity].
  apply (reachable_step ndebug (InsertToTail [x0b]) fresh2 heap0 _ heap0);
    [|destruct ndebug; reflexivity].
  apply fresh2_reachable.
Qed.

Lemma fresh3_created :
  list_create_func_ 3 1 heap0 = Ok (Some fresh3, mkHeap [] 4).
Proof. reflexivity. Qed.

Lemma swapped3_reachable ndebug : reachable ndebug swapped3.
Proof.
  apply (reachable_step ndebug (InsertToHead [x0a]) single3 heap0 _ heap0);
    [|destruct ndebug; reflexivity].
  apply (reachable_step ndebug (InsertToTail [x0b]) fresh3 heap0 _ heap0);
    [|destruct ndebug; reflexivity].
  apply (reachable_create ndebug 3 1 heap0 _ (mkHeap [] 4));
    [| |apply fresh3_created]; split; (lia || reflexivity).
Qed.

Lemma fresh3_rep : Rep fresh3 [] [1; 2; 3].
Proof. rep_by_evaluation. Qed.

Lemma single3_rep : Rep single3 [1] [2; 3].
Proof. rep_by_evaluation. Qed.

Lemma swapped3_rep : Rep swapped3 [2; 1] [3].
Proof. rep_by_evaluation. Qed.

Lemma gapped3_rep : Rep gapped3 [2; 3] [1].
Proof. rep_by_evaluation. Qed.

Lemma built_in_place_reachable ndebug lst :
  built_in_place ndebug lst -> reachable ndebug lst.
Proof.
  induction 1 as [sc es h lst h' Hsc Hes Hc|o lst h lst' h' _ IH _ Hrun].
  - exact (reachable_create ndebug _ _ _ _ _ Hsc Hes Hc).
  - exact (reachable_step ndebug o lst h lst' h' IH Hrun).
Qed.

Lemma fresh2_built ndebug : built_in_place ndebug fresh2.
Proof.
  apply (built_create ndebug 2 1 heap0 _ (mkHeap [] 4));
    [| |apply fresh2_created]; split; (lia || reflexivity).
Qed.

Lemma pair2_built ndebug : built_in_place ndebug pair2.
Proof.
  apply (built_step ndebug (InsertToTail [x0c]) single2 heap0 _ heap0);
    [|intros _; reflexivity|destruct ndebug; reflexivity].
  apply (built_step ndebug (InsertToTail [x0b]) fresh2 heap0 _ heap0);
    [|intros _; reflexivity|destruct ndebug; reflexivity].
  apply fresh2_built.
Qed.

Lemma swapped3_built ndebug : built_in_place ndebug swapped3.
Proof.
  apply (built_step ndebug (InsertToHead [x0a]) single3 heap0 _ heap0);
    [|intros _; reflexivity|destruct ndebug; reflexivity].
  apply (built_step ndebug (InsertToTail [x0b]) fresh3 heap0 _ heap0);
    [|intros _; reflexivity|destruct ndebug; reflexivity].
  apply (built_create ndebug 3 1 heap0 _ (mkHeap [] 4));
    [| |apply fresh3_created]; split; (lia || reflexivity).
Qed.

(** * The claims *)

(** C1: the invariant is kept by every operation that does not have to grow
    the arrays, and can be broken by one that has to.

    Every list obtained from [list_create] by erasures and by insertions
    into a list with a free slot that reported [LIST_NO_ERR] passes
    [list_verify] and satisfies the structural invariant [Rep]: the virtual
    element closes the active chain in both directions, free slots are marked
    by [prevs[i] == i] and form a chain from [first_free] ending in 0, the
    chains have [size - 1] and [capacity - size] members, and
    [capacity >= size >= 1].

    The list [pair2] is obtained by [list_create(2)] and two calls of
    [list_insert_to_tail]; it is valid and full.  The third insertion has to
    grow the arrays: [list_change_capacity] copies seven entries out of
    arrays of three and then reads [nexts[3]], behind the end of [nexts], for
    the end of the free chain.  Where the memory behind the arrays can be
    read, whatever it holds, the outcome depends on the cell behind [nexts]:
    if it holds 1, [list_insert_to_tail] returns [LIST_NO_ERR] and leaves a
    list that [list_verify] rejects with [LIST_BAD_BUSY_FIELDS]. *)
Theorem full_list_insertion_breaks_invariant (ndebug : bool) :
  (forall lst, built_in_place ndebug lst ->
     list_verify lst = Ok LIST_NO_ERR /\ exists act fr, Rep lst act fr) /\
  built_in_place ndebug pair2 /\
  list_verify pair2 = Ok LIST_NO_ERR /\
  size pair2 = capacity pair2 /\
  list_insert_to_tail ndebug pair2 [x0d] heap0 = Undef /\
  (forall g3 g4 g5 g6 n4 n5 n6 p3 p4 p5 p6,
     list_verify (pair2_padded g3 g4 g5 g6 1 n4 n5 n6 p3 p4 p5 p6) = Ok LIST_NO_ERR /\
     list_insert_to_tail ndebug (pair2_padded g3 g4 g5 g6 1 n4 n5 n6 p3 p4 p5 p6)
       [x0d] heap0
     = Ok ((LIST_NO_ERR, pair2_tangled g4 g5 g6), heap0) /\
     list_verify (pair2_tangled g4 g5 g6) = Ok LIST_BAD_BUSY_FIELDS).
Proof.
  split.
  { intros lst (act & fr & R)%built_in_place_reachable%reachable_rep.
    split; [by eapply list_verify_ok|eauto]. }
  split; [apply pair2_built|].
  destruct ndebug; repeat split; reflexivity.
Qed.

Lemma full_list_insertion_breaks_invariant_witness :
  list_verify swapped3 = Ok LIST_NO_ERR /\ exists act fr, Rep swapped3 act fr.
Proof.
  apply (proj1 (full_list_insertion_breaks_invariant true) swapped3).
  apply (built_step true (InsertToHead [x0a]) single3 heap0 _ heap0);
    [|intros _; reflexivity|reflexivity].
  apply (built_step true (InsertToTail [x0b]) fresh3 heap0 _ heap0);
    [|intros _; reflexivity|reflexivity].
  apply (built_create true 3 1 heap0 _ (mkHeap [] 4)); [| |reflexivity];
    split; (lia || reflexivity).
Defined.

(** C2: [list_normalize] does not keep the logical sequence of every valid
    list that is not normalized.  The list [swapped2] is obtained by
    [list_create(2)], [list_insert_to_tail(0b)], [list_insert_to_head(0a)]; it
    is valid and holds [0a; 0b].  After [list_normalize] slot 1 holds [0b],
    [nexts[1]] is 0 instead of 2, the traversal from the head yields [0b]
    alone, and [list_verify] reports [LIST_BAD_BUSY_FIELDS]. *)
Theorem normalize_breaks_swapped_pair (ndebug : bool) :
  reachable ndebug swapped2 /\
  normalized swapped2 = false /\ size swapped2 = 3 /\
  list_verify swapped2 = Ok LIST_NO_ERR /\
  list_print ndebug swapped2 = Ok [[x0a]; [x0b]] /\
  list_normalize ndebug swapped2 = Ok swapped2_normalized /\
  list_print true swapped2_normalized = Ok [[x0b]] /\
  elem_at swapped2_normalized 1 = Ok [x0b] /\
  next_at swapped2_normalized 1 = Ok 0 /\
  list_verify swapped2_normalized = Ok LIST_BAD_BUSY_FIELDS.
Proof.
  split; [apply swapped2_reachable|].
  destruct ndebug; repeat split; reflexivity.
Qed.

(** C3, as stated, fails at the virtual element: [list_get] of iterator 0
    is the payload block itself, not NULL. *)
Lemma list_get_sentinel_is_not_null :
  list_verify fresh2 = Ok LIST_NO_ERR /\
  list_get true fresh2 0 = Ok (Some 0) /\
  list_get false fresh2 0 = Ok (Some 0) /\
  list_get true fresh2 0 <> Ok None.
Proof. repeat split; try reflexivity. discriminate. Qed.

(** C3, amended: for a valid list, [list_get] returns the address
    [data + it * elem_size] of the element when [it] is an active slot, NULL
    when [it] is out of range or is a free slot (which has [prevs[it] == it]),
    and for [it == 0] the address of slot 0, the start of the payload
    block. *)
Theorem list_get_spec ndebug lst act fr :
  Rep lst act fr ->
  (forall x, x ∈ act ->
     list_get ndebug lst x = Ok (Some (x * elem_size lst)) /\
     exists d, data lst = Some d /\
               elem_at lst x = Ok (payload d (elem_size lst) x) /\
               Z.of_nat (length (payload d (elem_size lst) x)) = elem_size lst) /\
  (forall it, capacity lst <= it -> list_get ndebug lst it = Ok None) /\
  (forall it, it ∈ fr -> prev_at lst it = Ok it /\ list_get ndebug lst it = Ok None) /\
  list_get ndebug lst 0 = Ok (Some 0).
Proof.
  intros R.
  pose proof (assert_verified_ok ndebug _ _ _ R) as Hassert.
  pose proof (rep_capacity _ _ _ R) as Hcap.
  unfold list_get. rewrite Hassert. cbn [obind].
  split; [|split; [|split]].
  - intros x Hx. apply list_elem_of_split in Hx as (l1 & l2 & ->).
    destruct (check_iterator_active _ _ _ l1 x l2 R eq_refl) as (-> & _).
    split; [done|].
    assert (Hr : 0 < x < capacity lst) by (apply (rep_act_range _ _ _ R); set_solver).
    destruct R as [(d & ns & ps & Hd & _ & _ & Hld & _) Hes _ _ _ _ _ _].
    exists d. split; [done|]. split.
    + apply elem_at_payload; (done || nia).
    + unfold payload. rewrite length_take, length_drop. nia.
  - intros it Hit. rewrite check_iterator_beyond by lia. done.
  - intros it Hit. rewrite (check_iterator_free _ _ _ _ R Hit). split; [|done].
    destruct R as [(d & ns & ps & _ & _ & Hps & _ & _ & _ & _ & _ & _ & Hself) _ _ _ _ _ _ _].
    rewrite Forall_forall in Hself. unfold prev_at. rewrite Hps.
    apply rd_Ok. by apply Hself.
  - done.
Qed.

Lemma list_get_spec_witness :
  list_get true swapped3 2 = Ok (Some (2 * elem_size swapped3)) /\
  list_get true swapped3 4 = Ok None /\
  list_get true swapped3 3 = Ok None /\
  list_get true swapped3 0 = Ok (Some 0).
Proof.
  destruct (list_get_spec true swapped3 [2; 1] [3] swapped3_rep) as (Ha & Hb & Hf & H0).
  split; [|split; [|split]].
  - apply Ha. by apply (bool_decide_unpack _).
  - apply Hb. vm_compute. discriminate.
  - apply Hf. by apply (bool_decide_unpack _).
  - exact H0.
Defined.

(** C4: [list_clear] does not reset [head] and [tail].  On the valid
    two-element list [swapped2], with the asserts compiled out, it returns
    [LIST_NO_ERR] and leaves [head = 2] and [tail = 1] in a list of capacity
    1, which [list_verify] rejects with [LIST_BAD_HEAD_ITERATOR]; with the
    asserts compiled in, the assert at the entry of [list_change_capacity]
    fails, since [size] was already set to 1. *)
Theorem clear_leaves_head_and_tail :
  reachable true swapped2 /\
  list_clear true swapped2 heap0 = Ok ((LIST_NO_ERR, swapped2_cleared), heap0) /\
  head swapped2_cleared = 2 /\ tail swapped2_cleared = 1 /\
  capacity swapped2_cleared = 1 /\
  list_verify swapped2_cleared = Ok LIST_BAD_HEAD_ITERATOR /\
  list_clear false swapped2 heap0 = AssertFail.
Proof.
  split; [apply swapped2_reachable|]. repeat split; reflexivity.
Qed.

(** C5, as stated, fails on the shrinking path.  The list [gapped3] is valid
    and holds [0b; 0c] in the slots 2 and 3.  When the first allocation is
    refused, [list_change_capacity(lst, 2)] returns [LIST_ALLOC_ERR], but
    [list_normalize] has run: the elements are now in the slots 1 and 2, and
    [head], [tail], [first_free], the links and the flag have changed.  The
    list left is valid and its traversal is the same. *)
Lemma failed_shrink_moves_elements :
  list_verify gapped3 = Ok LIST_NO_ERR /\
  list_change_capacity true gapped3 2 (mkHeap [false] 0)
  = Ok ((LIST_ALLOC_ERR, gapped3_normalized), heap0) /\
  list_change_capacity false gapped3 2 (mkHeap [false] 0)
  = Ok ((LIST_ALLOC_ERR, gapped3_normalized), heap0) /\
  gapped3_normalized <> gapped3 /\
  elem_at gapped3 2 = Ok [x0b] /\ list_get true gapped3 1 = Ok None /\
  elem_at gapped3_normalized 1 = Ok [x0b] /\
  list_get true gapped3_normalized 1 = Ok (Some 1) /\
  list_get true gapped3_normalized 3 = Ok None /\
  list_verify gapped3_normalized = Ok LIST_NO_ERR /\
  list_print true gapped3 = Ok [[x0b]; [x0c]] /\
  list_print true gapped3_normalized = Ok [[x0b]; [x0c]].
Proof. repeat split; try reflexivity. discriminate. Qed.

(** C5, amended: for a valid list and a request not below [size], when the
    allocator refuses one of the three arrays [list_change_capacity] returns
    [LIST_ALLOC_ERR] and has released the temporary buffers (as many blocks
    are live as before).  The list is exactly as before unless the request
    shrinks the capacity of a list not flagged normalized.  In that case
    [list_normalize] has run before the allocation: if no element sits in a
    slot below its position, the list left is valid and flagged normalized,
    its elements occupy the slots [1 .. size - 1] in their order, and its
    traversal, [size], [capacity] and [elem_size] are as before. *)
Theorem change_capacity_allocation_failure ndebug lst act fr n h :
  Rep lst act fr ->
  size lst <= wrap (n + 1) ->
  refuses_one_of_three h ->
  exists lst' h',
    list_change_capacity ndebug lst n h = Ok ((LIST_ALLOC_ERR, lst'), h') /\
    live h' = live h /\
    (capacity lst <= wrap (n + 1) \/ normalized lst = true -> lst' = lst) /\
    (wrap (n + 1) < capacity lst -> normalized lst = false ->
     (forall k x, act !! k = Some x -> Z.of_nat k + 1 <= x) ->
     normalized lst' = true /\
     (exists fr', Rep lst' (seqZ 1 (size lst - 1)) fr') /\
     list_verify lst' = Ok LIST_NO_ERR /\
     list_print ndebug lst' = list_print ndebug lst /\
     size lst' = size lst /\ capacity lst' = capacity lst /\
     elem_size lst' = elem_size lst).
Proof.
  intros R Hsize Href.
  pose proof (assert_verified_ok ndebug _ _ _ R) as Hassert.
  destruct (list_normalize_ok ndebug _ _ _ R) as (lstn & Hnorm & Hcapn & Hszn & Hesn & _).
  unfold list_change_capacity.
  rewrite Hassert, mbind_lift_Ok. cbv zeta.
  set (nc := wrap (n + 1)) in *.
  destruct (Z.ltb_spec nc (size lst)); [lia|].
  set (lst1 := if (nc <? capacity lst) && negb (normalized lst) then lstn else lst).
  assert (Hpre : (if nc <? capacity lst then list_normalize ndebug lst else Ok lst)
                 = Ok lst1).
  { unfold lst1. destruct (nc <? capacity lst); [|done]. cbn.
    destruct (normalized lst) eqn:En; cbn; [|done].
    unfold list_normalize. by rewrite Hassert, En. }
  rewrite Hpre, mbind_lift_Ok.
  rewrite (mbind_Ok _ _ _ _ _ (calloc_eq _ _ _ _)).
  rewrite (mbind_Ok _ _ _ _ _ (calloc_eq _ _ _ _)).
  rewrite (mbind_Ok _ _ _ _ _ (calloc_eq _ _ _ _)).
  cbn [supply live].
  set (a := granted h _ _ _). set (b := granted _ _ _ _). set (c := granted _ _ _ _).
  assert (Hnull : is_null a || is_null b || is_null c = true).
  { unfold refuses_one_of_three in Href. unfold a, b, c, granted. cbn [supply].
    destruct (supply h) as [|b1 [|b2 [|b3 s]]]; cbn in Href |- *.
    - set_solver.
    - assert (b1 = false) as -> by set_solver. done.
    - assert (b1 = false \/ b2 = false) as [->| ->] by set_solver; [done|].
      cbn. by destruct (if b1 && _ then _ else _).
    - assert (b1 = false \/ b2 = false \/ b3 = false) as [->|[->| ->]] by set_solver;
        cbn; [done| |].
      + by destruct (if b1 && _ then _ else _).
      + by destruct (if b1 && _ then _ else _), (if b2 && _ then _ else _). }
  rewrite Hnull.
  rewrite (mbind_Ok _ _ _ _ _ (free_eq _ _)).
  rewrite (mbind_Ok _ _ _ _ _ (free_eq _ _)).
  rewrite (mbind_Ok _ _ _ _ _ (free_eq _ _)).
  unfold mret. eexists lst1, _. split; [reflexivity|]. split; [|split].
  - cbn. destruct (is_null a), (is_null b), (is_null c); lia.
  - intros Hsame. unfold lst1.
    destruct (Z.ltb_spec nc (capacity lst)); [|done].
    destruct Hsame as [?| ->]; [lia|done].
  - intros Hshrink Hflag Hup.
    assert (lst1 = lstn) as ->.
    { unfold lst1. destruct (Z.ltb_spec nc (capacity lst)); [|lia]. by rewrite Hflag. }
    destruct (decide (act = [])) as [->|Hne].
    + pose proof (rep_size _ _ _ R) as Hs. cbn in Hs.
      assert (lstn = set_normalized lst true) as ->.
      { unfold list_normalize in Hnorm. rewrite Hassert, Hflag in Hnorm.
        cbn [obind] in Hnorm.
        destruct (Z.eqb_spec (size lst) 1); [|lia]. by injection Hnorm as <-. }
      pose proof (rep_set_normalized _ _ _ true R) as R1.
      rewrite Hs. change (seqZ 1 (1 - 1)) with (@nil Z).
      split; [done|]. split; [by exists fr|]. split; [by eapply list_verify_ok|].
      split; [|done].
      pose proof (rep_blocks _ _ _ R) as (d & _ & _ & Hd & _).
      rewrite (list_print_rep ndebug _ _ _ d R1) by done.
      by rewrite (list_print_rep ndebug _ _ _ d R) by done.
    + destruct (list_normalize_upward_ok ndebug _ _ _ R Hflag Hne Hup)
        as (lst'' & Hnorm' & R' & Hn' & Hs' & Hc' & He' & Hv' & Hp').
      rewrite Hnorm in Hnorm'. injection Hnorm' as <-.
      split; [done|]. split; [by eexists|]. done.
Qed.

Lemma change_capacity_allocation_failure_witness :
  exists lst' h',
    list_change_capacity true gapped3 2 (mkHeap [true; false] 0)
    = Ok ((LIST_ALLOC_ERR, lst'), h') /\
    live h' = 0 /\
    normalized lst' = true /\
    (exists fr', Rep lst' [1; 2] fr') /\
    list_verify lst' = Ok LIST_NO_ERR /\
    list_print true lst' = list_print true gapped3.
Proof.
  destruct (change_capacity_allocation_failure true gapped3 [2; 3] [1] 2
              (mkHeap [true; false] 0) gapped3_rep)
    as (lst' & h' & Hrun & Hlive & _ & Hshrink).
  - vm_compute. discriminate.
  - unfold refuses_one_of_three. cbn. by apply (bool_decide_unpack _).
  - exists lst', h'. split; [exact Hrun|]. split; [exact Hlive|].
    destruct Hshrink as (Hn & HR & Hv & Hp & _).
    + reflexivity.
    + reflexivity.
    + intros [|[|k]] x; cbn; intros [= <-]; lia.
    + split; [exact Hn|]. split; [exact HR|]. split; [exact Hv|exact Hp].
Defined.

(** C6: the flag [normalized] follows the claim wherever an insertion finds
    a free slot, and does not where it has to grow the arrays.

    On a valid list with a free slot every insertion at a valid position,
    of a value of at least [elem_size] bytes, returns [LIST_NO_ERR];
    afterwards the flag is its old value if the new element was linked right
    after the tail (the position given was the tail, so that the new element
    is the last of the sequence) and false otherwise.  So
    [list_insert_to_tail] and [list_insert_before] the virtual element keep
    the flag, [list_insert_before] an element clears it, and
    [list_insert_to_head] keeps it on an empty list only.  On a valid list
    [list_erase] of an element returns [LIST_NO_ERR]; afterwards the flag is
    its old value if the tail was erased and false otherwise.

    On the full list [pair2], flagged normalized, an insertion at the tail
    has to grow the arrays and reads behind their end.  Where that memory can
    be read, the flag afterwards depends on the cell behind [nexts]: it is
    still set if the cell holds 0, and it is cleared, although the insertion
    was at the tail and returned [LIST_NO_ERR], if the cell holds 1. *)
Theorem normalized_flag_after_mutation (ndebug : bool) :
  (forall lst l1 l2 fr v h,
     Rep lst (l1 ++ l2) fr -> size lst < capacity lst ->
     elem_size lst <= Z.of_nat (length v) ->
     ((last0 l1 =? tail lst) = bool_decide (l2 = [])) /\
     (exists la,
        list_insert_after ndebug lst (last0 l1) v h = Ok ((LIST_NO_ERR, la), h) /\
        normalized la = normalized lst && (last0 l1 =? tail lst)) /\
     (forall x l2', l2 = x :: l2' ->
        exists lb,
          list_insert_before ndebug lst x v h = Ok ((LIST_NO_ERR, lb), h) /\
          normalized lb = false) /\
     (exists lb,
        list_insert_before ndebug lst 0 v h = Ok ((LIST_NO_ERR, lb), h) /\
        normalized lb = normalized lst) /\
     (exists lt,
        list_insert_to_tail ndebug lst v h = Ok ((LIST_NO_ERR, lt), h) /\
        normalized lt = normalized lst) /\
     (exists lh,
        list_insert_to_head ndebug lst v h = Ok ((LIST_NO_ERR, lh), h) /\
        normalized lh = normalized lst && bool_decide (l1 ++ l2 = []))) /\
  (forall lst l1 x l2 fr,
     Rep lst (l1 ++ x :: l2) fr ->
     exists le it',
       list_erase ndebug lst x = Ok (LIST_NO_ERR, le, it') /\
       normalized le = normalized lst && (x =? tail lst) /\
       (x =? tail lst) = bool_decide (l2 = [])) /\
  built_in_place ndebug pair2 /\
  normalized pair2 = true /\ size pair2 = capacity pair2 /\
  list_tail ndebug pair2 = Ok 2 /\
  list_insert_to_tail ndebug pair2 [x0d] heap0 = Undef /\
  list_insert_after ndebug pair2 2 [x0d] heap0 = Undef /\
  (forall g3 g4 g5 g6 n4 n5 n6 p3 p4 p5 p6,
     list_insert_to_tail ndebug (pair2_padded g3 g4 g5 g6 0 n4 n5 n6 p3 p4 p5 p6)
       [x0d] heap0
     = Ok ((LIST_NO_ERR, pair2_grown g4 g5 g6), heap0) /\
     normalized (pair2_grown g4 g5 g6) = true /\
     list_insert_to_tail ndebug (pair2_padded g3 g4 g5 g6 1 n4 n5 n6 p3 p4 p5 p6)
       [x0d] heap0
     = Ok ((LIST_NO_ERR, pair2_tangled g4 g5 g6), heap0) /\
     normalized (pair2_tangled g4 g5 g6) = false).
Proof.
  split; [|split].
  - intros lst l1 l2 fr v h R Hroom Hv.
    pose proof (assert_verified_ok ndebug _ _ _ R) as Hassert.
    pose proof (tail_position _ _ _ _ R) as Htail.
    destruct (rep_room _ _ _ R Hroom) as (fr' & ->).
    set (p := first_free lst) in *.
    (* an insertion after the position [k1], with [k2] following it *)
    assert (Hins : forall k1 k2, l1 ++ l2 = k1 ++ k2 ->
               exists l',
                 list_insert_after ndebug lst (last0 k1) v h = Ok ((LIST_NO_ERR, l'), h) /\
                 normalized l' = normalized lst && bool_decide (k2 = [])).
    { intros k1 k2 E. rewrite E in R.
      destruct (list_insert_after_room ndebug _ _ _ _ _ v h R Hv)
        as (l' & Hrun & _ & Hflag & _).
      by exists l'. }
    split; [exact Htail|]. split; [|split; [|split; [|split]]].
    + destruct (Hins l1 l2 eq_refl) as (la & Hrun & Hflag).
      exists la. split; [done|]. by rewrite Htail.
    + intros x l2' ->.
      destruct (Hins l1 (x :: l2') eq_refl) as (lb & Hrun & Hflag).
      exists lb. split.
      * destruct (check_iterator_active _ _ _ l1 x l2' R eq_refl) as (_ & Hprev & _).
        unfold list_insert_before.
        by rewrite Hassert, mbind_lift_Ok, Hprev, mbind_lift_Ok.
      * rewrite Hflag. by rewrite andb_false_r.
    + destruct (Hins (l1 ++ l2) []) as (lb & Hrun & Hflag); [by rewrite app_nil_r|].
      exists lb. split.
      * unfold list_insert_before.
        rewrite Hassert, mbind_lift_Ok, (rep_prev_sentinel _ _ _ R), mbind_lift_Ok.
        by rewrite (rep_tail _ _ _ R).
      * rewrite Hflag. by rewrite andb_true_r.
    + destruct (Hins (l1 ++ l2) []) as (lt & Hrun & Hflag); [by rewrite app_nil_r|].
      exists lt. split.
      * unfold list_insert_to_tail. rewrite Hassert, mbind_lift_Ok.
        by rewrite (rep_tail _ _ _ R).
      * rewrite Hflag. by rewrite andb_true_r.
    + destruct (Hins [] (l1 ++ l2) eq_refl) as (lh & Hrun & Hflag).
      exists lh. split; [|done].
      unfold list_insert_to_head, list_insert_before.
      rewrite Hassert, !mbind_lift_Ok.
      assert (Hprev : prev_at lst (head lst) = Ok 0).
      { destruct (decide (l1 ++ l2 = [])) as [E|Hne].
        - rewrite (rep_head _ _ _ R), E. cbn.
          rewrite (rep_prev_sentinel _ _ _ R), (rep_tail _ _ _ R), E. done.
        - by apply (rep_prev_head _ _ _ R). }
      by rewrite Hprev, mbind_lift_Ok.
  - intros lst l1 x l2 fr R.
    destruct (list_erase_active ndebug _ _ _ _ _ R) as (le & Hrun & _ & Hflag & _).
    assert (Htail : (x =? tail lst) = bool_decide (l2 = [])).
    { rewrite (rep_tail _ _ _ R). apply eqb_last0_split.
      pose proof (rep_NoDup _ _ _ R) as Hnd.
      apply NoDup_cons in Hnd as [_ Hnd]. by apply NoDup_app in Hnd as [? _]. }
    eexists le, _. split; [exact Hrun|]. by rewrite Htail.
  - split; [apply pair2_built|].
    destruct ndebug; repeat split; reflexivity.
Qed.

Lemma normalized_flag_after_mutation_witness :
  (exists lt,
     list_insert_to_tail true fresh3 [x0b] heap0 = Ok ((LIST_NO_ERR, lt), heap0) /\
     normalized lt = normalized fresh3) /\
  (exists lh,
     list_insert_to_head true single3 [x0a] heap0 = Ok ((LIST_NO_ERR, lh), heap0) /\
     normalized lh = normalized single3 && bool_decide ([1] = @nil Z)) /\
  (exists le it',
     list_erase true swapped3 2 = Ok (LIST_NO_ERR, le, it') /\
     normalized le = normalized swapped3 && (2 =? tail swapped3) /\
     (2 =? tail swapped3) = bool_decide ([1] = @nil Z)).
Proof.
  destruct (normalized_flag_after_mutation true) as (Hins & Hers & _).
  split; [|split].
  - destruct (Hins fresh3 [] [] [1; 2; 3] [x0b] heap0 fresh3_rep)
      as (_ & _ & _ & _ & Ht & _); [reflexivity|vm_compute; discriminate|exact Ht].
  - destruct (Hins single3 [] [1] [2; 3] [x0a] heap0 single3_rep)
      as (_ & _ & _ & _ & _ & Hh); [reflexivity|vm_compute; discriminate|exact Hh].
  - exact (Hers swapped3 [] 2 [1] [3] swapped3_rep).
Defined.

(** C7: on a valid list, [list_erase] of iterator 0 returns [LIST_NO_ERR]
    and changes nothing; [list_erase] of an active slot [x] returns
    [LIST_NO_ERR], takes [x] out of the active chain (the traversal yields
    the former contents without the element of [x]), puts it at the front of
    the free chain ([first_free = x], [nexts[x]] the former [first_free],
    [prevs[x] = x]), decrements [size], moves [head] or [tail] when [x] was
    the head or the tail, and sets the iterator to the next element if there
    is one and to the previous element (0 if there is none) otherwise. *)
Theorem list_erase_spec ndebug lst act fr :
  Rep lst act fr ->
  list_erase ndebug lst 0 = Ok (LIST_NO_ERR, lst, 0) /\
  (forall l1 x l2,
      act = l1 ++ x :: l2 ->
      exists lst' d,
        list_erase ndebug lst x
        = Ok (LIST_NO_ERR, lst',
              if bool_decide (l2 = []) then last0 l1 else hd0 l2) /\
        Rep lst' (l1 ++ l2) (x :: fr) /\
        data lst = Some d /\ data lst' = Some d /\
        list_print ndebug lst
        = Ok (payload d (elem_size lst) <$> (l1 ++ x :: l2)) /\
        list_print ndebug lst'
        = Ok (payload d (elem_size lst) <$> (l1 ++ l2)) /\
        size lst' = size lst - 1 /\
        first_free lst' = x /\
        next_at lst' x = Ok (first_free lst) /\
        prev_at lst' x = Ok x /\
        head lst' = (if bool_decide (l1 = []) then hd0 l2 else head lst) /\
        tail lst' = (if bool_decide (l2 = []) then last0 l1 else tail lst) /\
        elem_size lst' = elem_size lst /\
        capacity lst' = capacity lst).
Proof.
  intros R.
  pose proof (assert_verified_ok ndebug _ _ _ R) as Hassert.
  split.
  - unfold list_erase. by rewrite Hassert.
  - intros l1 x l2 ->.
    destruct (list_erase_active ndebug _ _ _ _ _ R) as (lst' & Hrun & R' & Hn & Hd & He & Hc).
    pose proof (rep_blocks _ _ _ R) as (d & _ & _ & Hdata & _).
    exists lst', d. split; [done|]. split; [done|].
    split; [done|]. split; [congruence|].
    split; [by apply (list_print_rep _ _ _ fr)|].
    split; [rewrite <- He; apply (list_print_rep _ _ _ (x :: fr)); congruence|].
    pose proof (rep_size _ _ _ R) as Hs. pose proof (rep_size _ _ _ R') as Hs'.
    pose proof (rep_capacity _ _ _ R) as Hcap.
    rewrite length_app in Hs, Hs', Hcap. cbn in Hs.
    split; [lia|]. split; [apply (rep_first_free _ _ _ R')|].
    split; [|split; [|split; [|split]]]; try done.
    + pose proof (rep_first_free _ _ _ R) as Hff.
      assert (Hffhd : first_free lst = hd0 fr).
      { destruct fr; [|done]. destruct Hff as [?|[? ?]]; [done|]. cbn in Hcap. lia. }
      destruct R' as [(d' & ns & ps & _ & Hns & _ & _ & _ & _ & _ & _ & Hfree & _) _ _ _ _ _ _ _].
      unfold next_at. rewrite Hns, Hffhd. apply rd_Ok.
      destruct (cons_hd0 fr) as [V HV]. simpl in Hfree. rewrite HV in Hfree.
      by destruct Hfree.
    + destruct R' as [(d' & ns & ps & _ & _ & Hps & _ & _ & _ & _ & _ & _ & Hself) _ _ _ _ _ _ _].
      unfold prev_at. rewrite Hps. apply rd_Ok.
      by apply Forall_cons in Hself as [? _].
    + rewrite (rep_head _ _ _ R'), (rep_head _ _ _ R).
      destruct (decide (l1 = [])) as [->|Hne].
      * by rewrite bool_decide_eq_true_2.
      * rewrite bool_decide_eq_false_2 by done. by rewrite !hd0_app_nonempty.
    + rewrite (rep_tail _ _ _ R'), (rep_tail _ _ _ R).
      destruct (decide (l2 = [])) as [->|Hne].
      * rewrite bool_decide_eq_true_2 by done. by rewrite app_nil_r.
      * rewrite bool_decide_eq_false_2 by done.
        by rewrite last0_app_cons, last0_cons_nonempty, last0_app_nonempty.
Qed.

Lemma list_erase_spec_witness :
  list_erase true swapped3 0 = Ok (LIST_NO_ERR, swapped3, 0) /\
  exists lst',
    list_erase true swapped3 2 = Ok (LIST_NO_ERR, lst', 1) /\
    Rep lst' [1] [2; 3] /\ size lst' = 2 /\ first_free lst' = 2 /\
    list_print true lst' = Ok [[x0b]].
Proof.
  destruct (list_erase_spec true swapped3 [2; 1] [3] swapped3_rep) as [H0 Hx].
  split; [exact H0|].
  destruct (Hx [] 2 [1] eq_refl)
    as (lst' & d & Hrun & R' & Hd & _ & _ & Hprint & Hs & Hf & _).
  exists lst'. split; [exact Hrun|]. split; [exact R'|].
  split; [exact Hs|]. split; [exact Hf|].
  injection Hd as <-. exact Hprint.
Defined.

(** C8: growing and then shrinking does not preserve the contents.  On the
    valid list [swapped3] (capacity 4, elements [0a; 0b]) growing to capacity
    6 copies six entries out of arrays of four, an out-of-bounds read; and
    shrinking to capacity 3, which goes through [list_normalize], reports
    [LIST_NO_ERR] and leaves a list whose traversal yields [0b] alone.  Where
    the memory behind the arrays is readable ([swapped3_padded]), whatever it
    holds, the growth succeeds and yields a valid list with the same
    traversal, and shrinking that list to capacity 3 leaves the same list
    whose traversal yields [0b] alone. *)
Theorem grow_then_shrink_loses_contents (ndebug : bool) :
  reachable ndebug swapped3 /\
  list_print ndebug swapped3 = Ok [[x0a]; [x0b]] /\
  list_change_capacity ndebug swapped3 5 heap0 = Undef /\
  list_change_capacity ndebug swapped3 2 heap0
  = Ok ((LIST_NO_ERR, swapped3_shrunk), heap0) /\
  list_print true swapped3_shrunk = Ok [[x0b]] /\
  (forall g1 g2 n4 n5 p4 p5,
     list_verify (swapped3_padded g1 g2 n4 n5 p4 p5) = Ok LIST_NO_ERR /\
     list_change_capacity ndebug (swapped3_padded g1 g2 n4 n5 p4 p5) 5 heap0
     = Ok ((LIST_NO_ERR, swapped3_grown g1 g2), heap0) /\
     list_verify (swapped3_grown g1 g2) = Ok LIST_NO_ERR /\
     list_print ndebug (swapped3_grown g1 g2) = Ok [[x0a]; [x0b]] /\
     list_change_capacity ndebug (swapped3_grown g1 g2) 2 heap0
     = Ok ((LIST_NO_ERR, swapped3_shrunk), heap0)).
Proof.
  split; [apply swapped3_reachable|].
  destruct ndebug; repeat split; reflexivity.
Qed.

(** C9: [list_insert_before] reads [prevs[it]] before any validation.  On
    the list [fresh2] of capacity 3 the iterator 3 is out of range:
    [list_insert_after] and [list_erase] return [LIST_BAD_ITERATOR] and leave
    the list alone, but [list_insert_before] reads [prevs[3]], past the end
    of the array. *)
Theorem insert_before_reads_before_checking (ndebug : bool) :
  reachable ndebug fresh2 /\
  capacity fresh2 = 3 /\
  list_check_iterator fresh2 3 = Ok false /\
  list_insert_after ndebug fresh2 3 [x0a] heap0
  = Ok ((LIST_BAD_ITERATOR, fresh2), heap0) /\
  list_erase ndebug fresh2 3 = Ok (LIST_BAD_ITERATOR, fresh2, 3) /\
  prev_at fresh2 3 = Undef /\
  list_insert_before ndebug fresh2 3 [x0a] heap0 = Undef.
Proof.
  split; [apply fresh2_reachable|].
  destruct ndebug; repeat split; reflexivity.
Qed.

(** C10: [list_verify] of a null handle is [LIST_NO_ERR]; a destroyed
    handle and the handle of a failed creation are null, so the verifier
    reports success for them. *)
Theorem verify_accepts_null_handle :
  list_verify_func_ None = Ok LIST_NO_ERR /\
  (forall (h : list_t) (hp : heap),
      exists h' hp', list_destroy h hp = Ok (h', hp') /\
                     list_verify_func_ h' = Ok LIST_NO_ERR) /\
  (forall (start_capacity : Z) (hp : heap),
      exists h', list_create_func_ start_capacity 0 hp = Ok (h', hp) /\
                 list_verify_func_ h' = Ok LIST_NO_ERR).
Proof.
  split; [reflexivity|]. split.
  - intros [lst|] hp; [|by eexists _, _].
    unfold list_destroy. rewrite !(mbind_Ok _ _ _ _ _ (free_eq _ _)).
    by eexists _, _.
  - intros sc hp. by exists None.
Qed.

(** * Further properties of the engine *)

(** ** Creation and destruction *)

Lemma granted_Some {A : Type} (h : heap) count width (zero : A) :
  List.hd true (supply h) = true -> count * width < SIZE_MODULUS ->
  granted h count width zero = Some (replicate (Z.to_nat count) zero).
Proof.
  intros Hhd Hsz. unfold granted. rewrite Hhd.
  destruct (Z.ltb_spec (count * width) SIZE_MODULUS); [done|lia].
Qed.

Lemma list_create_init_total d cap es :
  1 <= cap < SIZE_MODULUS ->
  exists lst,
    list_create_init d (Some (replicate (Z.to_nat cap) 0))
                     (Some (replicate (Z.to_nat cap) 0)) cap es = Ok lst.
Proof.
  intros Hcap. unfold list_create_init.
  unfold next_put at 1. cbn.
  rewrite wr_Ok by (rewrite length_replicate; lia). cbn.
  unfold prev_put at 1. cbn.
  rewrite wr_Ok by (rewrite length_replicate; lia). cbn.
  edestruct (free_slots_loop cap (Z.to_nat (cap - 1)) 1) as
      (ns' & ps' & Hrun & _); [| | | | | |rewrite Hrun; by eexists];
    try reflexivity; cbn; rewrite ?length_upd, ?length_replicate; lia.
Qed.

Lemma list_create_succeeds sc es h :
  0 <= sc -> 1 <= es ->
  (sc + 1) * es < SIZE_MODULUS -> (sc + 1) * SIZEOF_SIZE_T < SIZE_MODULUS ->
  false ∉ take 4 (supply h) ->
  exists lst,
    list_create_func_ sc es h
    = Ok (Some lst, mkHeap (drop 4 (supply h)) (live h + 4)).
Proof.
  intros Hsc Hes Hd Hl Hgrant.
  assert (Hmod : SIZE_MODULUS = 18446744073709551616) by reflexivity.
  assert (Hw : wrap (sc + 1) = sc + 1).
  { apply wrap_small. unfold SIZEOF_SIZE_T in Hl. lia. }
  unfold list_create_func_.
  destruct (Z.eqb_spec es 0); [lia|].
  rewrite (mbind_Ok _ _ _ _ _ (calloc_eq _ _ _ _)).
  destruct (supply h) as [|b1 s1] eqn:Es.
  - rewrite granted_Some by (rewrite ?Es; done). cbn [is_null].
    rewrite Hw.
    rewrite (mbind_Ok _ _ _ _ _ (calloc_eq _ _ _ _)), granted_Some by (done || lia).
    rewrite (mbind_Ok _ _ _ _ _ (calloc_eq _ _ _ _)), granted_Some by (done || lia).
    rewrite (mbind_Ok _ _ _ _ _ (calloc_eq _ _ _ _)), granted_Some by (done || lia).
    cbn [is_null orb supply live List.tl].
    destruct (list_create_init_total
                (Some (replicate (Z.to_nat ((sc + 1) * es)) x00)) (sc + 1) es)
      as (lst & Hinit); [unfold SIZEOF_SIZE_T in Hl; lia|].
    rewrite Hinit, mbind_lift_Ok. exists lst. unfold mret. do 3 f_equal. lia.
  - assert (b1 = true) as -> by (destruct b1; [done|]; set_solver).
    rewrite granted_Some by (rewrite ?Es; done). cbn [is_null].
    rewrite Hw.
    destruct (list_create_init_total
                (Some (replicate (Z.to_nat ((sc + 1) * es)) x00)) (sc + 1) es)
      as (lst & Hinit); [unfold SIZEOF_SIZE_T in Hl; lia|].
    exists lst.
    destruct s1 as [|b2 s2].
    { rewrite (mbind_Ok _ _ _ _ _ (calloc_eq _ _ _ _)), granted_Some by (done || lia).
      rewrite (mbind_Ok _ _ _ _ _ (calloc_eq _ _ _ _)), granted_Some by (done || lia).
      rewrite (mbind_Ok _ _ _ _ _ (calloc_eq _ _ _ _)), granted_Some by (done || lia).
      cbn [is_null orb supply live List.tl].
      rewrite Hinit, mbind_lift_Ok. unfold mret. do 3 f_equal. lia. }
    assert (b2 = true) as -> by (destruct b2; [done|]; set_solver).
    rewrite (mbind_Ok _ _ _ _ _ (calloc_eq _ _ _ _)), granted_Some by (done || lia).
    destruct s2 as [|b3 s3].
    { rewrite (mbind_Ok _ _ _ _ _ (calloc_eq _ _ _ _)), granted_Some by (done || lia).
      rewrite (mbind_Ok _ _ _ _ _ (calloc_eq _ _ _ _)), granted_Some by (done || lia).
      cbn [is_null orb supply live List.tl].
      rewrite Hinit, mbind_lift_Ok. unfold mret. do 3 f_equal. lia. }
    assert (b3 = true) as -> by (destruct b3; [done|]; set_solver).
    rewrite (mbind_Ok _ _ _ _ _ (calloc_eq _ _ _ _)), granted_Some by (done || lia).
    destruct s3 as [|b4 s4].
    { rewrite (mbind_Ok _ _ _ _ _ (calloc_eq _ _ _ _)), granted_Some by (done || lia).
      cbn [is_null orb supply live List.tl].
      rewrite Hinit, mbind_lift_Ok. unfold mret. do 3 f_equal. lia. }
    assert (b4 = true) as -> by (destruct b4; [done|]; set_solver).
    rewrite (mbind_Ok _ _ _ _ _ (calloc_eq _ _ _ _)), granted_Some by (done || lia).
    cbn [is_null orb supply live List.tl].
    rewrite Hinit, mbind_lift_Ok. unfold mret. do 3 f_equal. lia.
Qed.

(** X1: with an element size of at least one byte, sizes that fit in
    [size_t] and an allocator that grants the four requests, [list_create]
    returns a valid empty list: [list_verify] accepts it, [list_size] is 0,
    [list_capacity] is the requested capacity, the list is flagged
    normalized, head and tail are the virtual element, the traversal yields
    nothing, all slots [1 .. start_capacity] are free in increasing order,
    and four blocks have been allocated. *)
Theorem list_create_gives_empty_list ndebug sc es h :
  0 <= sc -> 1 <= es ->
  (sc + 1) * es < SIZE_MODULUS -> (sc + 1) * SIZEOF_SIZE_T < SIZE_MODULUS ->
  false ∉ take 4 (supply h) ->
  exists lst h',
    list_create_func_ sc es h = Ok (Some lst, h') /\
    live h' = live h + 4 /\
    Rep lst [] (seqZ 1 sc) /\
    list_verify lst = Ok LIST_NO_ERR /\
    list_size lst = 0 /\ list_capacity lst = sc /\ elem_size lst = es /\
    list_is_normalized ndebug lst = Ok true /\
    list_head ndebug lst = Ok 0 /\ list_tail ndebug lst = Ok 0 /\
    list_print ndebug lst = Ok [].
Proof.
  intros Hsc Hes Hd Hl Hgrant.
  assert (Hmod : SIZE_MODULUS = 18446744073709551616) by reflexivity.
  assert (Hw : wrap (sc + 1) = sc + 1).
  { apply wrap_small. unfold SIZEOF_SIZE_T in Hl. lia. }
  destruct (list_create_succeeds sc es h) as (lst & Hrun); try done.
  assert (Hsc' : 0 <= sc < SIZE_MODULUS) by (unfold SIZEOF_SIZE_T in Hl; lia).
  assert (Hes' : 0 <= es < SIZE_MODULUS) by nia.
  destruct (list_create_rep sc es h lst _ Hsc' Hes' Hrun)
    as (R & Hcap & Hesz & Hsize & Hnorm).
  rewrite Hw in Hcap. rewrite Hcap in R.
  replace (sc + 1 - 1) with sc in R by lia.
  pose proof (assert_verified_ok ndebug _ _ _ R) as Hassert.
  pose proof (rep_blocks _ _ _ R) as (d & _ & _ & Hdata & _).
  eexists lst, _. split; [exact Hrun|]. split; [done|]. split; [done|].
  split; [by eapply list_verify_ok|].
  unfold list_size, list_capacity, list_is_normalized, list_head, list_tail.
  rewrite Hsize, Hcap, Hassert, Hnorm, (rep_head _ _ _ R), (rep_tail _ _ _ R).
  replace (sc + 1 - 1) with sc by lia.
  rewrite (wrap_small sc) by (unfold SIZEOF_SIZE_T in Hl; lia).
  repeat split; try done.
  by rewrite (list_print_rep ndebug _ _ _ d R Hdata).
Qed.

Lemma list_create_gives_empty_list_witness :
  exists lst h',
    list_create_func_ 3 1 heap0 = Ok (Some lst, h') /\
    live h' = 4 /\ Rep lst [] [1; 2; 3] /\ list_print true lst = Ok [].
Proof.
  destruct (list_create_gives_empty_list true 3 1 heap0)
    as (lst & h' & Hrun & Hlive & R & _ & _ & _ & _ & _ & _ & _ & Hprint).
  - lia.
  - lia.
  - reflexivity.
  - reflexivity.
  - cbn. set_solver.
  - exists lst, h'. split; [exact Hrun|]. split; [exact Hlive|].
    split; [exact R|exact Hprint].
Defined.

(** X2: [list_create] accounts for every block it allocates.  When it
    returns NULL (element size 0, or a refused allocation) as many blocks are
    live as before the call; when it returns a list, exactly four more. *)
Theorem list_create_accounts_for_blocks sc es h r h' :
  list_create_func_ sc es h = Ok (r, h') ->
  live h' = live h + match r with Some _ => 4 | None => 0 end.
Proof.
  unfold list_create_func_.
  destruct (es =? 0); [intros [= <- <-]; lia|].
  rewrite (mbind_Ok _ _ _ _ _ (calloc_eq _ _ _ _)).
  set (blk := granted h _ _ _).
  destruct blk as [blk|]; cbn [is_null]; [|intros [= <- <-]; cbn; lia].
  rewrite (mbind_Ok _ _ _ _ _ (calloc_eq _ _ _ _)).
  rewrite (mbind_Ok _ _ _ _ _ (calloc_eq _ _ _ _)).
  rewrite (mbind_Ok _ _ _ _ _ (calloc_eq _ _ _ _)).
  cbn [supply live].
  set (a := granted _ _ _ _). set (b := granted _ _ _ _). set (c := granted _ _ _ _).
  destruct (is_null a || is_null b || is_null c) eqn:Enull.
  - unfold list_destroy. cbn [data nexts prevs].
    rewrite !(mbind_Ok _ _ _ _ _ (free_eq _ _)).
    unfold mret. intros [= <- <-]. cbn.
    destruct (is_null a), (is_null b), (is_null c); lia.
  - intros (lst & _ & Hret)%mbind_lift_inv.
    injection Hret as <- <-. cbn.
    destruct a, b, c; try done. cbn. lia.
Qed.

Lemma list_create_accounts_for_blocks_witness :
  live (mkHeap [] 4) = live heap0 + 4 /\
  live heap0 = live (mkHeap [true; false] 0) + 0.
Proof.
  split.
  - apply (list_create_accounts_for_blocks 3 1 heap0 (Some fresh3) _ fresh3_created).
  - apply (list_create_accounts_for_blocks 3 1 (mkHeap [true; false] 0) None heap0).
    reflexivity.
Defined.

(** X3: destroying a list that [list_create] returned releases the four
    blocks: as many blocks are live as before the creation, and the handle
    returned is NULL.  Destroying the NULL handle does nothing. *)
Theorem create_then_destroy_releases sc es h lst h1 :
  0 <= sc < SIZE_MODULUS -> 0 <= es < SIZE_MODULUS ->
  list_create_func_ sc es h = Ok (Some lst, h1) ->
  exists h2,
    list_destroy (Some lst) h1 = Ok (None, h2) /\ live h2 = live h /\
    list_destroy None h2 = Ok (None, h2).
Proof.
  intros Hsc Hes Hrun.
  destruct (list_create_rep sc es h lst h1 Hsc Hes Hrun) as (R & _).
  pose proof (rep_blocks _ _ _ R) as (d & ns & ps & Hd & Hns & Hps & _).
  assert (Hlive : live h1 = live h + 4).
  { unfold list_create_func_ in Hrun.
    destruct (es =? 0); [done|].
    rewrite (mbind_Ok _ _ _ _ _ (calloc_eq _ _ _ _)) in Hrun.
    destruct (granted h 1 SIZEOF_LIST ()) as [blk|]; cbn [is_null] in Hrun; [|done].
    rewrite !(mbind_Ok _ _ _ _ _ (calloc_eq _ _ _ _)) in Hrun.
    cbn [supply live] in Hrun.
    set (a := granted _ _ _ _) in Hrun. set (b := granted _ _ _ _) in Hrun.
    set (c := granted _ _ _ _) in Hrun.
    destruct (is_null a || is_null b || is_null c) eqn:Enull.
    - unfold list_destroy in Hrun. cbn [data nexts prevs] in Hrun.
      rewrite !(mbind_Ok _ _ _ _ _ (free_eq _ _)) in Hrun. done.
    - apply mbind_lift_inv in Hrun as (l & _ & Hret).
      injection Hret as _ <-. cbn.
      destruct a, b, c; try done. cbn. lia. }
  unfold list_destroy. rewrite Hd, Hns, Hps.
  rewrite !(mbind_Ok _ _ _ _ _ (free_eq _ _)).
  eexists. split; [reflexivity|]. cbn. split; [lia|done].
Qed.

Lemma create_then_destroy_releases_witness :
  exists h2, list_destroy (Some fresh3) (mkHeap [] 4) = Ok (None, h2) /\
             live h2 = live heap0 /\ list_destroy None h2 = Ok (None, h2).
Proof.
  apply (create_then_destroy_releases 3 1 heap0 fresh3 (mkHeap [] 4)).
  - split; [lia|reflexivity].
  - split; [lia|reflexivity].
  - exact fresh3_created.
Defined.

(** ** Iterators and traversal *)

Lemma rep_not_active lst act fr it :
  Rep lst act fr -> 0 <= it -> it <> 0 -> it ∉ act ->
  it ∈ fr \/ capacity lst <= it.
Proof.
  intros R H0 Hnz Hna.
  destruct (decide (it < capacity lst)) as [Hlt|]; [left|right; lia].
  assert (Hin : it ∈ 0 :: act ++ fr) by (apply (rep_elem_of _ _ _ R); lia).
  set_solver.
Qed.

Lemma check_iterator_inactive lst act fr it :
  Rep lst act fr -> 0 <= it -> it <> 0 -> it ∉ act ->
  list_check_iterator lst it = Ok false.
Proof.
  intros R H0 Hnz Hna.
  destruct (rep_not_active _ _ _ _ R H0 Hnz Hna) as [Hf|Hb].
  - by eapply check_iterator_free.
  - by apply check_iterator_beyond.
Qed.

(** X4: on a valid list [list_check_iterator] accepts exactly the virtual
    element and the slots that hold an element; free slots and indices at or
    beyond the capacity are refused. *)
Theorem list_check_iterator_decides lst act fr it :
  Rep lst act fr -> 0 <= it ->
  list_check_iterator lst it = Ok (bool_decide (it = 0 \/ it ∈ act)).
Proof.
  intros R H0.
  destruct (decide (it = 0)) as [->|Hnz].
  { by rewrite bool_decide_eq_true_2 by (by left). }
  destruct (decide (it ∈ act)) as [Hin|Hna].
  - rewrite bool_decide_eq_true_2 by (by right).
    apply list_elem_of_split in Hin as (l1 & l2 & ->).
    by destruct (check_iterator_active _ _ _ l1 it l2 R eq_refl) as (-> & _).
  - rewrite bool_decide_eq_false_2 by (intros [?|?]; done).
    by eapply check_iterator_inactive.
Qed.

Lemma list_check_iterator_decides_witness :
  list_check_iterator swapped3 2 = Ok true /\
  list_check_iterator swapped3 3 = Ok false /\
  list_check_iterator swapped3 7 = Ok false.
Proof.
  split; [|split].
  - apply (list_check_iterator_decides swapped3 [2; 1] [3] 2 swapped3_rep). lia.
  - apply (list_check_iterator_decides swapped3 [2; 1] [3] 3 swapped3_rep). lia.
  - apply (list_check_iterator_decides swapped3 [2; 1] [3] 7 swapped3_rep). lia.
Defined.

Lemma list_next_active ndebug lst l1 x l2 fr :
  Rep lst (l1 ++ x :: l2) fr ->
  list_next ndebug lst x = Ok (hd0 l2) /\ list_prev ndebug lst x = Ok (last0 l1).
Proof.
  intros R.
  pose proof (assert_verified_ok ndebug _ _ _ R) as Hassert.
  destruct (check_iterator_active _ _ _ l1 x l2 R eq_refl)
    as (Hok & Hp & Hn & Hnz & _).
  unfold list_next, list_prev. rewrite Hassert, Hok. cbn.
  destruct (Z.eqb_spec x 0); done.
Qed.

(** X5: on a valid list [list_next] of an element is the element that
    follows it in the logical order and [list_prev] the one that precedes it,
    and both are 0 at the respective end.  At the virtual element both
    return 0: [list_next(lst, 0)] is not the head.  For any other iterator
    (a free slot or an index beyond the capacity) both return the code of
    [LIST_BAD_ITERATOR], which is 2. *)
Theorem list_next_prev_spec ndebug lst act fr :
  Rep lst act fr ->
  (forall l1 x l2, act = l1 ++ x :: l2 ->
     list_next ndebug lst x = Ok (hd0 l2) /\
     list_prev ndebug lst x = Ok (last0 l1)) /\
  list_next ndebug lst 0 = Ok 0 /\ list_prev ndebug lst 0 = Ok 0 /\
  (forall it, 0 <= it -> it <> 0 -> it ∉ act ->
     list_next ndebug lst it = Ok 2 /\ list_prev ndebug lst it = Ok 2).
Proof.
  intros R.
  pose proof (assert_verified_ok ndebug _ _ _ R) as Hassert.
  split; [|split; [|split]].
  - intros l1 x l2 ->. by apply (list_next_active _ _ _ _ _ fr).
  - unfold list_next. by rewrite Hassert.
  - unfold list_prev. by rewrite Hassert.
  - intros it H0 Hnz Hna. unfold list_next, list_prev.
    by rewrite Hassert, (check_iterator_inactive _ _ _ _ R H0 Hnz Hna).
Qed.

Lemma list_next_prev_spec_witness :
  list_next true swapped3 2 = Ok 1 /\ list_prev true swapped3 2 = Ok 0 /\
  list_next true swapped3 3 = Ok 2.
Proof.
  destruct (list_next_prev_spec true swapped3 [2; 1] [3] swapped3_rep)
    as (Ha & _ & _ & Hb).
  destruct (Ha [] 2 [1] eq_refl) as [Hn Hp].
  destruct (Hb 3) as [Hn3 _]; [lia|lia|by apply (bool_decide_unpack _)|].
  split; [exact Hn|]. split; [exact Hp|exact Hn3].
Defined.

(** X6: on a valid list [list_next] and [list_prev] are inverse to each
    other between elements: if [list_next] of an element is an element [y]
    (not 0), then [list_prev] of [y] is the element started from, and the
    other way round. *)
Theorem list_next_prev_inverse ndebug lst act fr x y :
  Rep lst act fr -> x ∈ act -> y <> 0 ->
  (list_next ndebug lst x = Ok y -> list_prev ndebug lst y = Ok x) /\
  (list_prev ndebug lst x = Ok y -> list_next ndebug lst y = Ok x).
Proof.
  intros R Hx Hy.
  apply list_elem_of_split in Hx as (l1 & l2 & ->).
  destruct (list_next_active ndebug _ _ _ _ _ R) as [Hn Hp].
  rewrite Hn, Hp. split; intros [= E].
  - destruct l2 as [|z l2]; [done|]. cbn in E. subst z.
    replace (l1 ++ x :: y :: l2) with ((l1 ++ [x]) ++ y :: l2) in R
      by (by rewrite <- app_assoc).
    destruct (list_next_active ndebug _ _ _ _ _ R) as [_ ->].
    by rewrite last0_snoc.
  - destruct (decide (l1 = [])) as [->|Hne]; [done|].
    destruct (exists_last Hne) as (l0 & z & ->).
    rewrite last0_snoc in E. subst z.
    rewrite <- app_assoc in R. cbn in R.
    by destruct (list_next_active ndebug _ _ _ _ _ R) as [-> _].
Qed.

Lemma list_next_prev_inverse_witness :
  list_prev true swapped3 1 = Ok 2 /\ list_next true swapped3 2 = Ok 1.
Proof.
  split.
  - apply (list_next_prev_inverse true swapped3 [2; 1] [3] 2 1 swapped3_rep).
    + by apply (bool_decide_unpack _).
    + lia.
    + reflexivity.
  - apply (list_next_prev_inverse true swapped3 [2; 1] [3] 1 2 swapped3_rep).
    + by apply (bool_decide_unpack _).
    + lia.
    + reflexivity.
Defined.

(** X7: the traversal of [list_print] over a valid list ends, and hands to
    the printing hook exactly [list_size] elements of [elem_size] bytes
    each: the payloads of the slots met when walking from [list_head] along
    [nexts], the last of which is [list_tail]. *)
Theorem list_print_visits_the_elements ndebug lst act fr :
  Rep lst act fr ->
  exists d out,
    data lst = Some d /\
    list_print ndebug lst = Ok out /\
    out = payload d (elem_size lst) <$> act /\
    Z.of_nat (length out) = list_size lst /\
    Forall (fun e => Z.of_nat (length e) = elem_size lst) out /\
    list_head ndebug lst = Ok (hd0 act) /\
    list_tail ndebug lst = Ok (last0 act).
Proof.
  intros R.
  pose proof (assert_verified_ok ndebug _ _ _ R) as Hassert.
  pose proof (rep_capacity _ _ _ R) as Hcap.
  pose proof (rep_cap_bound _ _ _ R) as Hcb.
  pose proof (rep_size _ _ _ R) as Hsize.
  pose proof (rep_blocks _ _ _ R) as (d & ns & ps & Hd & _ & _ & Hld & _).
  pose proof (rep_elem_size _ _ _ R) as Hes.
  exists d, (payload d (elem_size lst) <$> act).
  split; [done|]. split; [by apply (list_print_rep _ _ _ fr)|].
  split; [done|]. split; [|split; [|split]].
  - rewrite length_fmap. unfold list_size. rewrite Hsize.
    rewrite wrap_small by lia. lia.
  - apply Forall_fmap, Forall_forall. intros x Hx. cbn.
    pose proof (rep_act_range _ _ _ R x Hx).
    unfold payload. rewrite length_take, length_drop. nia.
  - unfold list_head. by rewrite Hassert, (rep_head _ _ _ R).
  - unfold list_tail. by rewrite Hassert, (rep_tail _ _ _ R).
Qed.

Lemma list_print_visits_the_elements_witness :
  exists d out,
    data swapped3 = Some d /\
    list_print true swapped3 = Ok out /\
    out = payload d (elem_size swapped3) <$> [2; 1] /\
    Z.of_nat (length out) = list_size swapped3 /\
    Forall (fun e => Z.of_nat (length e) = elem_size swapped3) out /\
    list_head true swapped3 = Ok 2 /\
    list_tail true swapped3 = Ok 1.
Proof. exact (list_print_visits_the_elements true swapped3 [2; 1] [3] swapped3_rep). Defined.

(** ** Insertion *)

Lemma rep_list_size lst act fr :
  Rep lst act fr -> list_size lst = Z.of_nat (length act).
Proof.
  intros R. unfold list_size. rewrite (rep_size _ _ _ R).
  pose proof (rep_capacity _ _ _ R). pose proof (rep_cap_bound _ _ _ R).
  rewrite wrap_small by lia. lia.
Qed.

Lemma insert_after_room_spec ndebug lst l1 l2 fr v h :
  Rep lst (l1 ++ l2) fr -> size lst < capacity lst ->
  elem_size lst <= Z.of_nat (length v) ->
  exists lst' d,
    data lst = Some d /\
    list_insert_after ndebug lst (last0 l1) v h = Ok ((LIST_NO_ERR, lst'), h) /\
    Rep lst' (l1 ++ first_free lst :: l2) (List.tl fr) /\
    list_print ndebug lst
    = Ok ((payload d (elem_size lst) <$> l1) ++ (payload d (elem_size lst) <$> l2)) /\
    list_print ndebug lst'
    = Ok ((payload d (elem_size lst) <$> l1)
          ++ take (Z.to_nat (elem_size lst)) v :: (payload d (elem_size lst) <$> l2)) /\
    list_size lst' = list_size lst + 1.
Proof.
  intros R Hroom Hv.
  destruct (rep_room _ _ _ R Hroom) as (fr' & ->).
  pose proof (rep_blocks _ _ _ R) as (d & _ & _ & Hd & _).
  destruct (list_insert_after_contents ndebug _ _ _ _ _ v h d R Hd Hv)
    as (lst' & Hrun & Hp & Hp').
  destruct (list_insert_after_room ndebug _ _ _ _ _ v h R Hv)
    as (lst'' & Hrun' & R' & _).
  rewrite Hrun in Hrun'. injection Hrun' as <-.
  exists lst', d.
  split; [done|]. split; [done|]. split; [done|]. split; [done|]. split; [done|].
  rewrite (rep_list_size _ _ _ R), (rep_list_size _ _ _ R').
  rewrite !length_app. cbn. lia.
Qed.

(** X8: inserting after a valid position of a valid list that has a free
    slot succeeds without touching the allocator.  The new element takes the
    slot [first_free], the result is again a valid list, [list_size] grows
    by one, and the traversal yields the former elements, unchanged and in
    their order, with the first [elem_size] bytes of the value right after
    the position given; after the virtual element this is the front. *)
Theorem list_insert_after_spec ndebug lst l1 l2 fr v h :
  Rep lst (l1 ++ l2) fr -> size lst < capacity lst ->
  elem_size lst <= Z.of_nat (length v) ->
  exists lst' old,
    list_print ndebug lst = Ok old /\
    list_insert_after ndebug lst (last0 l1) v h = Ok ((LIST_NO_ERR, lst'), h) /\
    Rep lst' (l1 ++ first_free lst :: l2) (List.tl fr) /\
    list_verify lst' = Ok LIST_NO_ERR /\
    list_print ndebug lst'
    = Ok (take (length l1) old ++ take (Z.to_nat (elem_size lst)) v
            :: drop (length l1) old) /\
    list_size lst' = list_size lst + 1.
Proof.
  intros R Hroom Hv.
  destruct (insert_after_room_spec ndebug _ _ _ _ v h R Hroom Hv)
    as (lst' & d & Hd & Hrun & R' & Hp & Hp' & Hs).
  eexists lst', _. split; [exact Hp|]. split; [exact Hrun|].
  split; [exact R'|]. split; [by eapply list_verify_ok|]. split; [|exact Hs].
  rewrite Hp'. do 2 f_equal.
  - rewrite take_app_length'; [done|by rewrite length_fmap].
  - rewrite drop_app_length'; [done|by rewrite length_fmap].
Qed.

Lemma list_insert_after_spec_witness :
  exists lst' old,
    list_print true single3 = Ok old /\
    list_insert_after true single3 1 [x0c] heap0 = Ok ((LIST_NO_ERR, lst'), heap0) /\
    Rep lst' [1; 2] [3] /\
    list_verify lst' = Ok LIST_NO_ERR /\
    list_print true lst' = Ok (take 1 old ++ [x0c] :: drop 1 old) /\
    list_size lst' = list_size single3 + 1.
Proof.
  apply (list_insert_after_spec true single3 [1] [] [2; 3] [x0c] heap0 single3_rep).
  - vm_compute. reflexivity.
  - vm_compute. discriminate.
Defined.

(** X9: on a valid list with a free slot, [list_insert_to_tail] appends:
    the traversal afterwards is the former one followed by the value; and
    [list_insert_to_head] prepends: the traversal afterwards is the value
    followed by the former one.  Both leave a valid list and return
    [LIST_NO_ERR]. *)
Theorem insert_to_tail_appends_to_head_prepends ndebug lst act fr v h :
  Rep lst act fr -> size lst < capacity lst ->
  elem_size lst <= Z.of_nat (length v) ->
  exists old lt lh,
    list_print ndebug lst = Ok old /\
    list_insert_to_tail ndebug lst v h = Ok ((LIST_NO_ERR, lt), h) /\
    list_print ndebug lt = Ok (old ++ [take (Z.to_nat (elem_size lst)) v]) /\
    list_verify lt = Ok LIST_NO_ERR /\
    list_tail ndebug lt = Ok (first_free lst) /\
    list_insert_to_head ndebug lst v h = Ok ((LIST_NO_ERR, lh), h) /\
    list_print ndebug lh = Ok (take (Z.to_nat (elem_size lst)) v :: old) /\
    list_verify lh = Ok LIST_NO_ERR /\
    list_head ndebug lh = Ok (first_free lst).
Proof.
  intros R Hroom Hv.
  pose proof (assert_verified_ok ndebug _ _ _ R) as Hassert.
  assert (Rt : Rep lst (act ++ []) fr) by (by rewrite app_nil_r).
  destruct (insert_after_room_spec ndebug _ _ _ _ v h Rt Hroom Hv)
    as (lt & d & Hd & Hrunt & Rt' & Hp & Hpt & _).
  assert (Rh : Rep lst ([] ++ act) fr) by done.
  destruct (insert_after_room_spec ndebug _ _ _ _ v h Rh Hroom Hv)
    as (lh & d' & Hd' & Hrunh & Rh' & _ & Hph & _).
  assert (d' = d) as -> by congruence.
  cbn in Hp, Hpt, Hph, Hrunh. rewrite app_nil_r in Hp.
  exists (payload d (elem_size lst) <$> act), lt, lh.
  split; [exact Hp|]. split; [|split; [exact Hpt|split; [by eapply list_verify_ok|split]]].
  - unfold list_insert_to_tail. rewrite Hassert, mbind_lift_Ok.
    by rewrite (rep_tail _ _ _ R).
  - unfold list_tail. rewrite (assert_verified_ok ndebug _ _ _ Rt').
    cbn. rewrite (rep_tail _ _ _ Rt'). by rewrite last0_snoc.
  - split; [|split; [exact Hph|split; [by eapply list_verify_ok|]]].
    + unfold list_insert_to_head, list_insert_before.
      rewrite Hassert, !mbind_lift_Ok.
      assert (Hprev : prev_at lst (head lst) = Ok 0).
      { destruct (decide (act = [])) as [->|Hne].
        - rewrite (rep_head _ _ _ R). cbn.
          rewrite (rep_prev_sentinel _ _ _ R), (rep_tail _ _ _ R). done.
        - by apply (rep_prev_head _ _ _ R). }
      by rewrite Hprev, mbind_lift_Ok.
    + unfold list_head. rewrite (assert_verified_ok ndebug _ _ _ Rh').
      cbn. by rewrite (rep_head _ _ _ Rh').
Qed.

Lemma insert_to_tail_appends_to_head_prepends_witness :
  exists old lt lh,
    list_print true single3 = Ok old /\
    list_insert_to_tail true single3 [x0c] heap0 = Ok ((LIST_NO_ERR, lt), heap0) /\
    list_print true lt = Ok (old ++ [[x0c]]) /\
    list_verify lt = Ok LIST_NO_ERR /\
    list_tail true lt = Ok 2 /\
    list_insert_to_head true single3 [x0c] heap0 = Ok ((LIST_NO_ERR, lh), heap0) /\
    list_print true lh = Ok ([x0c] :: old) /\
    list_verify lh = Ok LIST_NO_ERR /\
    list_head true lh = Ok 2.
Proof.
  apply (insert_to_tail_appends_to_head_prepends true single3 [1] [2; 3] [x0c] heap0
           single3_rep).
  - vm_compute. reflexivity.
  - vm_compute. discriminate.
Defined.

(** X10: on a valid list with a free slot, [list_insert_before] an element
    puts the value immediately before that element in the traversal; given
    the virtual element (iterator 0) it appends at the tail, since
    [prevs[0]] is the tail. *)
Theorem list_insert_before_spec ndebug lst act fr v h :
  Rep lst act fr -> size lst < capacity lst ->
  elem_size lst <= Z.of_nat (length v) ->
  (forall l1 x l2, act = l1 ++ x :: l2 ->
     exists lst' old,
       list_print ndebug lst = Ok old /\
       list_insert_before ndebug lst x v h = Ok ((LIST_NO_ERR, lst'), h) /\
       Rep lst' (l1 ++ first_free lst :: x :: l2) (List.tl fr) /\
       list_print ndebug lst'
       = Ok (take (length l1) old ++ take (Z.to_nat (elem_size lst)) v
               :: drop (length l1) old)) /\
  (exists lst' old,
     list_print ndebug lst = Ok old /\
     list_insert_before ndebug lst 0 v h = Ok ((LIST_NO_ERR, lst'), h) /\
     list_print ndebug lst' = Ok (old ++ [take (Z.to_nat (elem_size lst)) v])).
Proof.
  intros R Hroom Hv.
  pose proof (assert_verified_ok ndebug _ _ _ R) as Hassert.
  split.
  - intros l1 x l2 ->.
    destruct (insert_after_room_spec ndebug _ _ _ _ v h R Hroom Hv)
      as (lst' & d & Hd & Hrun & R' & Hp & Hp' & _).
    destruct (check_iterator_active _ _ _ l1 x l2 R eq_refl) as (_ & Hprev & _).
    eexists lst', _. split; [exact Hp|]. split; [|split; [exact R'|]].
    + unfold list_insert_before. by rewrite Hassert, mbind_lift_Ok, Hprev, mbind_lift_Ok.
    + rewrite Hp'. do 2 f_equal.
      * rewrite take_app_length'; [done|by rewrite length_fmap].
      * rewrite drop_app_length'; [done|by rewrite length_fmap].
  - assert (Rt : Rep lst (act ++ []) fr) by (by rewrite app_nil_r).
    destruct (insert_after_room_spec ndebug _ _ _ _ v h Rt Hroom Hv)
      as (lt & d & Hd & Hrunt & Rt' & Hp & Hpt & _).
    cbn in Hp, Hpt. rewrite app_nil_r in Hp.
    eexists lt, _. split; [exact Hp|]. split; [|exact Hpt].
    unfold list_insert_before.
    rewrite Hassert, mbind_lift_Ok, (rep_prev_sentinel _ _ _ R), mbind_lift_Ok.
    by rewrite (rep_tail _ _ _ R).
Qed.

Lemma list_insert_before_spec_witness :
  exists lst' old,
    list_print true swapped3 = Ok old /\
    list_insert_before true swapped3 1 [x0c] heap0 = Ok ((LIST_NO_ERR, lst'), heap0) /\
    Rep lst' [2; 3; 1] [] /\
    list_print true lst' = Ok (take 1 old ++ [x0c] :: drop 1 old).
Proof.
  destruct (list_insert_before_spec true swapped3 [2; 1] [3] [x0c] heap0 swapped3_rep)
    as [Ha _].
  - vm_compute. reflexivity.
  - vm_compute. discriminate.
  - exact (Ha [2] 1 [] eq_refl).
Defined.

(** X11: on a valid list, [list_insert_after] and [list_erase] given an
    iterator that is neither the virtual element nor an element (a free slot,
    or an index at or beyond the capacity) return [LIST_BAD_ITERATOR] and
    leave the list, the iterator and the heap as they were. *)
Theorem bad_iterator_is_refused ndebug lst act fr it v h :
  Rep lst act fr -> 0 <= it -> it <> 0 -> it ∉ act ->
  list_insert_after ndebug lst it v h = Ok ((LIST_BAD_ITERATOR, lst), h) /\
  list_erase ndebug lst it = Ok (LIST_BAD_ITERATOR, lst, it).
Proof.
  intros R H0 Hnz Hna.
  pose proof (assert_verified_ok ndebug _ _ _ R) as Hassert.
  pose proof (check_iterator_inactive _ _ _ _ R H0 Hnz Hna) as Hchk.
  unfold list_insert_after, list_erase.
  by rewrite Hassert, mbind_lift_Ok, Hchk, mbind_lift_Ok.
Qed.

Lemma bad_iterator_is_refused_witness :
  list_insert_after true swapped3 3 [x0c] heap0 = Ok ((LIST_BAD_ITERATOR, swapped3), heap0) /\
  list_erase true swapped3 3 = Ok (LIST_BAD_ITERATOR, swapped3, 3).
Proof.
  apply (bad_iterator_is_refused true swapped3 [2; 1] [3] 3 [x0c] heap0 swapped3_rep).
  - lia.
  - lia.
  - by apply (bool_decide_unpack _).
Defined.

Lemma swapped2_rep : Rep swapped2 [2; 1] [].
Proof. rep_by_evaluation. Qed.

Lemma check_iterator_total lst act fr it :
  Rep lst act fr -> 0 <= it -> exists b, list_check_iterator lst it = Ok b.
Proof.
  intros R H0.
  destruct (decide (it = 0)) as [->|Hnz]; [by exists true|].
  destruct (decide (it ∈ act)) as [Hin|Hna].
  - apply list_elem_of_split in Hin as (l1 & l2 & ->).
    destruct (check_iterator_active _ _ _ l1 it l2 R eq_refl) as (-> & _). by eexists.
  - rewrite (check_iterator_inactive _ _ _ _ R H0 Hnz Hna). by eexists.
Qed.

(** X12: growing never reports success.  On a valid list, a request for a
    larger capacity either is refused by the allocator, and then returns
    [LIST_ALLOC_ERR] with the list unchanged and no block leaked, or copies
    [new_capacity] entries out of arrays that hold [capacity] entries, a read
    past their end.  The same holds for an insertion into a valid list that
    is full, which asks for twice the capacity: it reads out of bounds or
    returns an error and leaves the list as it was. *)
Theorem growth_never_succeeds ndebug lst act fr :
  Rep lst act fr ->
  (forall n h, capacity lst < wrap (n + 1) ->
     list_change_capacity ndebug lst n h = Undef \/
     exists h', list_change_capacity ndebug lst n h
                = Ok ((LIST_ALLOC_ERR, lst), h') /\ live h' = live h) /\
  (size lst = capacity lst ->
   forall it v h, 0 <= it ->
     list_insert_after ndebug lst it v h = Undef \/
     exists e h', list_insert_after ndebug lst it v h = Ok ((e, lst), h') /\
                  (e = LIST_BAD_ITERATOR \/ e = LIST_ALLOC_ERR) /\
                  live h' = live h).
Proof.
  intros R. split.
  - intros n h Hgrow. by apply (list_change_capacity_grow _ _ act fr).
  - intros Hfull it v h H0.
    pose proof (assert_verified_ok ndebug _ _ _ R) as Hassert.
    destruct (check_iterator_total _ _ _ it R H0) as (b & Hchk).
    unfold list_insert_after. rewrite Hassert, mbind_lift_Ok, Hchk, mbind_lift_Ok.
    destruct b; cbn [negb].
    2:{ right. exists LIST_BAD_ITERATOR, h. split; [done|]. split; [by left|done]. }
    unfold list_remove_first_free. rewrite Hfull, Z.eqb_refl.
    pose proof (rep_cap_bound _ _ _ R) as Hcb.
    pose proof (rep_bytes _ _ _ R) as Hbytes.
    pose proof (rep_capacity _ _ _ R) as Hcap.
    assert (Hgrow : capacity lst < wrap (wrap (capacity lst * CAPACITY_COEFF) + 1)).
    { unfold CAPACITY_COEFF, SIZEOF_SIZE_T in *.
      assert (SIZE_MODULUS = 18446744073709551616) by reflexivity.
      rewrite (wrap_small (capacity lst * 2)) by lia.
      rewrite wrap_small by lia. lia. }
    destruct (list_change_capacity_grow ndebug _ _ _ _ h R Hgrow) as [E|(h1 & E & Hl)].
    + left. unfold mbind at 1. unfold mbind at 1. by rewrite E.
    + right. exists LIST_ALLOC_ERR, h1.
      unfold mbind at 1. unfold mbind at 1. rewrite E. cbn.
      split; [done|]. split; [by right|done].
Qed.

Lemma growth_never_succeeds_witness :
  list_change_capacity true swapped2 5 heap0 = Undef /\
  list_insert_after true swapped2 1 [x0c] heap0 = Undef.
Proof.
  destruct (growth_never_succeeds true swapped2 [2; 1] [] swapped2_rep) as [Hg Hi].
  split.
  - destruct (Hg 5 heap0) as [E|(h' & E & _)]; [vm_compute; reflexivity|exact E|].
    exfalso. vm_compute in E. discriminate E.
  - destruct (Hi eq_refl 1 [x0c] heap0) as [E|(e & h' & E & _)]; [lia|exact E|].
    exfalso. vm_compute in E. discriminate E.
Defined.

(** ** Searching and erasing *)

Lemma bytes_eqb_eq a b : bytes_eqb a b = true <-> a = b.
Proof.
  revert b. induction a as [|x a IH]; intros [|y b]; cbn; try done.
  rewrite andb_true_iff, IH. split.
  - intros [->%Byte.byte_dec_bl ->]. done.
  - intros [= -> ->]. split; [by apply Byte.byte_dec_lb|done].
Qed.

Lemma bytes_eqb_neq a b : bytes_eqb a b = false <-> a <> b.
Proof.
  rewrite <- bytes_eqb_eq. by destruct (bytes_eqb a b).
Qed.

Lemma find_loop_rep lst act fr d v seen rest fuel :
  Rep lst act fr -> data lst = Some d ->
  elem_size lst <= Z.of_nat (length v) ->
  act = seen ++ rest -> (length rest <= fuel)%nat ->
  find_loop fuel lst v (hd0 rest)
  = Ok (hd0 (List.filter
               (fun x => bytes_eqb (payload d (elem_size lst) x)
                                   (take (Z.to_nat (elem_size lst)) v)) rest)).
Proof.
  intros R Hd Hv. revert seen fuel.
  pose proof (rep_elem_size _ _ _ R) as Hes.
  assert (Hlen : Z.of_nat (length d) = capacity lst * elem_size lst).
  { destruct R as [(d0 & ns & ps & Hd0 & _ & _ & Hld & _) _ _ _ _ _ _ _]. congruence. }
  induction rest as [|x rest IH]; intros seen fuel Hact Hfuel.
  - by destruct fuel.
  - destruct fuel as [|fuel]; [simpl in Hfuel; lia|].
    destruct (check_iterator_active _ _ _ seen x rest R Hact)
      as (_ & _ & Hnext & Hx0 & _).
    assert (Hxr : 0 < x < capacity lst).
    { apply (rep_act_range _ _ _ R). rewrite Hact. set_solver. }
    cbn [find_loop hd0 List.hd List.filter]. destruct (Z.eqb_spec x 0); [done|].
    rewrite (elem_at_payload lst d x) by (done || nia). cbn [obind].
    rewrite cells_Ok by lia. cbn [obind]. rewrite drop_0.
    destruct (bytes_eqb _ _); [done|].
    rewrite Hnext. cbn [obind].
    apply (IH (seen ++ [x]) fuel); [by rewrite <- app_assoc|simpl in Hfuel; lia].
Qed.

Lemma list_find_rep ndebug lst act fr d v :
  Rep lst act fr -> data lst = Some d ->
  elem_size lst <= Z.of_nat (length v) ->
  list_find ndebug lst v
  = Ok (hd0 (List.filter
               (fun x => bytes_eqb (payload d (elem_size lst) x)
                                   (take (Z.to_nat (elem_size lst)) v)) act)).
Proof.
  intros R Hd Hv.
  pose proof (assert_verified_ok ndebug _ _ _ R) as Hassert.
  unfold list_find. rewrite Hassert. cbn [obind]. rewrite (rep_head _ _ _ R).
  apply (find_loop_rep lst act fr d v [] act); try done.
  pose proof (rep_capacity _ _ _ R). unfold link_fuel. lia.
Qed.

Lemma filter_absent (f : Z -> bool) (l : list Z) :
  Forall (fun x => f x = false) l -> List.filter f l = [].
Proof.
  induction 1 as [|x l Hx _ IH]; [done|]. cbn. by rewrite Hx.
Qed.

Lemma filter_first (f : Z -> bool) (l1 : list Z) x l2 :
  Forall (fun y => f y = false) l1 -> f x = true ->
  hd0 (List.filter f (l1 ++ x :: l2)) = x.
Proof.
  intros H1 Hx. rewrite List.filter_app, (filter_absent f l1 H1). cbn.
  by rewrite Hx.
Qed.

(** X13: on a valid list [list_find] returns the first element, in the
    logical order, whose payload equals the first [elem_size] bytes of the
    value, and 0 when no element does; the search ends in both cases. *)
Theorem list_find_spec ndebug lst act fr v :
  Rep lst act fr -> elem_size lst <= Z.of_nat (length v) ->
  exists d,
    data lst = Some d /\
    (Forall (fun x => payload d (elem_size lst) x
                      <> take (Z.to_nat (elem_size lst)) v) act ->
     list_find ndebug lst v = Ok 0) /\
    (forall l1 x l2,
       act = l1 ++ x :: l2 ->
       Forall (fun y => payload d (elem_size lst) y
                        <> take (Z.to_nat (elem_size lst)) v) l1 ->
       payload d (elem_size lst) x = take (Z.to_nat (elem_size lst)) v ->
       list_find ndebug lst v = Ok x /\ list_iterator_on_element x = true).
Proof.
  intros R Hv.
  pose proof (rep_blocks _ _ _ R) as (d & _ & _ & Hd & _).
  exists d. split; [done|].
  rewrite (list_find_rep ndebug _ _ _ d v R Hd Hv). split.
  - intros Habs. rewrite filter_absent; [done|].
    eapply Forall_impl; [exact Habs|]. intros x Hx. by apply bytes_eqb_neq.
  - intros l1 x l2 -> Hl1 Hx. split.
    + f_equal. apply filter_first; [|by apply bytes_eqb_eq].
      eapply Forall_impl; [exact Hl1|]. intros y Hy. by apply bytes_eqb_neq.
    + destruct (check_iterator_active _ _ _ l1 x l2 R eq_refl) as (_ & _ & _ & Hnz & _).
      unfold list_iterator_on_element. by destruct (Z.eqb_spec x 0).
Qed.

Lemma list_find_spec_witness :
  list_find true swapped3 [x0b] = Ok 1 /\ list_find true swapped3 [x0c] = Ok 0.
Proof.
  destruct (list_find_spec true swapped3 [2; 1] [3] [x0b] swapped3_rep)
    as (d & Hd & _ & Hfound); [vm_compute; discriminate|].
  destruct (list_find_spec true swapped3 [2; 1] [3] [x0c] swapped3_rep)
    as (d' & Hd' & Habsent & _); [vm_compute; discriminate|].
  injection Hd as <-. injection Hd' as <-.
  split.
  - apply (Hfound [2] 1 []); [reflexivity| |reflexivity].
    repeat constructor. vm_compute. discriminate.
  - apply Habsent. repeat constructor; vm_compute; discriminate.
Defined.

Lemma erase_active_contents ndebug lst l1 x l2 fr d :
  Rep lst (l1 ++ x :: l2) fr -> data lst = Some d ->
  exists lst',
    list_erase ndebug lst x
    = Ok (LIST_NO_ERR, lst', if bool_decide (l2 = []) then last0 l1 else hd0 l2) /\
    Rep lst' (l1 ++ l2) (x :: fr) /\
    list_print ndebug lst' = Ok (payload d (elem_size lst) <$> (l1 ++ l2)).
Proof.
  intros R Hd.
  destruct (list_erase_active ndebug _ _ _ _ _ R) as (lst' & Hrun & R' & _ & Hd' & He & _).
  exists lst'. split; [done|]. split; [done|].
  rewrite <- He. apply (list_print_rep _ _ _ (x :: fr)); congruence.
Qed.

(** X14: on a valid list [list_erase_by_value] erases the first element, in
    the logical order, whose payload equals the value: the traversal
    afterwards is the former one without that element, and the result is a
    valid list.  When no element has that payload it returns [LIST_NO_ERR]
    all the same and leaves the list as it was. *)
Theorem list_erase_by_value_spec ndebug lst act fr v :
  Rep lst act fr -> elem_size lst <= Z.of_nat (length v) ->
  exists d,
    data lst = Some d /\
    (Forall (fun x => payload d (elem_size lst) x
                      <> take (Z.to_nat (elem_size lst)) v) act ->
     list_erase_by_value ndebug lst v = Ok (LIST_NO_ERR, lst)) /\
    (forall l1 x l2,
       act = l1 ++ x :: l2 ->
       Forall (fun y => payload d (elem_size lst) y
                        <> take (Z.to_nat (elem_size lst)) v) l1 ->
       payload d (elem_size lst) x = take (Z.to_nat (elem_size lst)) v ->
       exists lst',
         list_erase_by_value ndebug lst v = Ok (LIST_NO_ERR, lst') /\
         Rep lst' (l1 ++ l2) (x :: fr) /\
         list_print ndebug lst
         = Ok (payload d (elem_size lst) <$> (l1 ++ x :: l2)) /\
         list_print ndebug lst'
         = Ok (payload d (elem_size lst) <$> (l1 ++ l2))).
Proof.
  intros R Hv.
  pose proof (assert_verified_ok ndebug _ _ _ R) as Hassert.
  pose proof (rep_blocks _ _ _ R) as (d & _ & _ & Hd & _).
  exists d. split; [done|].
  unfold list_erase_by_value. rewrite Hassert. cbn [obind].
  rewrite (list_find_rep ndebug _ _ _ d v R Hd Hv). cbn [obind]. split.
  - intros Habs. rewrite filter_absent.
    2:{ eapply Forall_impl; [exact Habs|]. intros x Hx. by apply bytes_eqb_neq. }
    cbn. unfold list_erase. by rewrite Hassert.
  - intros l1 x l2 -> Hl1 Hx. rewrite filter_first.
    2:{ eapply Forall_impl; [exact Hl1|]. intros y Hy. by apply bytes_eqb_neq. }
    2:{ by apply bytes_eqb_eq. }
    destruct (erase_active_contents ndebug _ _ _ _ _ d R Hd) as (lst' & -> & R' & Hp).
    exists lst'. split; [done|]. split; [done|]. split; [|done].
    by apply (list_print_rep _ _ _ fr).
Qed.

Lemma list_erase_by_value_spec_witness :
  list_erase_by_value true swapped3 [x0c] = Ok (LIST_NO_ERR, swapped3) /\
  exists lst', list_erase_by_value true swapped3 [x0b] = Ok (LIST_NO_ERR, lst') /\
               Rep lst' [2] [1; 3] /\ list_print true lst' = Ok [[x0a]].
Proof.
  destruct (list_erase_by_value_spec true swapped3 [2; 1] [3] [x0c] swapped3_rep)
    as (d' & Hd' & Habsent & _); [vm_compute; discriminate|].
  destruct (list_erase_by_value_spec true swapped3 [2; 1] [3] [x0b] swapped3_rep)
    as (d & Hd & _ & Hfound); [vm_compute; discriminate|].
  injection Hd as <-. injection Hd' as <-.
  split.
  - apply Habsent. repeat constructor; vm_compute; discriminate.
  - destruct (Hfound [2] 1 []) as (lst' & Hrun & R' & _ & Hp); [reflexivity| |reflexivity|].
    + repeat constructor. vm_compute. discriminate.
    + exists lst'. split; [exact Hrun|]. split; [exact R'|exact Hp].
Defined.

Lemma filter_hd0_in (f : Z -> bool) (l : list Z) x :
  x ∈ l -> f x = true ->
  hd0 (List.filter f l) ∈ l /\ f (hd0 (List.filter f l)) = true.
Proof.
  induction l as [|y l IH]; intros Hin Hx; [set_solver|]. cbn.
  destruct (f y) eqn:Ey; [cbn; split; [set_solver|done]|].
  assert (x ∈ l) as Hin'.
  { apply elem_of_cons in Hin as [->|?]; [congruence|done]. }
  destruct (IH Hin' Hx). split; [set_solver|done].
Qed.

(** X15: a value inserted is found.  On a valid list with a free slot,
    [list_insert_after] of a value at any valid position returns
    [LIST_NO_ERR], and afterwards [list_find] of that value returns an
    element (not 0) whose payload is the first [elem_size] bytes of the
    value, and [list_get] of it is the address of its slot. *)
Theorem inserted_value_is_found ndebug lst l1 l2 fr v h :
  Rep lst (l1 ++ l2) fr -> size lst < capacity lst ->
  elem_size lst <= Z.of_nat (length v) ->
  exists lst' x,
    list_insert_after ndebug lst (last0 l1) v h = Ok ((LIST_NO_ERR, lst'), h) /\
    list_find ndebug lst' v = Ok x /\ x <> 0 /\
    elem_at lst' x = Ok (take (Z.to_nat (elem_size lst')) v) /\
    list_get ndebug lst' x = Ok (Some (x * elem_size lst')).
Proof.
  intros R Hroom Hv.
  destruct (rep_room _ _ _ R Hroom) as (fr' & ->).
  set (p := first_free lst) in *.
  destruct (list_insert_after_room ndebug _ _ _ _ _ v h R Hv)
    as (lst' & Hrun & R' & _ & Hes' & Hcap' & Hblit).
  pose proof (rep_blocks _ _ _ R) as (d & _ & _ & Hd & _).
  pose proof (rep_blocks _ _ _ R') as (d' & ns' & ps' & Hd' & _ & _ & Hld' & _).
  pose proof (rep_elem_size _ _ _ R) as Hes.
  assert (Hp : 0 < p < capacity lst) by (apply (rep_free_range _ _ _ R); set_solver).
  rewrite Hd, Hd' in Hblit.
  assert (Hpay : payload d' (elem_size lst) p = take (Z.to_nat (elem_size lst)) v).
  { apply (payload_blit_same d _ p _ d'); try lia; [|done].
    rewrite length_take. lia. }
  exists lst'. rewrite Hes'.
  rewrite (list_find_rep ndebug _ _ _ d' v R' Hd') by lia. rewrite Hes'.
  set (f := fun x => bytes_eqb _ _).
  destruct (filter_hd0_in f (l1 ++ p :: l2) p) as [Hin Hf]; [set_solver| |].
  { by apply bytes_eqb_eq. }
  set (x := hd0 _) in *. exists x. split; [exact Hrun|]. split; [done|].
  pose proof (rep_act_range _ _ _ R' x Hin) as Hxr.
  split; [lia|]. split.
  - rewrite <- Hes'. rewrite (elem_at_payload lst' d' x) by (done || nia).
    rewrite Hes'. f_equal. by apply bytes_eqb_eq.
  - apply list_elem_of_split in Hin as (k1 & k2 & Hsplit).
    destruct (check_iterator_active _ _ _ k1 x k2 R' Hsplit) as (Hchk & _).
    unfold list_get. rewrite (assert_verified_ok ndebug _ _ _ R'), Hchk. cbn.
    by rewrite Hes'.
Qed.

Lemma inserted_value_is_found_witness :
  exists lst' x,
    list_insert_after true single3 0 [x0a] heap0 = Ok ((LIST_NO_ERR, lst'), heap0) /\
    list_find true lst' [x0a] = Ok x /\ x <> 0 /\
    elem_at lst' x = Ok (take (Z.to_nat (elem_size lst')) [x0a]) /\
    list_get true lst' x = Ok (Some (x * elem_size lst')).
Proof.
  apply (inserted_value_is_found true single3 [] [1] [2; 3] [x0a] heap0 single3_rep).
  - reflexivity.
  - vm_compute. discriminate.
Defined.

(** ** Access by position *)

Lemma walk_next ndebug lst act fr n : forall j i,
  Rep lst act fr -> (j + n < length act)%nat ->
  for_range n i (fun _ it => list_next ndebug lst it) (hd0 (drop j act))
  = Ok (hd0 (drop (j + n) act)).
Proof.
  induction n as [|n IH]; intros j i R Hlt.
  - by rewrite Nat.add_0_r.
  - cbn [for_range].
    destruct (lookup_lt_is_Some_2 act j) as [x Hx]; [lia|].
    destruct (drop_hd0_lookup act j x Hx) as [Hsplit Hhd].
    rewrite Hhd.
    assert (R' : Rep lst (take j act ++ x :: drop (S j) act) fr) by (by rewrite <- Hsplit).
    destruct (list_next_active ndebug _ _ _ _ _ R') as [-> _]. cbn [obind].
    rewrite (IH (S j) (wrap (i + 1)) R).
    2:{ revert Hlt. generalize (length act). lia. }
    do 3 f_equal. lia.
Qed.

Lemma list_element_at_in_range ndebug lst act fr k x :
  Rep lst act fr ->
  (normalized lst = true -> act = seqZ 1 (Z.of_nat (length act))) ->
  0 <= k -> act !! Z.to_nat k = Some x ->
  list_element_at ndebug lst k = Ok x.
Proof.
  intros R Hlay Hk Hx.
  pose proof (assert_verified_ok ndebug _ _ _ R) as Hassert.
  pose proof (rep_capacity _ _ _ R) as Hcap.
  pose proof (rep_cap_bound _ _ _ R) as Hcb.
  pose proof (rep_size _ _ _ R) as Hsize.
  pose proof (lookup_lt_Some _ _ _ Hx) as Hlt.
  unfold list_element_at. rewrite Hassert. cbn [obind].
  rewrite wrap_small by lia.
  destruct (Z.geb_spec (k + 1) (size lst)); [lia|].
  destruct (normalized lst) eqn:En.
  - rewrite Hlay in Hx by done. apply lookup_seqZ in Hx as [-> _].
    f_equal. lia.
  - unfold list_head. rewrite Hassert. cbn [obind].
    rewrite (rep_head _ _ _ R).
    replace (k + 1 - 1) with k by lia.
    change (hd0 act) with (hd0 (drop 0 act)).
    rewrite (walk_next ndebug lst act fr (Z.to_nat k) 0%nat 1 R) by lia.
    cbn. by destruct (drop_hd0_lookup act _ x Hx) as [_ ->].
Qed.

(** X16: [list_element_at] on a valid list in which, when it is flagged
    normalized, the elements occupy the slots [1, 2, ...] in their order.
    For a position [k] below the number of elements it returns the element
    at position [k] of the logical order (counted from 0).  For a position
    at or beyond the number of elements it returns the code of
    [LIST_BAD_INDEX], which is 3 and cannot be told from the iterator of
    slot 3.  For the position [SIZE_MAX] the increment wraps to 0 and the
    function returns 0 (flagged normalized) or the head. *)
Theorem list_element_at_spec ndebug lst act fr :
  Rep lst act fr ->
  (normalized lst = true -> act = seqZ 1 (Z.of_nat (length act))) ->
  (forall k x, 0 <= k -> act !! Z.to_nat k = Some x ->
     list_element_at ndebug lst k = Ok x) /\
  (forall k, Z.of_nat (length act) <= k < SIZE_MODULUS - 1 ->
     list_element_at ndebug lst k = Ok 3) /\
  list_element_at ndebug lst (SIZE_MODULUS - 1)
  = Ok (if normalized lst then 0 else head lst).
Proof.
  intros R Hlay.
  pose proof (assert_verified_ok ndebug _ _ _ R) as Hassert.
  pose proof (rep_capacity _ _ _ R) as Hcap.
  pose proof (rep_cap_bound _ _ _ R) as Hcb.
  pose proof (rep_size _ _ _ R) as Hsize.
  assert (Hmod : SIZE_MODULUS = 18446744073709551616) by reflexivity.
  split; [|split].
  - intros k x Hk Hx. by apply (list_element_at_in_range _ _ act fr).
  - intros k Hk. unfold list_element_at. rewrite Hassert. cbn [obind].
    rewrite wrap_small by lia.
    destruct (Z.geb_spec (k + 1) (size lst)); [done|lia].
  - unfold list_element_at. rewrite Hassert. cbn [obind].
    replace (SIZE_MODULUS - 1 + 1) with SIZE_MODULUS by lia.
    change (wrap SIZE_MODULUS) with 0.
    destruct (Z.geb_spec 0 (size lst)); [lia|].
    destruct (normalized lst); [done|].
    unfold list_head. rewrite Hassert. done.
Qed.

Lemma list_element_at_spec_witness :
  list_element_at true swapped3 1 = Ok 1 /\
  list_element_at true swapped3 2 = Ok 3 /\
  list_element_at true swapped3 (SIZE_MODULUS - 1) = Ok 2.
Proof.
  destruct (list_element_at_spec true swapped3 [2; 1] [3] swapped3_rep)
    as (Hin & Hout & Hmax); [discriminate|].
  split; [|split].
  - apply Hin; [lia|reflexivity].
  - apply Hout. vm_compute. split; [discriminate|reflexivity].
  - exact Hmax.
Defined.

(** X17: [list_erase_by_index] with a position below the number of elements
    (on a valid list whose layout agrees with its flag as in X16) erases the
    element at that position: the traversal afterwards is the former one
    without its [k]-th entry, and the slot erased heads the free chain. *)
Theorem list_erase_by_index_spec ndebug lst act fr k x :
  Rep lst act fr ->
  (normalized lst = true -> act = seqZ 1 (Z.of_nat (length act))) ->
  0 <= k -> act !! Z.to_nat k = Some x ->
  exists lst' old,
    list_print ndebug lst = Ok old /\
    list_erase_by_index ndebug lst k = Ok (LIST_NO_ERR, lst') /\
    Rep lst' (delete (Z.to_nat k) act) (x :: fr) /\
    list_print ndebug lst' = Ok (delete (Z.to_nat k) old) /\
    list_size lst' = list_size lst - 1.
Proof.
  intros R Hlay Hk Hx.
  pose proof (assert_verified_ok ndebug _ _ _ R) as Hassert.
  pose proof (rep_blocks _ _ _ R) as (d & _ & _ & Hd & _).
  pose proof (list_element_at_in_range ndebug _ _ _ _ _ R Hlay Hk Hx) as Hat.
  destruct (drop_hd0_lookup act _ x Hx) as [Hsplit _].
  assert (Hdel : delete (Z.to_nat k) act
                 = take (Z.to_nat k) act ++ drop (S (Z.to_nat k)) act).
  { by rewrite delete_take_drop. }
  assert (R0 : Rep lst (take (Z.to_nat k) act ++ x :: drop (S (Z.to_nat k)) act) fr)
    by (by rewrite <- Hsplit).
  destruct (erase_active_contents ndebug _ _ _ _ _ d R0 Hd) as (lst' & Hrun & R' & Hp).
  exists lst', (payload d (elem_size lst) <$> act).
  split; [by apply (list_print_rep _ _ _ fr)|].
  split; [|split; [by rewrite Hdel|split]].
  - unfold list_erase_by_index. rewrite Hassert. cbn [obind].
    rewrite Hat. cbn [obind]. by rewrite Hrun.
  - rewrite Hp. f_equal. rewrite delete_take_drop, fmap_app.
    by rewrite fmap_take, fmap_drop.
  - rewrite (rep_list_size _ _ _ R), (rep_list_size _ _ _ R').
    pose proof (f_equal length Hsplit) as Hl.
    rewrite length_app in Hl. cbn in Hl. rewrite length_app. lia.
Qed.

Lemma list_erase_by_index_spec_witness :
  exists lst' old,
    list_print true swapped3 = Ok old /\
    list_erase_by_index true swapped3 0 = Ok (LIST_NO_ERR, lst') /\
    Rep lst' [1] [2; 3] /\
    list_print true lst' = Ok (delete 0%nat old) /\
    list_size lst' = list_size swapped3 - 1.
Proof.
  apply (list_erase_by_index_spec true swapped3 [2; 1] [3] 0 2 swapped3_rep).
  - discriminate.
  - lia.
  - reflexivity.
Defined.

(** X18: [list_erase_by_index] with a position at or beyond the number of
    elements, and below [SIZE_MAX] (where the position wraps to 0), does not
    report [LIST_BAD_INDEX].  The code 3 that
    [list_element_at] returns is taken for an iterator: if slot 3 holds an
    element, that element is erased and [LIST_NO_ERR] returned; otherwise
    the list is left alone and [LIST_BAD_ITERATOR] returned. *)
Theorem list_erase_by_index_out_of_range ndebug lst act fr k :
  Rep lst act fr ->
  Z.of_nat (length act) <= k < SIZE_MODULUS - 1 ->
  (3 ∉ act -> list_erase_by_index ndebug lst k = Ok (LIST_BAD_ITERATOR, lst)) /\
  (forall l1 l2, act = l1 ++ 3 :: l2 ->
     exists lst' d,
       data lst = Some d /\
       list_erase_by_index ndebug lst k = Ok (LIST_NO_ERR, lst') /\
       Rep lst' (l1 ++ l2) (3 :: fr) /\
       list_print ndebug lst' = Ok (payload d (elem_size lst) <$> (l1 ++ l2))).
Proof.
  intros R Hk.
  pose proof (assert_verified_ok ndebug _ _ _ R) as Hassert.
  pose proof (rep_capacity _ _ _ R) as Hcap.
  pose proof (rep_cap_bound _ _ _ R) as Hcb.
  pose proof (rep_size _ _ _ R) as Hsize.
  assert (Hat : list_element_at ndebug lst k = Ok 3).
  { unfold list_element_at. rewrite Hassert. cbn [obind].
    rewrite wrap_small by lia.
    destruct (Z.geb_spec (k + 1) (size lst)); [done|lia]. }
  unfold list_erase_by_index. rewrite Hassert. cbn [obind].
  rewrite Hat. cbn [obind]. split.
  - intros Hna. unfold list_erase. rewrite Hassert. cbn [obind].
    by rewrite (check_iterator_inactive _ _ _ 3 R) by (done || lia).
  - intros l1 l2 ->.
    pose proof (rep_blocks _ _ _ R) as (d & _ & _ & Hd & _).
    destruct (erase_active_contents ndebug _ _ _ _ _ d R Hd) as (lst' & -> & R' & Hp).
    by exists lst', d.
Qed.

Lemma triple3_rep : Rep triple3 [1; 2; 3] [].
Proof. rep_by_evaluation. Qed.

Lemma list_erase_by_index_out_of_range_witness :
  exists lst' d,
    data triple3 = Some d /\
    list_erase_by_index true triple3 7 = Ok (LIST_NO_ERR, lst') /\
    Rep lst' [1; 2] [3] /\
    list_print true lst' = Ok (payload d (elem_size triple3) <$> [1; 2]).
Proof.
  destruct (list_erase_by_index_out_of_range true triple3 [1; 2; 3] [] 7 triple3_rep)
    as [_ Hin].
  - vm_compute. split; [discriminate|reflexivity].
  - exact (Hin [1; 2] [] eq_refl).
Defined.

(** ** The flag [normalized] on lists built by insertions and erasures *)

Lemma seqZ_snoc_eq (l : list Z) x m n :
  l ++ [x] = seqZ m n -> 0 < n /\ l = seqZ m (n - 1) /\ x = m + n - 1.
Proof.
  intros E.
  assert (Hn : 0 < n).
  { destruct (decide (0 < n)); [done|]. rewrite seqZ_nil in E by lia.
    by destruct l. }
  split; [done|].
  replace n with ((n - 1) + 1) in E by lia.
  rewrite seqZ_app in E by lia.
  change (seqZ (m + (n - 1)) 1) with [m + (n - 1)] in E.
  apply app_inj_tail in E as [-> ->]. split; [done|lia].
Qed.

Lemma seqZ_cons_eq (l : list Z) x m n :
  x :: l = seqZ m n -> 0 < n /\ x = m /\ l = seqZ (m + 1) (n - 1).
Proof.
  intros E.
  assert (Hn : 0 < n).
  { destruct (decide (0 < n)); [done|]. by rewrite seqZ_nil in E by lia. }
  rewrite seqZ_cons in E by lia. injection E as -> ->.
  split; [done|]. split; [done|]. f_equal; lia.
Qed.

Lemma layout_after_insert lst lst' l1 l2 p fr' :
  Rep lst (l1 ++ l2) (p :: fr') -> Rep lst' (l1 ++ p :: l2) fr' ->
  normalized lst' = normalized lst && bool_decide (l2 = []) ->
  (normalized lst = true ->
     l1 ++ l2 = seqZ 1 (size lst - 1) /\
     p :: fr' = seqZ (size lst) (capacity lst - size lst)) ->
  normalized lst' = true ->
  l1 ++ p :: l2 = seqZ 1 (size lst' - 1) /\
  fr' = seqZ (size lst') (capacity lst' - size lst').
Proof.
  intros R R' Hflag Hlay Hn'. rewrite Hflag in Hn'.
  apply andb_true_iff in Hn' as [Hn Hl2]. apply bool_decide_eq_true in Hl2 as ->.
  destruct (Hlay Hn) as [Ha Hf]. rewrite app_nil_r in Ha.
  pose proof (rep_size _ _ _ R) as Hs. pose proof (rep_size _ _ _ R') as Hs'.
  pose proof (rep_capacity _ _ _ R) as Hc. pose proof (rep_capacity _ _ _ R') as Hc'.
  rewrite !length_app in *. cbn [length] in *.
  apply seqZ_cons_eq in Hf as (Hpos & -> & ->).
  split.
  - replace (size lst' - 1) with ((size lst - 1) + 1) by lia.
    rewrite seqZ_app by lia. rewrite <- Ha. f_equal.
    change (seqZ (1 + (size lst - 1)) 1) with [1 + (size lst - 1)]. f_equal. lia.
  - f_equal; lia.
Qed.

Lemma layout_after_erase lst lst' l1 x l2 fr :
  Rep lst (l1 ++ x :: l2) fr -> Rep lst' (l1 ++ l2) (x :: fr) ->
  normalized lst' = normalized lst && bool_decide (l2 = []) ->
  (normalized lst = true ->
     l1 ++ x :: l2 = seqZ 1 (size lst - 1) /\
     fr = seqZ (size lst) (capacity lst - size lst)) ->
  normalized lst' = true ->
  l1 ++ l2 = seqZ 1 (size lst' - 1) /\
  x :: fr = seqZ (size lst') (capacity lst' - size lst').
Proof.
  intros R R' Hflag Hlay Hn'. rewrite Hflag in Hn'.
  apply andb_true_iff in Hn' as [Hn Hl2]. apply bool_decide_eq_true in Hl2 as ->.
  destruct (Hlay Hn) as [Ha Hf]. rewrite app_nil_r.
  pose proof (rep_size _ _ _ R) as Hs. pose proof (rep_size _ _ _ R') as Hs'.
  pose proof (rep_capacity _ _ _ R) as Hc. pose proof (rep_capacity _ _ _ R') as Hc'.
  rewrite !length_app in *. cbn [length] in *.
  apply seqZ_snoc_eq in Ha as (Hpos & -> & ->).
  split; [f_equal; lia|].
  rewrite (seqZ_cons (size lst')) by lia. rewrite Hf.
  f_equal; [lia|]. f_equal; lia.
Qed.

Lemma perform_layout ndebug o lst act fr h lst' h' :
  Rep lst act fr ->
  (normalized lst = true ->
     act = seqZ 1 (size lst - 1) /\ fr = seqZ (size lst) (capacity lst - size lst)) ->
  perform ndebug o lst h = Ok ((LIST_NO_ERR, lst'), h') ->
  exists act' fr',
    Rep lst' act' fr' /\
    (normalized lst' = true ->
       act' = seqZ 1 (size lst' - 1) /\
       fr' = seqZ (size lst') (capacity lst' - size lst')).
Proof.
  intros R Hlay Hrun.
  pose proof (assert_verified_ok ndebug _ _ _ R) as Hassert.
  assert (Hins : forall it v,
             list_insert_after ndebug lst it v h = Ok ((LIST_NO_ERR, lst'), h') ->
             exists act' fr',
               Rep lst' act' fr' /\
               (normalized lst' = true ->
                  act' = seqZ 1 (size lst' - 1) /\
                  fr' = seqZ (size lst') (capacity lst' - size lst'))).
  { intros it v E.
    destruct (list_insert_after_inv _ _ _ _ _ _ _ _ _ R E)
      as (l1 & l2 & p & fr' & -> & _ & -> & _ & _ & R' & Hflag & _).
    exists (l1 ++ p :: l2), fr'. split; [done|].
    by apply (layout_after_insert lst). }
  assert (Hers : forall it r,
             list_erase ndebug lst it = Ok r -> fst r = (LIST_NO_ERR, lst') ->
             exists act' fr',
               Rep lst' act' fr' /\
               (normalized lst' = true ->
                  act' = seqZ 1 (size lst' - 1) /\
                  fr' = seqZ (size lst') (capacity lst' - size lst'))).
  { intros it [[e l] i] E [= -> ->].
    destruct (list_erase_inv _ _ _ _ _ _ _ R E)
      as [(_ & -> & _)|(l1 & l2 & -> & R' & _ & Hflag)]; [by exists act, fr|].
    exists (l1 ++ l2), (it :: fr). split; [done|].
    by apply (layout_after_erase lst). }
  destruct o as [it v|it v|v|v|it|v|i]; cbn in Hrun.
  - eauto.
  - unfold list_insert_before in Hrun. rewrite Hassert, mbind_lift_Ok in Hrun.
    apply mbind_lift_inv in Hrun as (p & _ & Hrun). eauto.
  - unfold list_insert_to_head, list_insert_before in Hrun.
    rewrite Hassert, !mbind_lift_Ok in Hrun.
    apply mbind_lift_inv in Hrun as (p & _ & Hrun). eauto.
  - unfold list_insert_to_tail in Hrun. rewrite Hassert, mbind_lift_Ok in Hrun. eauto.
  - apply lift_Ok_inv in Hrun as [Hrun _].
    apply obind_Ok_inv in Hrun as (r & E & [= Hr]). eauto.
  - apply lift_Ok_inv in Hrun as [Hrun _]. unfold list_erase_by_value in Hrun.
    rewrite Hassert in Hrun. cbn [obind] in Hrun.
    apply obind_Ok_inv in Hrun as (it & _ & Hrun).
    apply obind_Ok_inv in Hrun as (r & E & [= Hr]). eauto.
  - apply lift_Ok_inv in Hrun as [Hrun _]. unfold list_erase_by_index in Hrun.
    rewrite Hassert in Hrun. cbn [obind] in Hrun.
    apply obind_Ok_inv in Hrun as (it & _ & Hrun).
    apply obind_Ok_inv in Hrun as (r & E & [= Hr]). eauto.
Qed.

(** X19: the flag [normalized] is truthful on every list obtained from
    [list_create] by erasures and by insertions into a list with a free
    slot that reported [LIST_NO_ERR], so that the arrays never had to grow:
    whenever it is set, the elements occupy the slots [1 .. size - 1] in
    their logical order and the free chain runs through the slots
    [size .. capacity - 1] in increasing order.  Hence [list_element_at]
    returns the element at the position asked for on every such list,
    flagged or not, and [list_is_normalized] tells which of the two ways it
    took. *)
Theorem normalized_flag_is_truthful ndebug lst :
  built_in_place ndebug lst ->
  exists act fr,
    Rep lst act fr /\
    list_is_normalized ndebug lst = Ok (normalized lst) /\
    (normalized lst = true ->
       act = seqZ 1 (size lst - 1) /\
       fr = seqZ (size lst) (capacity lst - size lst)) /\
    (forall k x, 0 <= k -> act !! Z.to_nat k = Some x ->
       list_element_at ndebug lst k = Ok x).
Proof.
  intros Hbuilt.
  assert (Hinv : exists act fr,
             Rep lst act fr /\
             (normalized lst = true ->
                act = seqZ 1 (size lst - 1) /\
                fr = seqZ (size lst) (capacity lst - size lst))).
  { induction Hbuilt
      as [sc es h lst h' Hsc Hes Hc|o lst h lst' h' _ (act & fr & R & Hlay) _ Hrun].
    - destruct (list_create_rep _ _ _ _ _ Hsc Hes Hc) as (R & _ & _ & Hs & _).
      exists [], (seqZ 1 (capacity lst - 1)). split; [done|].
      intros _. rewrite Hs. done.
    - by eapply perform_layout. }
  destruct Hinv as (act & fr & R & Hlay).
  exists act, fr. split; [done|]. split; [|split; [done|]].
  - unfold list_is_normalized. by rewrite (assert_verified_ok ndebug _ _ _ R).
  - intros k x Hk Hx. apply (list_element_at_in_range _ _ act fr); try done.
    intros Hn. destruct (Hlay Hn) as [Ha _]. rewrite Ha at 1.
    rewrite (rep_size _ _ _ R). f_equal. lia.
Qed.

Lemma normalized_flag_is_truthful_witness :
  exists act fr,
    Rep swapped3 act fr /\
    list_is_normalized true swapped3 = Ok (normalized swapped3) /\
    (normalized swapped3 = true ->
       act = seqZ 1 (size swapped3 - 1) /\
       fr = seqZ (size swapped3) (capacity swapped3 - size swapped3)) /\
    (forall k x, 0 <= k -> act !! Z.to_nat k = Some x ->
       list_element_at true swapped3 k = Ok x).
Proof. exact (normalized_flag_is_truthful true swapped3 (swapped3_built true)). Defined.

(** ** Changing the capacity without growing *)

Lemma calloc_granted {A : Type} (zero : A) count width s l :
  List.hd true s = true -> count * width < SIZE_MODULUS ->
  calloc zero count width (mkHeap s l)
  = Ok (Some (replicate (Z.to_nat count) zero), mkHeap (List.tl s) (l + 1)).
Proof.
  intros Hhd Hsz. rewrite calloc_eq, granted_Some by done. done.
Qed.

Lemma grants_three (s : list bool) :
  false ∉ take 3 s ->
  List.hd true s = true /\ List.hd true (List.tl s) = true /\
  List.hd true (List.tl (List.tl s)) = true.
Proof.
  intros H. destruct s as [|[] [|[] [|[] s]]]; cbn in *; try done; set_solver.
Qed.

Lemma memcpy_fresh {A : Type} (zero : A) (d : list A) n :
  0 <= n <= Z.of_nat (length d) ->
  memcpy (Some (replicate (Z.to_nat n) zero)) 0 (Some d) 0 n
  = Ok (Some (take (Z.to_nat n) d)).
Proof.
  intros Hn. unfold memcpy. rewrite cells_Ok by lia. cbn [obind].
  rewrite drop_0, blit_Ok; [|lia|rewrite length_take, length_replicate; lia].
  cbn. do 2 f_equal. rewrite length_take, drop_ge, app_nil_r; [done|].
  rewrite length_replicate. lia.
Qed.

(** The path of [list_change_capacity] that allocates, copies and does not
    grow, for a list on which [list_normalize] is not called or returns at
    once. *)
Lemma list_change_capacity_copy ndebug lst d ns ps n h :
  assert_verified ndebug lst = Ok tt ->
  data lst = Some d -> nexts lst = Some ns -> prevs lst = Some ps ->
  Z.of_nat (length d) = capacity lst * elem_size lst ->
  Z.of_nat (length ns) = capacity lst -> Z.of_nat (length ps) = capacity lst ->
  0 <= elem_size lst ->
  size lst <= wrap (n + 1) <= capacity lst ->
  normalized lst = true \/ wrap (n + 1) = capacity lst ->
  wrap (n + 1) * elem_size lst < SIZE_MODULUS ->
  capacity lst * SIZEOF_SIZE_T < SIZE_MODULUS ->
  false ∉ take 3 (supply h) ->
  list_change_capacity ndebug lst n h
  = Ok ((LIST_NO_ERR,
         mkList (Some (take (Z.to_nat (wrap (n + 1) * elem_size lst)) d))
                (Some (take (Z.to_nat (wrap (n + 1))) ns))
                (Some (take (Z.to_nat (wrap (n + 1))) ps))
                (elem_size lst) (size lst) (wrap (n + 1)) (first_free lst)
                (head lst) (tail lst) (normalized lst)),
        mkHeap (drop 3 (supply h)) (live h)).
Proof.
  intros Hassert Hd Hns Hps Hld Hlns Hlps Hes Hc Hnorm Hbd Hbl Hgr.
  assert (Hc0 : 0 <= wrap (n + 1)) by (apply Z.mod_pos_bound; done).
  destruct (grants_three _ Hgr) as (G1 & G2 & G3).
  destruct h as [s l]. cbn [supply live] in *.
  unfold list_change_capacity. rewrite Hassert, mbind_lift_Ok. cbv zeta.
  set (c := wrap (n + 1)) in *.
  destruct (Z.ltb_spec c (size lst)); [lia|].
  assert (Hpre : (if c <? capacity lst then list_normalize ndebug lst else Ok lst)
                 = Ok lst).
  { destruct (Z.ltb_spec c (capacity lst)); [|done].
    destruct Hnorm as [Hn|]; [|lia].
    unfold list_normalize. by rewrite Hassert, Hn. }
  rewrite Hpre, mbind_lift_Ok.
  assert (Hb1 : c * elem_size lst * 1 < SIZE_MODULUS) by lia.
  assert (Hb2 : c * SIZEOF_SIZE_T < SIZE_MODULUS) by (unfold SIZEOF_SIZE_T in *; lia).
  rewrite (mbind_Ok _ _ _ _ _ (calloc_granted x00 _ _ _ _ G1 Hb1)).
  rewrite (mbind_Ok _ _ _ _ _ (calloc_granted 0 _ _ _ _ G2 Hb2)).
  rewrite (mbind_Ok _ _ _ _ _ (calloc_granted 0 _ _ _ _ G3 Hb2)).
  cbn [is_null orb supply live].
  rewrite Hd, Hns, Hps.
  rewrite memcpy_fresh by nia. rewrite mbind_lift_Ok.
  rewrite memcpy_fresh by lia. rewrite mbind_lift_Ok.
  rewrite memcpy_fresh by lia. rewrite mbind_lift_Ok.
  destruct (Z.gtb_spec c (capacity lst)); [lia|].
  rewrite mbind_lift_Ok. cbn.
  rewrite Hd, Hns, Hps.
  rewrite !(mbind_Ok _ _ _ _ _ (free_eq _ _)). cbn.
  unfold mret. do 2 f_equal. f_equal.
  - destruct s as [|? [|? [|? ?]]]; done.
  - lia.
Qed.

Lemma record_eta (lst : list_t_) :
  mkList (data lst) (nexts lst) (prevs lst) (elem_size lst) (size lst)
         (capacity lst) (first_free lst) (head lst) (tail lst) (normalized lst)
  = lst.
Proof. by destruct lst. Qed.

(** X20: two requests to [list_change_capacity] that leave a valid list as
    it is.  A capacity below the number of slots in use (in particular
    [SIZE_MAX], whose increment wraps to 0) is refused with
    [LIST_BAD_CAPACITY] before anything is allocated.  The capacity the list
    already has is honoured by allocating three new arrays and copying the
    old ones: the list afterwards is equal to the list before, field by
    field and cell by cell, and as many blocks are live as before. *)
Theorem change_capacity_edge_requests ndebug lst act fr :
  Rep lst act fr ->
  (forall n h, wrap (n + 1) < size lst ->
     list_change_capacity ndebug lst n h = Ok ((LIST_BAD_CAPACITY, lst), h)) /\
  list_change_capacity ndebug lst (SIZE_MODULUS - 1) heap0
  = Ok ((LIST_BAD_CAPACITY, lst), heap0) /\
  (forall n h,
     wrap (n + 1) = capacity lst ->
     capacity lst * elem_size lst < SIZE_MODULUS ->
     false ∉ take 3 (supply h) ->
     exists h', list_change_capacity ndebug lst n h = Ok ((LIST_NO_ERR, lst), h') /\
                live h' = live h).
Proof.
  intros R.
  pose proof (assert_verified_ok ndebug _ _ _ R) as Hassert.
  pose proof (rep_capacity_size _ _ _ R) as Hcs.
  pose proof (rep_size _ _ _ R) as Hs.
  assert (Hsmall : forall n h, wrap (n + 1) < size lst ->
            list_change_capacity ndebug lst n h = Ok ((LIST_BAD_CAPACITY, lst), h)).
  { intros n h Hn. unfold list_change_capacity.
    rewrite Hassert, mbind_lift_Ok. cbv zeta.
    by destruct (Z.ltb_spec (wrap (n + 1)) (size lst)); [|lia]. }
  split; [done|]. split.
  - apply Hsmall. replace (SIZE_MODULUS - 1 + 1) with SIZE_MODULUS by lia.
    change (wrap SIZE_MODULUS) with 0. lia.
  - intros n h Hn Hbd Hgr.
    pose proof (rep_bytes _ _ _ R) as Hbl.
    pose proof (rep_elem_size _ _ _ R) as Hes.
    pose proof (rep_blocks _ _ _ R) as (d & ns & ps & Hd & Hns & Hps & Hld & Hlns & Hlps & _).
    assert (H0 : 0 <= elem_size lst) by lia.
    assert (Hc : size lst <= wrap (n + 1) <= capacity lst) by lia.
    assert (Hbd' : wrap (n + 1) * elem_size lst < SIZE_MODULUS) by (by rewrite Hn).
    pose proof (list_change_capacity_copy ndebug lst d ns ps n h Hassert Hd Hns Hps
                  Hld Hlns Hlps H0 Hc (or_intror Hn) Hbd' Hbl Hgr) as E.
    exists (mkHeap (drop 3 (supply h)) (live h)). split; [|done]. rewrite E.
    do 3 f_equal. rewrite Hn.
    rewrite !take_ge by lia. rewrite <- Hd, <- Hns, <- Hps. apply record_eta.
Qed.

Lemma change_capacity_edge_requests_witness :
  list_change_capacity true swapped3 0 heap0 = Ok ((LIST_BAD_CAPACITY, swapped3), heap0) /\
  exists h', list_change_capacity true swapped3 3 heap0 = Ok ((LIST_NO_ERR, swapped3), h') /\
             live h' = live heap0.
Proof.
  destruct (change_capacity_edge_requests true swapped3 [2; 1] [3] swapped3_rep)
    as (Hsmall & _ & Hsame).
  split.
  - apply Hsmall. vm_compute. reflexivity.
  - apply Hsame.
    + reflexivity.
    + reflexivity.
    + cbn. set_solver.
Defined.

(** ** Shrinking *)

Lemma sel_take_lt {A : Type} (l : list A) c i :
  0 <= i < c -> sel (take (Z.to_nat c) l) i = sel l i.
Proof.
  intros Hi. unfold sel. destruct (Z.ltb_spec i 0); [lia|].
  apply lookup_take_lt. lia.
Qed.

Lemma sel_take_ge {A : Type} (l : list A) c i :
  0 <= c <= i -> sel (take (Z.to_nat c) l) i = None.
Proof.
  intros Hi. apply sel_None. rewrite length_take. lia.
Qed.

Lemma linked_seqZ_inv a e (k : nat) : forall lo i,
  linked a (seqZ lo (Z.of_nat k) ++ [e]) ->
  lo <= i < lo + Z.of_nat k - 1 -> sel a i = Some (i + 1).
Proof.
  induction k as [|k IH]; intros lo i Hl Hi; [lia|].
  rewrite seqZ_cons in Hl by lia.
  replace (Z.pred (Z.of_nat (S k))) with (Z.of_nat k) in Hl by lia.
  destruct k as [|k]; [lia|].
  rewrite (seqZ_cons (Z.succ lo)) in Hl by lia. cbn [app linked] in Hl.
  destruct Hl as [Hlo Hl].
  destruct (decide (i = lo)) as [->|Hne]; [by rewrite Hlo; f_equal; lia|].
  apply (IH (Z.succ lo)); [|lia].
  rewrite (seqZ_cons (Z.succ lo)) by lia. exact Hl.
Qed.

Lemma verify_free_loop_runs_off lst ns ps c (m : nat) : forall i k fuel,
  nexts lst = Some ns -> prevs lst = Some ps ->
  Z.of_nat (length ps) = c ->
  (forall j, i <= j < c -> sel ns j = Some (j + 1) /\ sel ps j = Some j) ->
  0 < i -> i + Z.of_nat m = c -> 0 <= k ->
  k + Z.of_nat m <= wrap (capacity lst - size lst) ->
  k + Z.of_nat m < SIZE_MODULUS - 1 ->
  (m < fuel)%nat ->
  verify_free_loop fuel lst i k = Undef.
Proof.
  induction m as [|m IH]; intros i k fuel Hns Hps Hlen Hsel Hi Him Hk Hw Hb Hfuel.
  - destruct fuel as [|fuel]; [lia|]. cbn [verify_free_loop].
    destruct (Z.eqb_spec i 0); [lia|].
    destruct (Z.gtb_spec k (wrap (capacity lst - size lst))); [lia|].
    unfold prev_at, rd. rewrite Hps, sel_None by lia. done.
  - destruct fuel as [|fuel]; [lia|]. cbn [verify_free_loop].
    destruct (Z.eqb_spec i 0); [lia|].
    destruct (Z.gtb_spec k (wrap (capacity lst - size lst))); [lia|].
    destruct (Hsel i) as [Hn Hp]; [lia|].
    unfold prev_at, next_at. rewrite Hps, Hns.
    apply rd_Ok in Hn, Hp. rewrite Hp. cbn [obind].
    rewrite Z.eqb_refl. cbn [negb]. rewrite Hn. cbn [obind].
    destruct (Z.eqb_spec (i + 1) i); [lia|].
    rewrite wrap_small by lia.
    apply IH; try done; try lia.
    intros j Hj. apply Hsel. lia.
Qed.

(** X21: shrinking breaks the free chain.  Take a valid list that is
    flagged normalized and laid out accordingly (as every flagged list built
    by insertions and erasures is), and shrink it to a capacity that still
    holds its elements, above 1 and below the present capacity.  With a
    granting allocator [list_change_capacity] reports [LIST_NO_ERR], but the
    list it leaves is not valid: [first_free] and the link of the last free
    slot kept still point to slots that were cut off.  [list_verify] returns
    [LIST_BAD_FIRST_FREE_ELEM] when no free slot is kept, and otherwise
    follows the free chain to an index equal to the new capacity, where it
    reads [prevs] past the end. *)
Theorem shrinking_leaves_an_invalid_list ndebug lst n h :
  Rep lst (seqZ 1 (size lst - 1)) (seqZ (size lst) (capacity lst - size lst)) ->
  normalized lst = true ->
  size lst <= wrap (n + 1) < capacity lst -> 1 < wrap (n + 1) ->
  capacity lst * elem_size lst < SIZE_MODULUS ->
  false ∉ take 3 (supply h) ->
  exists lst' h',
    list_change_capacity ndebug lst n h = Ok ((LIST_NO_ERR, lst'), h') /\
    capacity lst' = wrap (n + 1) /\ size lst' = size lst /\
    first_free lst' = size lst /\ live h' = live h /\
    list_verify lst'
    = (if wrap (n + 1) =? size lst then Ok LIST_BAD_FIRST_FREE_ELEM else Undef).
Proof.
  intros R Hnorm Hc Hc1 Hbd Hgr.
  pose proof (assert_verified_ok ndebug _ _ _ R) as Hassert.
  pose proof (rep_bytes _ _ _ R) as Hbl.
  pose proof (rep_elem_size _ _ _ R) as Hes.
  pose proof (rep_cap_bound _ _ _ R) as Hcb.
  pose proof (rep_size _ _ _ R) as Hsize.
  pose proof (rep_head _ _ _ R) as Hhead.
  pose proof (rep_tail _ _ _ R) as Htail.
  pose proof (rep_first_free _ _ _ R) as Hff.
  pose proof (rep_blocks _ _ _ R)
    as (d & ns & ps & Hd & Hns & Hps & Hld & Hlns & Hlps & _ & _ & Hfree & Hself).
  assert (Hs1 : 1 <= size lst) by lia.
  rewrite seqZ_cons in Hff by lia.
  assert (H0 : 0 <= elem_size lst) by lia.
  assert (Hc' : size lst <= wrap (n + 1) <= capacity lst) by lia.
  assert (Hbd' : wrap (n + 1) * elem_size lst < SIZE_MODULUS) by nia.
  pose proof (list_change_capacity_copy ndebug lst d ns ps n h Hassert Hd Hns Hps
                Hld Hlns Hlps H0 Hc' (or_introl Hnorm) Hbd' Hbl Hgr) as E.
  remember (wrap (n + 1)) as c eqn:Ec. clear Ec Hc'.
  eexists _, _. split; [exact E|].
  cbn [capacity size first_free live].
  split; [done|]. split; [done|]. split; [done|]. split; [done|].
  unfold list_verify, list_verify_func_.
  cbn [data nexts prevs elem_size size capacity first_free head tail is_null orb].
  destruct (Z.eqb_spec (size lst) 0); [lia|].
  destruct (Z.ltb_spec c (size lst)); [lia|]. cbn [orb].
  destruct (Z.eqb_spec (elem_size lst) 0); [lia|].
  rewrite Hff.
  destruct (Z.eqb_spec c 1); [lia|].
  destruct (Z.eqb_spec (size lst) 0); [lia|]. cbn [negb andb].
  assert (Hselfi : forall j, size lst <= j < capacity lst -> sel ps j = Some j).
  { intros j Hj. rewrite Forall_forall in Hself. apply Hself.
    apply elem_of_seqZ. lia. }
  destruct (Z.eqb_spec c (size lst)) as [Heq|Hne].
  { rewrite Heq. destruct (Z.geb_spec (size lst) (size lst)); [|lia]. done. }
  destruct (Z.geb_spec (size lst) c); [lia|].
  unfold prev_at at 1. cbn [prevs].
  assert (Hp : rd (Some (take (Z.to_nat c) ps)) (size lst) = Ok (size lst)).
  { apply rd_Ok. rewrite sel_take_lt by lia. apply Hselfi. lia. }
  rewrite Hp. cbn [obind]. rewrite Z.eqb_refl. cbn [negb andb].
  assert (Hht : hd0 (seqZ 1 (size lst - 1)) < c /\ last0 (seqZ 1 (size lst - 1)) < c /\
                (size lst = 1 -> hd0 (seqZ 1 (size lst - 1)) = 0
                                 /\ last0 (seqZ 1 (size lst - 1)) = 0)).
  { destruct (decide (size lst = 1)) as [Hs|Hs].
    { rewrite Hs. change (1 - 1) with 0. rewrite seqZ_nil by lia. cbn. lia. }
    split; [|split; [|lia]].
    - rewrite seqZ_cons by lia. cbn. lia.
    - replace (size lst - 1) with ((size lst - 2) + 1) by lia.
      rewrite seqZ_app by lia.
      change (seqZ (1 + (size lst - 2)) 1) with [1 + (size lst - 2)].
      rewrite last0_snoc. lia. }
  destruct Hht as (Hh & Ht & Hone).
  rewrite Hhead, Htail.
  destruct (Z.geb_spec (hd0 (seqZ 1 (size lst - 1))) c); [lia|].
  destruct (Z.geb_spec (last0 (seqZ 1 (size lst - 1))) c); [lia|]. cbn [orb].
  assert (Hh1 : (size lst =? 1) && negb (hd0 (seqZ 1 (size lst - 1)) =? 0) = false).
  { destruct (Z.eqb_spec (size lst) 1) as [Hs|]; [|done].
    destruct (Hone Hs) as [-> _]. done. }
  assert (Ht1 : (size lst =? 1) && negb (last0 (seqZ 1 (size lst - 1)) =? 0) = false).
  { destruct (Z.eqb_spec (size lst) 1) as [Hs|]; [|done].
    destruct (Hone Hs) as [_ ->]. done. }
  rewrite Hh1, Ht1.
  match goal with
  | |- context [verify_free_loop ?f ?l ?i ?k] =>
      assert (Hoff : verify_free_loop f l i k = Undef)
  end.
  { apply (verify_free_loop_runs_off _ (take (Z.to_nat c) ns) (take (Z.to_nat c) ps) c
             (Z.to_nat (c - size lst))); cbn [nexts prevs capacity size].
    - reflexivity.
    - reflexivity.
    - rewrite length_take. lia.
    - intros j Hj. rewrite !sel_take_lt by lia. split; [|apply Hselfi; lia].
      replace (capacity lst - size lst)
        with (Z.of_nat (Z.to_nat (capacity lst - size lst))) in Hfree by lia.
      apply (linked_seqZ_inv ns 0 (Z.to_nat (capacity lst - size lst)) (size lst));
        [done|lia].
    - lia.
    - lia.
    - lia.
    - rewrite wrap_small by lia. lia.
    - assert (SIZE_MODULUS = 18446744073709551616) by reflexivity. lia.
    - unfold link_fuel. cbn [capacity]. lia. }
  by rewrite Hoff.
Qed.

Lemma shrinking_leaves_an_invalid_list_witness :
  exists lst' h',
    list_change_capacity true single3 2 heap0 = Ok ((LIST_NO_ERR, lst'), h') /\
    capacity lst' = 3 /\ size lst' = 2 /\ first_free lst' = 2 /\
    live h' = live heap0 /\ list_verify lst' = Undef.
Proof.
  apply (shrinking_leaves_an_invalid_list true single3 2 heap0).
  - exact single3_rep.
  - reflexivity.
  - vm_compute. split; [discriminate|reflexivity].
  - reflexivity.
  - reflexivity.
  - cbn. set_solver.
Defined.

(** ** Clearing *)

(** The first-free check of the verifier passes on a valid list whatever its
    [size] field is set to. *)
Lemma first_free_check_ok lst act fr :
  Rep lst act fr -> capacity lst <> 1 ->
  (do bad_ff <- (if first_free lst >=? capacity lst then Ok true
                 else do p <- prev_at lst (first_free lst);
                      Ok (negb (p =? first_free lst)));
   Ok (bad_ff && negb (capacity lst =? 1) && negb (first_free lst =? 0)))
  = Ok false.
Proof.
  intros R Hc1.
  pose proof (rep_capacity _ _ _ R) as Hcap.
  pose proof (rep_first_free _ _ _ R) as Hff.
  pose proof (rep_blocks _ _ _ R)
    as (d & ns & ps & Hd & Hns & Hps & Hld & Hlns & Hlps & _ & _ & _ & Hself).
  destruct fr as [|f fr'].
  - destruct Hff as [Hff|[Hc Hff]]; [|done].
    rewrite Hff. destruct (Z.geb_spec 0 (capacity lst)); [lia|].
    unfold prev_at. rewrite Hps.
    destruct (sel_is_Some ps 0) as [p Hp]; [lia|].
    apply rd_Ok in Hp. rewrite Hp. cbn. by rewrite andb_false_r.
  - rewrite Hff. apply Forall_cons in Hself as [Hsf _].
    apply sel_bound in Hsf as Hb.
    destruct (Z.geb_spec f (capacity lst)); [lia|].
    unfold prev_at. rewrite Hps. apply rd_Ok in Hsf. rewrite Hsf. cbn.
    by rewrite Z.eqb_refl.
Qed.

Lemma rep_nonempty_head lst act fr :
  Rep lst act fr -> act <> [] ->
  0 < head lst < capacity lst /\ 2 <= capacity lst.
Proof.
  intros R Hne.
  pose proof (hd0_in_nonempty act Hne) as Hin.
  pose proof (rep_act_range _ _ _ R _ Hin). rewrite (rep_head _ _ _ R). lia.
Qed.

Lemma verify_size_reset_nonempty lst act fr b :
  Rep lst act fr -> act <> [] ->
  list_verify (set_size (set_normalized lst b) 1) = Ok LIST_BAD_HEAD_ITERATOR.
Proof.
  intros R Hne.
  destruct (rep_nonempty_head _ _ _ R Hne) as [Hh Hc].
  pose proof (rep_elem_size _ _ _ R) as Hes.
  pose proof (rep_blocks _ _ _ R) as (d & ns & ps & Hd & Hns & Hps & _).
  pose proof (first_free_check_ok _ _ _ R ltac:(lia)) as Hbad.
  unfold list_verify, list_verify_func_.
  cbn [set_size set_normalized data nexts prevs elem_size size capacity
       first_free head tail].
  rewrite Hd, Hns, Hps. cbn [is_null orb].
  change (1 =? 0) with false. cbn [orb].
  destruct (Z.ltb_spec (capacity lst) 1); [lia|].
  destruct (Z.eqb_spec (elem_size lst) 0); [lia|].
  unfold prev_at in *. cbn [prevs] in *. rewrite Hps in *.
  destruct (if first_free lst >=? capacity lst then Ok true
            else do p <- rd (Some ps) (first_free lst);
                 Ok (negb (p =? first_free lst))) as [bad| | |];
    cbn in Hbad |- *; try discriminate.
  injection Hbad as ->.
  destruct (Z.geb_spec (head lst) (capacity lst)); [lia|].
  destruct (Z.eqb_spec (head lst) 0); [lia|]. done.
Qed.

(** X22: [list_clear] on a valid list that holds at least one element.
    In a build with asserts the call aborts: the function sets [size] to 1
    before it calls [list_change_capacity], whose entry assert then finds
    the head still set.  With the asserts compiled out and a granting
    allocator it returns [LIST_NO_ERR] and leaves a list of capacity 1 with
    [head] and [tail] as they were, which [list_verify] rejects with
    [LIST_BAD_HEAD_ITERATOR]. *)
Theorem list_clear_forgets_head_and_tail lst act fr h :
  Rep lst act fr -> act <> [] ->
  elem_size lst < SIZE_MODULUS -> false ∉ take 3 (supply h) ->
  list_clear false lst h = AssertFail /\
  exists lst' h',
    list_clear true lst h = Ok ((LIST_NO_ERR, lst'), h') /\
    live h' = live h /\
    size lst' = 1 /\ capacity lst' = 1 /\
    head lst' = head lst /\ tail lst' = tail lst /\ head lst <> 0 /\
    list_verify lst' = Ok LIST_BAD_HEAD_ITERATOR.
Proof.
  intros R Hne Hesb Hgr.
  destruct (rep_nonempty_head _ _ _ R Hne) as [Hh Hc].
  pose proof (rep_elem_size _ _ _ R) as Hes.
  pose proof (rep_bytes _ _ _ R) as Hbl.
  pose proof (rep_blocks _ _ _ R)
    as (d & ns & ps & Hd & Hns & Hps & Hld & Hlns & Hlps & _).
  split.
  - unfold list_clear.
    rewrite (assert_verified_ok false _ _ _ R), mbind_lift_Ok. cbv zeta.
    unfold mbind at 1. unfold list_change_capacity. unfold mbind at 1.
    unfold lift at 1. unfold assert_verified.
    by rewrite (verify_size_reset_nonempty _ _ _ true R Hne).
  - set (lst1 := set_size (set_normalized lst true) 1).
    assert (Hw : wrap (0 + 1) = 1) by reflexivity.
    assert (E : list_change_capacity true lst1 0 h
                = Ok ((LIST_NO_ERR,
                       mkList (Some (take (Z.to_nat (1 * elem_size lst)) d))
                              (Some (take (Z.to_nat 1) ns))
                              (Some (take (Z.to_nat 1) ps))
                              (elem_size lst) 1 1 (first_free lst)
                              (head lst) (tail lst) true),
                      mkHeap (drop 3 (supply h)) (live h))).
    { apply (list_change_capacity_copy true lst1 d ns ps 0 h); unfold lst1;
        cbn [set_size set_normalized data nexts prevs elem_size size
             capacity first_free head tail normalized]; rewrite ?Hw.
      - reflexivity.
      - done.
      - done.
      - done.
      - done.
      - done.
      - done.
      - lia.
      - lia.
      - by left.
      - lia.
      - done.
      - done. }
    unfold list_clear. change (assert_verified true lst) with (Ok tt).
    rewrite mbind_lift_Ok. cbv zeta. fold lst1.
    rewrite (mbind_Ok _ _ _ _ _ E). cbn [is_no_err negb].
    destruct ns as [|n0 ns]; [cbn in Hlns; lia|].
    destruct ps as [|p0 ps]; [cbn in Hlps; lia|].
    unfold lift, next_put, prev_put. cbn.
    eexists _, _. split; [reflexivity|]. cbn.
    split; [done|]. split; [done|]. split; [done|]. split; [done|].
    split; [done|]. split; [lia|].
    unfold list_verify, list_verify_func_. cbn.
    destruct (Z.eqb_spec (elem_size lst) 0); [lia|].
    destruct (Z.geb_spec (first_free lst) 1).
    + cbn. by destruct (Z.geb_spec (head lst) 1); [|lia].
    + unfold prev_at, rd, sel. cbn.
      destruct (Z.ltb_spec (first_free lst) 0).
      * pose proof (rep_first_free _ _ _ R) as Hff. destruct fr as [|f fr'].
        -- destruct Hff as [?|[? ?]]; lia.
        -- assert (0 < f) by (apply (rep_free_range _ _ _ R); set_solver). lia.
      * assert (first_free lst = 0) as -> by lia. cbn.
        by destruct (Z.geb_spec (head lst) 1); [|lia].
Qed.

Lemma list_clear_forgets_head_and_tail_witness :
  list_clear false swapped3 heap0 = AssertFail /\
  exists lst' h',
    list_clear true swapped3 heap0 = Ok ((LIST_NO_ERR, lst'), h') /\
    live h' = live heap0 /\
    size lst' = 1 /\ capacity lst' = 1 /\
    head lst' = head swapped3 /\ tail lst' = tail swapped3 /\ head swapped3 <> 0 /\
    list_verify lst' = Ok LIST_BAD_HEAD_ITERATOR.
Proof.
  apply (list_clear_forgets_head_and_tail swapped3 [2; 1] [3] heap0 swapped3_rep).
  - discriminate.
  - reflexivity.
  - cbn. set_solver.
Defined.

Lemma rep_reset_empty lst fr b :
  Rep lst [] fr -> Rep (set_size (set_normalized lst b) 1) [] fr.
Proof.
  intros R. pose proof (rep_size _ _ _ R) as Hs. cbn in Hs.
  destruct R as [Hblocks Hes Hbytes Hslots Hsize Hhead Htail Hff].
  by constructor.
Qed.

Lemma verify_capacity_one lst d ns :
  data lst = Some d -> nexts lst = Some ns -> prevs lst = Some [0] ->
  size lst = 1 -> capacity lst = 1 -> elem_size lst <> 0 ->
  head lst = 0 -> tail lst = 0 -> 0 <= first_free lst ->
  list_verify lst = Ok LIST_NO_ERR.
Proof.
  intros Hd Hns Hps Hs Hc Hes Hh Ht Hff.
  unfold list_verify, list_verify_func_.
  rewrite Hd, Hns, Hps, Hs, Hc, Hh, Ht. cbn.
  destruct (Z.eqb_spec (elem_size lst) 0); [done|].
  destruct (Z.geb_spec (first_free lst) 1); [done|].
  assert (first_free lst = 0) as -> by lia.
  unfold prev_at. by rewrite Hps.
Qed.

(** X23: [list_clear] on a valid list that holds no element succeeds in
    both builds when the allocator grants the three arrays: it returns
    [LIST_NO_ERR], as many blocks are live as before, and the list left has
    capacity 1 (so [list_capacity] is 0), no element, and passes
    [list_verify]. *)
Theorem list_clear_of_empty_list ndebug lst fr h :
  Rep lst [] fr ->
  elem_size lst < SIZE_MODULUS -> false ∉ take 3 (supply h) ->
  exists lst' h',
    list_clear ndebug lst h = Ok ((LIST_NO_ERR, lst'), h') /\
    live h' = live h /\
    list_verify lst' = Ok LIST_NO_ERR /\
    list_size lst' = 0 /\ list_capacity lst' = 0 /\
    elem_size lst' = elem_size lst /\
    list_print ndebug lst' = Ok [].
Proof.
  intros R Hesb Hgr.
  pose proof (rep_elem_size _ _ _ R) as Hes.
  pose proof (rep_bytes _ _ _ R) as Hbl.
  pose proof (rep_capacity _ _ _ R) as Hcap.
  pose proof (rep_head _ _ _ R) as Hhead.
  pose proof (rep_tail _ _ _ R) as Htail.
  pose proof (rep_blocks _ _ _ R)
    as (d & ns & ps & Hd & Hns & Hps & Hld & Hlns & Hlps & _).
  set (lst1 := set_size (set_normalized lst true) 1).
  pose proof (rep_reset_empty _ _ true R) as R1. fold lst1 in R1.
  assert (Hw : wrap (0 + 1) = 1) by reflexivity.
  assert (E : list_change_capacity ndebug lst1 0 h
              = Ok ((LIST_NO_ERR,
                     mkList (Some (take (Z.to_nat (1 * elem_size lst)) d))
                            (Some (take (Z.to_nat 1) ns))
                            (Some (take (Z.to_nat 1) ps))
                            (elem_size lst) 1 1 (first_free lst)
                            (head lst) (tail lst) true),
                    mkHeap (drop 3 (supply h)) (live h))).
  { apply (list_change_capacity_copy ndebug lst1 d ns ps 0 h); unfold lst1;
      cbn [set_size set_normalized data nexts prevs elem_size size
           capacity first_free head tail normalized]; rewrite ?Hw.
    - by apply (assert_verified_ok ndebug _ [] fr).
    - done.
    - done.
    - done.
    - done.
    - done.
    - done.
    - lia.
    - cbn in Hcap. lia.
    - by left.
    - lia.
    - done.
    - done. }
  set (lstR := mkList (Some (take (Z.to_nat (1 * elem_size lst)) d)) (Some [0])
                      (Some [0]) (elem_size lst) 1 1 (first_free lst) 0 0 true).
  assert (Hrun : list_clear ndebug lst h
                 = Ok ((LIST_NO_ERR, lstR), mkHeap (drop 3 (supply h)) (live h))).
  { unfold list_clear.
    rewrite (assert_verified_ok ndebug _ _ _ R), mbind_lift_Ok. cbv zeta. fold lst1.
    rewrite (mbind_Ok _ _ _ _ _ E). cbn [is_no_err negb].
    destruct ns as [|n0 ns]; [cbn in Hlns; lia|].
    destruct ps as [|p0 ps]; [cbn in Hlps; lia|].
    unfold lift, next_put, prev_put, lstR. cbn.
    by rewrite Hhead, Htail. }
  assert (Hv : list_verify lstR = Ok LIST_NO_ERR).
  { eapply verify_capacity_one; unfold lstR; cbn; try done; [lia|].
    pose proof (rep_first_free _ _ _ R) as Hff. destruct fr as [|f fr'].
    - destruct Hff as [?|[? ?]]; lia.
    - assert (0 < f) by (apply (rep_free_range _ _ _ R); set_solver). lia. }
  exists lstR, (mkHeap (drop 3 (supply h)) (live h)).
  split; [exact Hrun|]. split; [done|]. split; [exact Hv|].
  split; [done|]. split; [done|]. split; [done|].
  unfold list_print, list_head, assert_verified. rewrite Hv.
  by destruct ndebug.
Qed.

Lemma list_clear_of_empty_list_witness :
  exists lst' h',
    list_clear false fresh3 heap0 = Ok ((LIST_NO_ERR, lst'), h') /\
    live h' = live heap0 /\
    list_verify lst' = Ok LIST_NO_ERR /\
    list_size lst' = 0 /\ list_capacity lst' = 0 /\
    elem_size lst' = elem_size fresh3 /\
    list_print false lst' = Ok [].
Proof.
  apply (list_clear_of_empty_list false fresh3 [1; 2; 3] heap0 fresh3_rep).
  - reflexivity.
  - cbn. set_solver.
Defined.

(** ** Normalization *)

(** X24: on a valid list [list_swap_vals] exchanges the payloads of two
    distinct slots other than slot 0, which it uses as scratch space:
    afterwards each of the two slots holds what the other held, every other
    slot from 1 on is unchanged, and nothing but the payload array is
    touched. *)
Theorem list_swap_vals_spec lst act fr i j :
  Rep lst act fr ->
  0 < i < capacity lst -> 0 < j < capacity lst -> i <> j ->
  exists d',
    list_swap_vals lst i j = Ok (set_data lst (Some d')) /\
    elem_at (set_data lst (Some d')) i = elem_at lst j /\
    elem_at (set_data lst (Some d')) j = elem_at lst i /\
    elem_at (set_data lst (Some d')) 0 = elem_at lst i /\
    (forall x, 0 < x < capacity lst -> x <> i -> x <> j ->
       elem_at (set_data lst (Some d')) x = elem_at lst x).
Proof.
  intros R Hi Hj Hne.
  pose proof (rep_elem_size _ _ _ R) as Hes.
  pose proof (rep_blocks _ _ _ R) as (d & ns & ps & Hd & _ & _ & Hld & _).
  destruct (list_swap_vals_payloads lst d i j Hd Hld ltac:(lia) Hi Hj Hne)
    as (d' & Hrun & Ld & Pi & Pj & P0 & Po).
  exists d'. split; [exact Hrun|].
  assert (Hel : forall x, 0 <= x < capacity lst ->
             elem_at (set_data lst (Some d')) x = Ok (payload d' (elem_size lst) x) /\
             elem_at lst x = Ok (payload d (elem_size lst) x)).
  { intros x Hx. split.
    - apply (elem_at_payload (set_data lst (Some d')) d' x); cbn; try done; try lia.
      rewrite Ld. nia.
    - apply elem_at_payload; try done; try lia. nia. }
  split; [|split; [|split]].
  - destruct (Hel i) as [-> _]; [lia|]. destruct (Hel j) as [_ ->]; [lia|]. by rewrite Pi.
  - destruct (Hel j) as [-> _]; [lia|]. destruct (Hel i) as [_ ->]; [lia|]. by rewrite Pj.
  - destruct (Hel 0) as [-> _]; [lia|]. destruct (Hel i) as [_ ->]; [lia|]. by rewrite P0.
  - intros x Hx Hxi Hxj. destruct (Hel x) as [-> ->]; [lia|]. by rewrite Po by lia.
Qed.

Lemma list_swap_vals_spec_witness :
  exists d',
    list_swap_vals swapped3 1 2 = Ok (set_data swapped3 (Some d')) /\
    elem_at (set_data swapped3 (Some d')) 1 = elem_at swapped3 2 /\
    elem_at (set_data swapped3 (Some d')) 2 = elem_at swapped3 1 /\
    elem_at (set_data swapped3 (Some d')) 0 = elem_at swapped3 1 /\
    (forall x, 0 < x < capacity swapped3 -> x <> 1 -> x <> 2 ->
       elem_at (set_data swapped3 (Some d')) x = elem_at swapped3 x).
Proof.
  apply (list_swap_vals_spec swapped3 [2; 1] [3] 1 2 swapped3_rep).
  - split; reflexivity.
  - split; reflexivity.
  - discriminate.
Defined.

(** X25: [list_normalize] does its work on every valid list, not flagged
    normalized and not empty, in which no element sits in a slot below its
    position (the element of position [k], counted from 1, is in a slot
    [>= k]).  It returns a valid list flagged normalized whose elements
    occupy the slots [1 .. size - 1] in their order, whose free chain runs
    through the slots [size .. capacity - 1] in increasing order, and whose
    traversal yields the same payloads in the same order as before. *)
Theorem list_normalize_upward ndebug lst act fr :
  Rep lst act fr -> normalized lst = false -> act <> [] ->
  (forall k x, act !! k = Some x -> Z.of_nat k + 1 <= x) ->
  exists lst',
    list_normalize ndebug lst = Ok lst' /\
    Rep lst' (seqZ 1 (size lst - 1)) (seqZ (size lst) (capacity lst - size lst)) /\
    normalized lst' = true /\
    size lst' = size lst /\ capacity lst' = capacity lst /\
    elem_size lst' = elem_size lst /\
    list_verify lst' = Ok LIST_NO_ERR /\
    list_print ndebug lst' = list_print ndebug lst.
Proof. apply list_normalize_upward_ok. Qed.

Lemma list_normalize_upward_witness :
  exists lst',
    list_normalize true gapped3 = Ok lst' /\
    Rep lst' (seqZ 1 (size gapped3 - 1))
        (seqZ (size gapped3) (capacity gapped3 - size gapped3)) /\
    normalized lst' = true /\
    size lst' = size gapped3 /\ capacity lst' = capacity gapped3 /\
    elem_size lst' = elem_size gapped3 /\
    list_verify lst' = Ok LIST_NO_ERR /\
    list_print true lst' = list_print true gapped3.
Proof.
  apply (list_normalize_upward true gapped3 [2; 3] [1] gapped3_rep).
  - reflexivity.
  - discriminate.
  - intros [|[|k]] x; cbn; intros [= <-]; lia.
Defined.

(** X26: on a valid list that holds no element [list_normalize] sets the
    flag and returns: the free chain is not rebuilt.  If the first free
    slot is not slot 1, the element inserted next lands in that slot while
    the list stays flagged normalized, so that [list_element_at] answers
    position 0 with slot 1, which is free: [list_get] of it is NULL and
    [list_erase_by_index(lst, 0)] returns [LIST_BAD_ITERATOR] although the
    list holds an element. *)
Theorem list_normalize_of_empty_list ndebug lst fr :
  Rep lst [] fr -> normalized lst = false ->
  list_normalize ndebug lst = Ok (set_normalized lst true) /\
  Rep (set_normalized lst true) [] fr /\
  (forall v h,
     first_free lst <> 1 -> size lst < capacity lst ->
     elem_size lst <= Z.of_nat (length v) ->
     exists lst2,
       list_insert_to_tail ndebug (set_normalized lst true) v h
       = Ok ((LIST_NO_ERR, lst2), h) /\
       list_is_normalized ndebug lst2 = Ok true /\
       list_print ndebug lst2 = Ok [take (Z.to_nat (elem_size lst)) v] /\
       list_head ndebug lst2 = Ok (first_free lst) /\
       list_element_at ndebug lst2 0 = Ok 1 /\
       list_get ndebug lst2 1 = Ok None /\
       list_erase_by_index ndebug lst2 0 = Ok (LIST_BAD_ITERATOR, lst2)).
Proof.
  intros R Hflag.
  pose proof (assert_verified_ok ndebug _ _ _ R) as Hassert.
  pose proof (rep_size _ _ _ R) as Hsize. cbn in Hsize.
  pose proof (rep_set_normalized _ _ _ true R) as R1.
  split; [|split; [done|]].
  { unfold list_normalize. rewrite Hassert, Hflag. cbn [obind].
    by destruct (Z.eqb_spec (size lst) 1); [|lia]. }
  intros v h Hff Hroom Hv.
  set (lst1 := set_normalized lst true) in *.
  pose proof (assert_verified_ok ndebug _ _ _ R1) as Hassert1.
  destruct (rep_room _ _ _ R1 Hroom) as (fr' & Hfr). cbn [lst1 set_normalized first_free] in Hfr.
  subst fr.
  destruct (list_insert_after_room ndebug lst1 [] [] (first_free lst) fr' v h R1 Hv)
    as (lst2 & Hrun & R2 & Hn2 & Hes2 & Hcap2 & _).
  destruct (list_insert_after_contents ndebug lst1 [] [] (first_free lst) fr' v h)
    with (d := default [] (data lst1)) as (lst2' & Hrun' & _ & Hp2).
  { done. }
  { pose proof (rep_blocks _ _ _ R1) as (d & _ & _ & -> & _). done. }
  { done. }
  rewrite Hrun in Hrun'. injection Hrun' as <-.
  cbn [app last0 last default fmap list_fmap] in *.
  pose proof (assert_verified_ok ndebug _ _ _ R2) as Hassert2.
  pose proof (rep_size _ _ _ R2) as Hsize2. cbn in Hsize2.
  pose proof (rep_capacity _ _ _ R2) as Hc2. pose proof (rep_cap_bound _ _ _ R2) as Hcb2.
  assert (Hchk : list_check_iterator lst2 1 = Ok false).
  { apply (check_iterator_inactive _ _ _ 1 R2); [lia|lia|set_solver]. }
  assert (Hat : list_element_at ndebug lst2 0 = Ok 1).
  { unfold list_element_at. rewrite Hassert2. cbn [obind].
    change (wrap (0 + 1)) with 1.
    destruct (Z.geb_spec 1 (size lst2)); [lia|]. by rewrite Hn2. }
  exists lst2. split; [|split; [|split; [|split; [|split; [|split]]]]].
  - unfold list_insert_to_tail. rewrite Hassert1, mbind_lift_Ok.
    by rewrite (rep_tail _ _ _ R1).
  - unfold list_is_normalized. by rewrite Hassert2, Hn2.
  - exact Hp2.
  - unfold list_head. by rewrite Hassert2, (rep_head _ _ _ R2).
  - exact Hat.
  - unfold list_get. by rewrite Hassert2, Hchk.
  - unfold list_erase_by_index. rewrite Hassert2. cbn [obind].
    rewrite Hat. cbn [obind]. unfold list_erase. by rewrite Hassert2, Hchk.
Qed.

Lemma drained3_rep : Rep drained3 [] [2; 1; 3].
Proof. rep_by_evaluation. Qed.

Lemma list_normalize_of_empty_list_witness :
  list_normalize true drained3 = Ok (set_normalized drained3 true) /\
  exists lst2,
    list_insert_to_tail true (set_normalized drained3 true) [x0c] heap0
    = Ok ((LIST_NO_ERR, lst2), heap0) /\
    list_is_normalized true lst2 = Ok true /\
    list_print true lst2 = Ok [[x0c]] /\
    list_head true lst2 = Ok 2 /\
    list_element_at true lst2 0 = Ok 1 /\
    list_get true lst2 1 = Ok None /\
    list_erase_by_index true lst2 0 = Ok (LIST_BAD_ITERATOR, lst2).
Proof.
  destruct (list_normalize_of_empty_list true drained3 [2; 1; 3] drained3_rep)
    as (Hn & _ & Hins); [reflexivity|].
  split; [exact Hn|].
  apply (Hins [x0c] heap0).
  - discriminate.
  - reflexivity.
  - vm_compute. discriminate.
Defined.

(** ** Reuse of slots *)

Lemma insert_after_payload ndebug lst l1 l2 p fr v h :
  Rep lst (l1 ++ l2) (p :: fr) ->
  elem_size lst <= Z.of_nat (length v) ->
  exists lst' d',
    list_insert_after ndebug lst (last0 l1) v h = Ok ((LIST_NO_ERR, lst'), h) /\
    Rep lst' (l1 ++ p :: l2) fr /\
    data lst' = Some d' /\ elem_size lst' = elem_size lst /\
    payload d' (elem_size lst) p = take (Z.to_nat (elem_size lst)) v /\
    elem_at lst' p = Ok (take (Z.to_nat (elem_size lst)) v) /\
    list_get ndebug lst' p = Ok (Some (p * elem_size lst)).
Proof.
  intros R Hv.
  destruct (list_insert_after_room ndebug _ _ _ _ _ v h R Hv)
    as (lst' & Hrun & R' & _ & Hes' & Hcap' & Hblit).
  pose proof (rep_blocks _ _ _ R) as (d & _ & _ & Hd & _).
  pose proof (rep_blocks _ _ _ R') as (d' & ns' & ps' & Hd' & _ & _ & Hld' & _).
  pose proof (rep_elem_size _ _ _ R) as Hes.
  assert (Hp : 0 < p < capacity lst) by (apply (rep_free_range _ _ _ R); set_solver).
  rewrite Hd, Hd' in Hblit.
  assert (Hpay : payload d' (elem_size lst) p = take (Z.to_nat (elem_size lst)) v).
  { apply (payload_blit_same d _ p _ d'); try lia; [|done].
    rewrite length_take. lia. }
  exists lst', d'. split; [done|]. split; [done|]. split; [done|].
  split; [done|]. split; [done|]. split.
  - rewrite <- Hpay, <- Hes'. apply elem_at_payload; try done; try lia. nia.
  - destruct (check_iterator_active _ _ _ l1 p l2 R' eq_refl) as (Hchk & _).
    unfold list_get. rewrite (assert_verified_ok ndebug _ _ _ R'), Hchk. cbn.
    by rewrite Hes'.
Qed.

(** X27: the slot of an erased element is the first to be used again, and
    an iterator kept from before the erasure cannot be told from a fresh
    one.  On a valid list, after [list_erase] of an element in slot [x] the
    iterator [x] is refused ([list_get] returns NULL); after an insertion
    that follows, at any valid position, [x] is accepted again and
    [list_get] of it is the address of the value just inserted. *)
Theorem erased_slot_is_reused ndebug lst l1 x l2 fr k1 k2 v h :
  Rep lst (l1 ++ x :: l2) fr ->
  l1 ++ l2 = k1 ++ k2 ->
  elem_size lst <= Z.of_nat (length v) ->
  exists lst1 it1 lst2,
    list_erase ndebug lst x = Ok (LIST_NO_ERR, lst1, it1) /\
    list_get ndebug lst1 x = Ok None /\
    list_insert_after ndebug lst1 (last0 k1) v h = Ok ((LIST_NO_ERR, lst2), h) /\
    Rep lst2 (k1 ++ x :: k2) fr /\
    list_check_iterator lst2 x = Ok true /\
    list_get ndebug lst2 x = Ok (Some (x * elem_size lst)) /\
    elem_at lst2 x = Ok (take (Z.to_nat (elem_size lst)) v).
Proof.
  intros R Hsplit Hv.
  destruct (list_erase_active ndebug _ _ _ _ _ R)
    as (lst1 & Hrun1 & R1 & _ & _ & Hes1 & _).
  rewrite Hsplit in R1.
  destruct (insert_after_payload ndebug lst1 k1 k2 x fr v h R1)
    as (lst2 & d2 & Hrun2 & R2 & Hd2 & Hes2 & Hpay & Hel & Hget); [lia|].
  eexists lst1, _, lst2. split; [exact Hrun1|]. split; [|split; [exact Hrun2|]].
  - unfold list_get. rewrite (assert_verified_ok ndebug _ _ _ R1).
    rewrite (check_iterator_free _ _ _ x R1) by set_solver. done.
  - split; [done|]. rewrite <- Hes1.
    destruct (check_iterator_active _ _ _ k1 x k2 R2 eq_refl) as (Hchk & _).
    by split.
Qed.

Lemma erased_slot_is_reused_witness :
  exists lst1 it1 lst2,
    list_erase true swapped3 2 = Ok (LIST_NO_ERR, lst1, it1) /\
    list_get true lst1 2 = Ok None /\
    list_insert_after true lst1 1 [x0c] heap0 = Ok ((LIST_NO_ERR, lst2), heap0) /\
    Rep lst2 [1; 2] [3] /\
    list_check_iterator lst2 2 = Ok true /\
    list_get true lst2 2 = Ok (Some (2 * elem_size swapped3)) /\
    elem_at lst2 2 = Ok (take (Z.to_nat (elem_size swapped3)) [x0c]).
Proof.
  apply (erased_slot_is_reused true swapped3 [] 2 [1] [3] [1] [] [x0c] heap0 swapped3_rep).
  - reflexivity.
  - vm_compute. discriminate.
Defined.

(** X28: inserting and then erasing the element inserted is a round trip.
    On a valid list with a free slot, after [list_insert_after] at any valid
    position and [list_erase] of the new element, the list is valid with the
    same elements in the same slots and the same free chain, its traversal
    is the one before the insertion, [list_size] is as before, and the
    iterator handed back by [list_erase] is the element that followed the
    position, or else the element of the position itself. *)
Theorem insert_then_erase_round_trip ndebug lst l1 l2 fr v h :
  Rep lst (l1 ++ l2) fr -> size lst < capacity lst ->
  elem_size lst <= Z.of_nat (length v) ->
  exists lst1 lst2 old,
    list_print ndebug lst = Ok old /\
    list_insert_after ndebug lst (last0 l1) v h = Ok ((LIST_NO_ERR, lst1), h) /\
    list_erase ndebug lst1 (first_free lst)
    = Ok (LIST_NO_ERR, lst2, if bool_decide (l2 = []) then last0 l1 else hd0 l2) /\
    Rep lst2 (l1 ++ l2) fr /\
    list_print ndebug lst2 = Ok old /\
    list_size lst2 = list_size lst /\
    first_free lst2 = first_free lst.
Proof.
  intros R Hroom Hv.
  destruct (rep_room _ _ _ R Hroom) as (fr' & ->).
  pose proof (rep_blocks _ _ _ R) as (d & _ & _ & Hd & _).
  destruct (list_insert_after_contents ndebug _ _ _ _ _ v h d R Hd Hv)
    as (lst1 & Hrun1 & Hp & Hp1).
  destruct (list_insert_after_room ndebug _ _ _ _ _ v h R Hv)
    as (lst1' & Hrun1' & R1 & _ & Hes1 & _).
  rewrite Hrun1 in Hrun1'. injection Hrun1' as <-.
  pose proof (rep_blocks _ _ _ R1) as (d1 & _ & _ & Hd1 & _).
  destruct (erase_active_contents ndebug _ _ _ _ _ d1 R1 Hd1) as (lst2 & Hrun2 & R2 & Hp2).
  exists lst1, lst2, (payload d (elem_size lst) <$> (l1 ++ l2)).
  split; [by rewrite Hp, fmap_app|]. split; [exact Hrun1|]. split; [exact Hrun2|].
  split; [exact R2|]. split; [|split].
  - rewrite Hp2.
    rewrite (list_print_rep ndebug lst1 _ _ d1 R1 Hd1) in Hp1.
    injection Hp1 as Hp1. rewrite fmap_app, fmap_cons in Hp1.
    apply app_inj_1 in Hp1 as [E1 E2]; [|by rewrite !length_fmap].
    injection E2 as _ E2. rewrite !fmap_app. by rewrite E1, E2.
  - rewrite (rep_list_size _ _ _ R), (rep_list_size _ _ _ R2). done.
  - apply (rep_first_free _ _ _ R2).
Qed.

Lemma insert_then_erase_round_trip_witness :
  exists lst1 lst2 old,
    list_print true swapped3 = Ok old /\
    list_insert_after true swapped3 2 [x0c] heap0 = Ok ((LIST_NO_ERR, lst1), heap0) /\
    list_erase true lst1 3 = Ok (LIST_NO_ERR, lst2, 1) /\
    Rep lst2 [2; 1] [3] /\
    list_print true lst2 = Ok old /\
    list_size lst2 = list_size swapped3 /\
    first_free lst2 = 3.
Proof.
  apply (insert_then_erase_round_trip true swapped3 [2] [1] [3] [x0c] heap0 swapped3_rep).
  - reflexivity.
  - vm_compute. discriminate.
Defined.

(** X29: iterators are stable where the arrays do not grow.  On a valid
    list, an insertion at any valid position that finds a free slot, and the
    erasure of an element, return [LIST_NO_ERR] and leave every other element
    in its slot: its iterator is still accepted, [list_get] returns the same
    offset [y * elem_size] into the payload array, which is not reallocated
    (the insertion leaves the heap as it was, and [list_erase] keeps the
    array), and the payload found there is unchanged. *)
Theorem iterators_stay_valid ndebug lst act fr y :
  Rep lst act fr -> y ∈ act ->
  list_get ndebug lst y = Ok (Some (y * elem_size lst)) /\
  (forall l1 l2 v h,
     act = l1 ++ l2 -> size lst < capacity lst ->
     elem_size lst <= Z.of_nat (length v) ->
     exists lst',
       list_insert_after ndebug lst (last0 l1) v h = Ok ((LIST_NO_ERR, lst'), h) /\
       list_check_iterator lst' y = Ok true /\
       list_get ndebug lst' y = list_get ndebug lst y /\
       elem_at lst' y = elem_at lst y) /\
  (forall x,
     x ∈ act -> x <> y ->
     exists lst' it',
       list_erase ndebug lst x = Ok (LIST_NO_ERR, lst', it') /\
       data lst' = data lst /\
       list_check_iterator lst' y = Ok true /\
       list_get ndebug lst' y = list_get ndebug lst y /\
       elem_at lst' y = elem_at lst y).
Proof.
  intros R Hy.
  pose proof (rep_act_range _ _ _ R y Hy) as Hyr.
  pose proof (rep_elem_size _ _ _ R) as Hes.
  assert (Hget : forall lst' act' fr',
             Rep lst' act' fr' -> y ∈ act' -> elem_size lst' = elem_size lst ->
             list_check_iterator lst' y = Ok true /\
             list_get ndebug lst' y = Ok (Some (y * elem_size lst))).
  { intros lst' act' fr' R' Hy' Hes'.
    apply list_elem_of_split in Hy' as (k1 & k2 & Hsplit').
    destruct (check_iterator_active _ _ _ k1 y k2 R' Hsplit') as (Hchk' & _).
    split; [done|]. unfold list_get.
    rewrite (assert_verified_ok ndebug _ _ _ R').
    rewrite Hchk'. cbn. by rewrite Hes'. }
  destruct (Hget lst act fr R Hy eq_refl) as [_ Hg0].
  split; [exact Hg0|]. rewrite Hg0. split.
  - intros l1 l2 v h -> Hroom Hv.
    destruct (rep_room _ _ _ R Hroom) as (fr' & ->).
    set (p := first_free lst) in *.
    destruct (list_insert_after_room ndebug _ _ _ _ _ v h R Hv)
      as (lst' & Hrun & R' & _ & Hes' & Hcap' & Hblit).
    exists lst'. split; [exact Hrun|].
    destruct (Hget lst' _ _ R') as [Hc Hg]; [set_solver|done|].
    split; [done|]. split; [done|].
    pose proof (rep_blocks _ _ _ R) as (d & ns & ps & Hd & _ & _ & Hld & _).
    pose proof (rep_blocks _ _ _ R') as (d' & ns' & ps' & Hd' & _ & _ & Hld' & _).
    rewrite Hd, Hd' in Hblit.
    assert (Hp : 0 < p < capacity lst) by (apply (rep_free_range _ _ _ R); set_solver).
    assert (Hyp : y <> p).
    { pose proof (rep_NoDup _ _ _ R) as Hnd.
      apply NoDup_cons in Hnd as [_ Hnd]. apply NoDup_app in Hnd as (_ & Hdisj & _).
      intros ->. apply (Hdisj _ Hy). set_solver. }
    rewrite (elem_at_payload lst' d' y) by (done || nia).
    rewrite (elem_at_payload lst d y) by (done || nia).
    rewrite Hes'. f_equal.
    apply (payload_blit_other d _ p (take (Z.to_nat (elem_size lst)) v) d');
      try done; try lia.
    rewrite length_take. lia.
  - intros x Hx Hne.
    apply list_elem_of_split in Hx as (l1 & l2 & ->).
    destruct (list_erase_active ndebug _ _ _ _ _ R)
      as (lst' & Hrun & R' & _ & Hd' & Hes' & _).
    eexists lst', _. split; [exact Hrun|]. split; [exact Hd'|].
    destruct (Hget lst' _ _ R') as [Hc Hg]; [set_solver|done|].
    split; [done|]. split; [done|].
    unfold elem_at. by rewrite Hd', Hes'.
Qed.

Lemma iterators_stay_valid_witness :
  list_get true swapped3 1 = Ok (Some (1 * elem_size swapped3)) /\
  (exists lst',
     list_insert_after true swapped3 2 [x0c] heap0 = Ok ((LIST_NO_ERR, lst'), heap0) /\
     list_check_iterator lst' 1 = Ok true /\
     list_get true lst' 1 = list_get true swapped3 1 /\
     elem_at lst' 1 = elem_at swapped3 1) /\
  (exists lst' it',
     list_erase true swapped3 2 = Ok (LIST_NO_ERR, lst', it') /\
     data lst' = data swapped3 /\
     list_check_iterator lst' 1 = Ok true /\
     list_get true lst' 1 = list_get true swapped3 1 /\
     elem_at lst' 1 = elem_at swapped3 1).
Proof.
  destruct (iterators_stay_valid true swapped3 [2; 1] [3] 1 swapped3_rep)
    as (Hget & Hins & Hers).
  - by apply (bool_decide_unpack _).
  - split; [exact Hget|]. split.
    + apply (Hins [2] [1] [x0c] heap0).
      * reflexivity.
      * reflexivity.
      * vm_compute. discriminate.
    + apply (Hers 2).
      * by apply (bool_decide_unpack _).
      * discriminate.
Defined.

(** ** The example program *)





